(** * AudioPlayer: waveform decimation, waveform scheduling, channel routing
      and the routed-file cache

    A shallow embedding of the computational cores of the player:
    [audioplayer/waveform.py] (the decimation job),
    [audioplayer/controllers/waveform_controller.py] and
    [audioplayer/main_window.py] (scheduling and the waveform cache) and
    [app.py] (routing matrix, routed-file cache).

    Conventions.
    - Audio samples are IEEE-754 values without payload ([spec_float]); the
      numpy operations used on them ([abs], [maximum], [nan_to_num], [clip])
      are exact, so they are modelled exactly.
    - Python integers are [Z]; list positions are [nat].
    - The true division of two Python integers is the binary64 number nearest
      to the quotient ([Float64]).
    - Routing gains are rationals: [Routing] divides them exactly, [Float32]
      rounds every sum and quotient to binary32 as numpy does.
    - A Python [dict] is an association list in insertion order.
    - An operation that can raise returns [option] or a sum. *)

From Stdlib Require Import String Ascii DecimalString ZArith QArith Qabs Bool Lia List.
From Stdlib Require Import Floats.SpecFloat.
Import ListNotations.

Local Open Scope Z_scope.

(** ** numpy scalar operations on float32 values *)

Module Np.

Definition float := spec_float.

Definition zero : float := S754_zero false.
(** 1.0 as mantissa 2^23 and exponent -23 (the canonical binary32 form). *)
Definition one : float := S754_finite false 8388608 (-23).

Definition isnan (a : float) : bool :=
  match a with S754_nan => true | _ => false end.

Definition isfinite (a : float) : bool :=
  match a with S754_nan | S754_infinity _ => false | _ => true end.

Definition gt (a b : float) : bool :=
  match SFcompare a b with Some Gt => true | _ => false end.

Definition ge (a b : float) : bool :=
  match SFcompare a b with Some (Gt | Eq) => true | _ => false end.

Definition lt (a b : float) : bool := SFltb a b.
Definition le (a b : float) : bool := SFleb a b.

(** [np.abs] *)
Definition abs (a : float) : float := SFabs a.

(** [np.maximum]: a NaN operand wins, otherwise the larger operand. *)
Definition maximum (a b : float) : float :=
  if ge a b || isnan a then a else b.

(** [np.minimum] *)
Definition minimum (a b : float) : float :=
  if le a b || isnan a then a else b.

(** [np.nan_to_num(a, nan=nan, posinf=posinf, neginf=neginf)] on one cell *)
Definition nan_to_num (nan posinf neginf : float) (a : float) : float :=
  match a with
  | S754_nan => nan
  | S754_infinity false => posinf
  | S754_infinity true => neginf
  | _ => a
  end.

(** [np.clip(a, lo, hi)] on one cell: [minimum(maximum(a, lo), hi)]. *)
Definition clip (lo hi : float) (a : float) : float :=
  minimum (maximum a lo) hi.

(** A two-dimensional array: [shape = (length rows, ncols)]. *)
Record ndarray2 := mk_ndarray2 { ncols : nat; rows : list (list float) }.

Definition wf (a : ndarray2) : Prop :=
  Forall (fun r => length r = ncols a) (rows a).

Definition shape0 (a : ndarray2) : nat := length (rows a).
Definition shape1 (a : ndarray2) : nat := ncols a.
Definition size (a : ndarray2) : nat := (shape0 a * shape1 a)%nat.

Definition zeros (n m : nat) : ndarray2 :=
  mk_ndarray2 m (repeat (repeat zero m) n).

Definition map2d (f : float -> float) (a : ndarray2) : ndarray2 :=
  mk_ndarray2 (ncols a) (map (map f) (rows a)).

(** [a[r, c]]; [None] is an IndexError. *)
Definition get (a : ndarray2) (r c : nat) : option float :=
  match nth_error (rows a) r with
  | Some row => nth_error row c
  | None => None
  end.

(** numpy's index rule on an axis of length [len]: [-len <= i < len], a
    negative index counts from the end. *)
Definition norm_index (len : nat) (i : Z) : option nat :=
  if (0 <=? i) && (i <? Z.of_nat len) then Some (Z.to_nat i)
  else if (- Z.of_nat len <=? i) && (i <? 0) then Some (Z.to_nat (Z.of_nat len + i))
  else None.

(** In-place update of position [n] of a list. *)
Fixpoint upd_nth {A : Type} (n : nat) (f : A -> option A) (l : list A)
  : option (list A) :=
  match l, n with
  | [], _ => None
  | x :: t, O => option_map (fun y => y :: t) (f x)
  | x :: t, S n' => option_map (cons x) (upd_nth n' f t)
  end.

(** [a[r, c] = g(a[r, c])] *)
Definition cell_update (a : ndarray2) (r c : nat) (g : float -> float)
  : option ndarray2 :=
  if (c <? ncols a)%nat then
    option_map (mk_ndarray2 (ncols a))
      (upd_nth r (upd_nth c (fun old => Some (g old))) (rows a))
  else None.

(** [a[:, c]] read as a vector. *)
Fixpoint column_of (rs : list (list float)) (c : nat) : option (list float) :=
  match rs with
  | [] => Some []
  | r :: rs' =>
      match nth_error r c, column_of rs' c with
      | Some v, Some vs => Some (v :: vs)
      | _, _ => None
      end
  end.

Definition column (a : ndarray2) (c : nat) : option (list float) :=
  if (c <? ncols a)%nat then column_of (rows a) c else None.

(** [np.maximum.at(a[:, c], idx, vals)]: unbuffered, one index at a time. *)
Fixpoint maximum_at (a : ndarray2) (c : nat) (idx : list Z) (vals : list float)
  : option ndarray2 :=
  match idx, vals with
  | i :: idx', v :: vals' =>
      match norm_index (shape0 a) i with
      | Some r =>
          match cell_update a r c (fun old => maximum old v) with
          | Some a' => maximum_at a' c idx' vals'
          | None => None
          end
      | None => None
      end
  | _, _ => Some a
  end.

End Np.

(** ** waveform.py: WaveformJob *)

(** ** Python's true division of integers *)

Module Float64.

(** The integer nearest to [p / q], the even one of two equally near, for
    [q > 0]. *)
Definition round_half_even (p q : Z) : Z :=
  let f := p / q in
  match (2 * (p mod q) ?= q) with
  | Lt => f
  | Gt => f + 1
  | Eq => if Z.even f then f else f + 1
  end.

(** [floor(log2(p / q))] for [p > 0] and [q > 0]. *)
Definition quotient_exponent (p q : Z) : Z :=
  let e0 := Z.log2 p - Z.log2 q in
  if (if 0 <=? e0 then q * 2 ^ e0 <=? p else q <=? p * 2 ^ (- e0)) then e0 else e0 - 1.

(** [p / q] for Python integers [p >= 0] and [q > 0]: the binary64 number
    nearest to the exact quotient, ties to even, as mantissa [m] and exponent
    [e] of the value [m * 2 ^ e] (53 bits of mantissa, subnormal below
    2^-1022).  Python raises [OverflowError] for a quotient of 2^1024 or
    more, which is not modelled. *)
Definition quotient (p q : Z) : Z * Z :=
  if p =? 0 then (0, 0)
  else
    let e := Z.max (quotient_exponent p q - 52) (-1074) in
    let m := if 0 <=? e then round_half_even p (q * 2 ^ e)
             else round_half_even (p * 2 ^ (- e)) q in
    (m, e).

(** [math.ceil(a / b)] for Python integers [a] and [b <> 0]: the quotient is
    rounded to binary64 first, then the ceiling is taken. *)
Definition ceil_quotient (a b : Z) : Z :=
  let '(m, e) := quotient (Z.abs a) (Z.abs b) in
  let negative := xorb (a <? 0) (b <? 0) in
  if 0 <=? e then (if negative then - (m * 2 ^ e) else m * 2 ^ e)
  else if negative then - (m / 2 ^ (- e)) else - ((- m) / 2 ^ (- e)).

End Float64.

Module Waveform.

Import Np.

(** The ceiling of the exact quotient [a / b], for [b > 0]: what
    [math.ceil(a / b)] would be without the rounding of the division. *)
Definition ceil_div (a b : Z) : Z := - ((- a) / b).

(** [max(1, math.ceil(total_frames / self.points))] *)
Definition bucket_of (total_frames points : Z) : Z :=
  Z.max 1 (Float64.ceil_quotient total_frames points).

(** [max(1, math.ceil(total_frames / bucket))] *)
Definition bins_of (total_frames bucket : Z) : Z :=
  Z.max 1 (Float64.ceil_quotient total_frames bucket).

Definition chunk_frames_of (bucket : Z) : Z :=
  Z.min (Z.max (bucket * 24) 8192) 262144.

(** [idx = (frame_pos + arange(n)) // bucket; idx[idx >= bins] = bins - 1],
    for one position. *)
Definition bin_index (bucket bins : Z) (pos : Z) : Z :=
  let i := pos / bucket in
  if i >=? bins then bins - 1 else i.

(** [frame_pos + np.arange(frame_count)] *)
Fixpoint arange_from (start : Z) (n : nat) : list Z :=
  match n with
  | O => []
  | S n' => start :: arange_from (start + 1) n'
  end.

Definition chunk_idx (bucket bins frame_pos : Z) (frame_count : nat) : list Z :=
  map (bin_index bucket bins) (arange_from frame_pos frame_count).

(** The [for channel_index in range(channel_count)] loop. *)
Fixpoint channel_loop (amp abs_chunk : ndarray2) (idx : list Z)
    (channel_index : nat) (remaining : nat) : option ndarray2 :=
  match remaining with
  | O => Some amp
  | S k =>
      match column abs_chunk channel_index with
      | Some vals =>
          match maximum_at amp channel_index idx vals with
          | Some amp' => channel_loop amp' abs_chunk idx (S channel_index) k
          | None => None
          end
      | None => None
      end
  end.

(** Lines 79-85 of [WaveformJob.run]: fold one chunk into the accumulator. *)
Definition process_chunk (bucket bins frame_pos : Z) (amp chunk : ndarray2)
  : option ndarray2 :=
  let abs_chunk := map2d abs chunk in
  let frame_count := shape0 abs_chunk in
  let idx := chunk_idx bucket bins frame_pos frame_count in
  let channel_count := Nat.min (shape1 amp) (shape1 abs_chunk) in
  channel_loop amp abs_chunk idx 0 channel_count.

(** [sf.info(path)]: frames, samplerate, channels. *)
Record StreamInfo := mk_info { frames : Z; samplerate : Z; channels : Z }.

(** One call of [audio_file.read(chunk_frames, always_2d=True)]. *)
Inductive ReadResult :=
| ReadChunk (chunk : ndarray2)
| ReadError (msg : string).

(** What the decoding library answers for one path: the header (or the text
    of the exception of [sf.info]), whether opening raises, and the results of
    the successive reads; once they are used up a read returns an empty chunk. *)
Record AudioFile := mk_file {
  af_info : StreamInfo + string;
  af_open : option string;
  af_reads : list ReadResult
}.

Record WaveformJob := mk_job {
  request_id : Z;
  path : string;
  points : Z;
  emit_progress : bool;
  progress_interval : Q
}.

(** The three Qt signals of the job. *)
Inductive Event :=
| progressReady (rid : Z) (p : string) (x : list Q) (amp : ndarray2) (filled bins : Z)
| resultReady (rid : Z) (p : string) (x : list Q) (amp : ndarray2)
| errorRaised (rid : Z) (p : string) (msg : string).

Definition is_result (e : Event) : bool :=
  match e with resultReady _ _ _ _ => true | _ => false end.

Definition is_error (e : Event) : bool :=
  match e with errorRaised _ _ _ => true | _ => false end.

(** [np.linspace(0, stop, num)], in exact arithmetic. *)
Definition linspace (stop : Q) (num : Z) : list Q :=
  map (fun i => if num =? 1 then 0%Q
                else (inject_Z i * stop / inject_Z (num - 1))%Q)
      (arange_from 0 (Z.to_nat num)).

Inductive LoopExit :=
| ExitCancelled
| ExitEof
| ExitRaised (msg : string).

Section Run.

(** [cancelled k] is the value of [self._cancelled] at its [k]-th reading
    point: reading point [i] is the loop test of iteration [i]; the test after
    the loop, and the test in the exception handler, come one point after the
    last loop test.  [monotonic i] is [time.monotonic()] in iteration [i]. *)
Variable cancelled : nat -> bool.
Variable monotonic : nat -> Q.
Variable job : WaveformJob.

(** The [while not self._cancelled] loop.  Returns the signals emitted, how
    the loop was left, the iteration in which it was left and the accumulator. *)
Fixpoint stream_loop (x : list Q) (bucket bins : Z) (reads : list ReadResult)
    (i : nat) (amp : ndarray2) (frame_pos : Z) (last_emit : Q)
  : list Event * (LoopExit * nat * ndarray2) :=
  if cancelled i then ([], (ExitCancelled, i, amp))
  else
    match reads with
    | [] => ([], (ExitEof, i, amp))
    | ReadError msg :: _ => ([], (ExitRaised msg, i, amp))
    | ReadChunk chunk :: rest =>
        if (size chunk =? 0)%nat then ([], (ExitEof, i, amp))
        else
          match process_chunk bucket bins frame_pos amp chunk with
          | None => ([], (ExitRaised "IndexError", i, amp))
          | Some amp' =>
              let frame_pos' := frame_pos + Z.of_nat (shape0 chunk) in
              let now := monotonic i in
              let due := emit_progress job
                         && Qle_bool (progress_interval job) (now - last_emit) in
              let filled := Z.min bins (Float64.ceil_quotient frame_pos' bucket) in
              let evs := if due
                         then [progressReady (request_id job) (path job) x amp' filled bins]
                         else [] in
              let last_emit' := if due then now else last_emit in
              let '(evs', r) :=
                stream_loop x bucket bins rest (S i) amp' frame_pos' last_emit' in
              (evs ++ evs', r)
          end
    end.

(** The [except Exception] handler, entered at reading point [k]. *)
Definition on_exception (k : nat) (msg : string) : list Event :=
  if cancelled k then [] else [errorRaised (request_id job) (path job) msg].

(** [WaveformJob.run]: the signals emitted, in order. *)
Definition run (file : AudioFile) : list Event :=
  match af_info file with
  | inr msg => on_exception 0 msg
  | inl info =>
      let total_frames := frames info in
      let sample_rate := samplerate info in
      let channels := Z.to_nat (Z.max 1 (channels info)) in
      if (total_frames <=? 0) || (sample_rate <=? 0) then
        [resultReady (request_id job) (path job) [0%Q] (zeros 1 channels)]
      else if points job =? 0 then on_exception 0 "division by zero"
      else
        let bucket := bucket_of total_frames (points job) in
        let bins := bins_of total_frames bucket in
        let x := linspace (inject_Z total_frames / inject_Z sample_rate) bins in
        let amp := zeros (Z.to_nat bins) channels in
        match af_open file with
        | Some msg => on_exception 0 msg
        | None =>
            let '(evs, (ex, k, amp')) :=
              stream_loop x bucket bins (af_reads file) 0 amp 0 0%Q in
            match ex with
            | ExitRaised msg => evs ++ on_exception (S k) msg
            | _ =>
                if cancelled (S k) then evs
                else evs ++ [resultReady (request_id job) (path job) x amp']
            end
        end
  end.

(** The reading point of the test that follows the loop. *)
Definition final_check (file : AudioFile) : nat :=
  match af_info file with
  | inr _ => 0%nat
  | inl info =>
      let bucket := bucket_of (frames info) (points job) in
      let bins := bins_of (frames info) bucket in
      let '(_, (_, k, _)) :=
        stream_loop (linspace (inject_Z (frames info) / inject_Z (samplerate info)) bins)
          bucket bins (af_reads file) 0
          (zeros (Z.to_nat bins) (Z.to_nat (Z.max 1 (channels info)))) 0 0%Q in
      S k
  end.

End Run.

End Waveform.

(** ** Python dictionaries, in insertion order *)

Module Dict.

Section Dict.
Context {V : Type}.

Definition t := list (string * V).

Fixpoint get (k : string) (d : t) : option V :=
  match d with
  | [] => None
  | (k', v) :: d' => if String.eqb k k' then Some v else get k d'
  end.

(** [d[k] = v]: an existing key keeps its position, a new key goes last. *)
Fixpoint set (k : string) (v : V) (d : t) : t :=
  match d with
  | [] => [(k, v)]
  | (k', v') :: d' =>
      if String.eqb k k' then (k', v) :: d' else (k', v') :: set k v d'
  end.

(** [d.pop(k, None)] *)
Fixpoint pop (k : string) (d : t) : t :=
  match d with
  | [] => []
  | (k', v') :: d' => if String.eqb k k' then d' else (k', v') :: pop k d'
  end.

Definition keys (d : t) : list string := map fst d.

(** [next(iter(d))] *)
Definition first_key (d : t) : option string :=
  match d with
  | [] => None
  | (k, _) :: _ => Some k
  end.

End Dict.

End Dict.

(** ** waveform_controller.py and the waveform cache of main_window.py *)

Module Controller.

Import Np Waveform.

(** [_align_wave_channels], for a two-dimensional amplitude array. *)
Definition _align_wave_channels (x : list Q) (amplitudes : ndarray2)
  : list Q * ndarray2 :=
  if (length x =? 0)%nat || (size amplitudes =? 0)%nat then
    ([], mk_ndarray2 1 [])
  else
    let n := Nat.min (length x) (shape0 amplitudes) in
    let amp_arr := mk_ndarray2 (ncols amplitudes) (firstn n (rows amplitudes)) in
    let amp_arr := map2d (nan_to_num zero one zero) amp_arr in
    let amp_arr := map2d (clip zero one) amp_arr in
    (firstn n x, amp_arr).

(** A cached waveform: [(signature, x, amplitudes)]. *)
Definition CacheEntry := (string * list Q * ndarray2)%type.

(** A partial waveform: [(signature, x, amp, filled_bins, total_bins)]. *)
Definition PartialEntry := (string * list Q * ndarray2 * Z * Z)%type.

(** The text of [wave_load_label]; the percentage of a partial waveform is
    kept as the two counts it is computed from. *)
Inductive Label :=
| LabelText (s : string)
| LabelPercent (filled_bins total_bins : Z).

(** The fields of the player that the waveform controller reads and writes.
    [plot] is the pair of arrays handed to the drawing code ([None] after
    [_clear_waveform_plot]); [started] lists the jobs on which [start()] was
    called, oldest first. *)
Record Host := mk_host {
  wave_cache : list (string * CacheEntry);
  wave_partial : list (string * PartialEntry);
  tracks : list string;
  current_index : option Z;
  _waveform_points : Z;
  _active_wave_request_id : Z;
  _active_wave_path : string;
  _active_wave_signature : string;
  _active_wave_failed : bool;
  _active_wave_thread : option WaveformJob;
  _preload_request_id : Z;
  _preload_path : string;
  _preload_signature : string;
  _preload_thread : option WaveformJob;
  _preload_queue : list string;
  _preload_set : list string;
  plot : option (list Q * ndarray2);
  wave_load_label : Label;
  started : list WaveformJob
}.

Definition set_wave_cache (v : list (string * CacheEntry)) (h : Host) : Host :=
  mk_host v (wave_partial h) (tracks h) (current_index h) (_waveform_points h) (_active_wave_request_id h) (_active_wave_path h) (_active_wave_signature h) (_active_wave_failed h) (_active_wave_thread h) (_preload_request_id h) (_preload_path h) (_preload_signature h) (_preload_thread h) (_preload_queue h) (_preload_set h) (plot h) (wave_load_label h) (started h).

Definition set_wave_partial (v : list (string * PartialEntry)) (h : Host) : Host :=
  mk_host (wave_cache h) v (tracks h) (current_index h) (_waveform_points h) (_active_wave_request_id h) (_active_wave_path h) (_active_wave_signature h) (_active_wave_failed h) (_active_wave_thread h) (_preload_request_id h) (_preload_path h) (_preload_signature h) (_preload_thread h) (_preload_queue h) (_preload_set h) (plot h) (wave_load_label h) (started h).

Definition set_active_wave_request_id (v : Z) (h : Host) : Host :=
  mk_host (wave_cache h) (wave_partial h) (tracks h) (current_index h) (_waveform_points h) v (_active_wave_path h) (_active_wave_signature h) (_active_wave_failed h) (_active_wave_thread h) (_preload_request_id h) (_preload_path h) (_preload_signature h) (_preload_thread h) (_preload_queue h) (_preload_set h) (plot h) (wave_load_label h) (started h).

Definition set_active_wave_path (v : string) (h : Host) : Host :=
  mk_host (wave_cache h) (wave_partial h) (tracks h) (current_index h) (_waveform_points h) (_active_wave_request_id h) v (_active_wave_signature h) (_active_wave_failed h) (_active_wave_thread h) (_preload_request_id h) (_preload_path h) (_preload_signature h) (_preload_thread h) (_preload_queue h) (_preload_set h) (plot h) (wave_load_label h) (started h).

Definition set_active_wave_signature (v : string) (h : Host) : Host :=
  mk_host (wave_cache h) (wave_partial h) (tracks h) (current_index h) (_waveform_points h) (_active_wave_request_id h) (_active_wave_path h) v (_active_wave_failed h) (_active_wave_thread h) (_preload_request_id h) (_preload_path h) (_preload_signature h) (_preload_thread h) (_preload_queue h) (_preload_set h) (plot h) (wave_load_label h) (started h).

Definition set_active_wave_failed (v : bool) (h : Host) : Host :=
  mk_host (wave_cache h) (wave_partial h) (tracks h) (current_index h) (_waveform_points h) (_active_wave_request_id h) (_active_wave_path h) (_active_wave_signature h) v (_active_wave_thread h) (_preload_request_id h) (_preload_path h) (_preload_signature h) (_preload_thread h) (_preload_queue h) (_preload_set h) (plot h) (wave_load_label h) (started h).

Definition set_active_wave_thread (v : option WaveformJob) (h : Host) : Host :=
  mk_host (wave_cache h) (wave_partial h) (tracks h) (current_index h) (_waveform_points h) (_active_wave_request_id h) (_active_wave_path h) (_active_wave_signature h) (_active_wave_failed h) v (_preload_request_id h) (_preload_path h) (_preload_signature h) (_preload_thread h) (_preload_queue h) (_preload_set h) (plot h) (wave_load_label h) (started h).

Definition set_preload_request_id (v : Z) (h : Host) : Host :=
  mk_host (wave_cache h) (wave_partial h) (tracks h) (current_index h) (_waveform_points h) (_active_wave_request_id h) (_active_wave_path h) (_active_wave_signature h) (_active_wave_failed h) (_active_wave_thread h) v (_preload_path h) (_preload_signature h) (_preload_thread h) (_preload_queue h) (_preload_set h) (plot h) (wave_load_label h) (started h).

Definition set_preload_path (v : string) (h : Host) : Host :=
  mk_host (wave_cache h) (wave_partial h) (tracks h) (current_index h) (_waveform_points h) (_active_wave_request_id h) (_active_wave_path h) (_active_wave_signature h) (_active_wave_failed h) (_active_wave_thread h) (_preload_request_id h) v (_preload_signature h) (_preload_thread h) (_preload_queue h) (_preload_set h) (plot h) (wave_load_label h) (started h).

Definition set_preload_signature (v : string) (h : Host) : Host :=
  mk_host (wave_cache h) (wave_partial h) (tracks h) (current_index h) (_waveform_points h) (_active_wave_request_id h) (_active_wave_path h) (_active_wave_signature h) (_active_wave_failed h) (_active_wave_thread h) (_preload_request_id h) (_preload_path h) v (_preload_thread h) (_preload_queue h) (_preload_set h) (plot h) (wave_load_label h) (started h).

Definition set_preload_thread (v : option WaveformJob) (h : Host) : Host :=
  mk_host (wave_cache h) (wave_partial h) (tracks h) (current_index h) (_waveform_points h) (_active_wave_request_id h) (_active_wave_path h) (_active_wave_signature h) (_active_wave_failed h) (_active_wave_thread h) (_preload_request_id h) (_preload_path h) (_preload_signature h) v (_preload_queue h) (_preload_set h) (plot h) (wave_load_label h) (started h).

Definition set_preload_queue (v : list string) (h : Host) : Host :=
  mk_host (wave_cache h) (wave_partial h) (tracks h) (current_index h) (_waveform_points h) (_active_wave_request_id h) (_active_wave_path h) (_active_wave_signature h) (_active_wave_failed h) (_active_wave_thread h) (_preload_request_id h) (_preload_path h) (_preload_signature h) (_preload_thread h) v (_preload_set h) (plot h) (wave_load_label h) (started h).

Definition set_preload_set (v : list string) (h : Host) : Host :=
  mk_host (wave_cache h) (wave_partial h) (tracks h) (current_index h) (_waveform_points h) (_active_wave_request_id h) (_active_wave_path h) (_active_wave_signature h) (_active_wave_failed h) (_active_wave_thread h) (_preload_request_id h) (_preload_path h) (_preload_signature h) (_preload_thread h) (_preload_queue h) v (plot h) (wave_load_label h) (started h).

Definition set_plot (v : option (list Q * ndarray2)) (h : Host) : Host :=
  mk_host (wave_cache h) (wave_partial h) (tracks h) (current_index h) (_waveform_points h) (_active_wave_request_id h) (_active_wave_path h) (_active_wave_signature h) (_active_wave_failed h) (_active_wave_thread h) (_preload_request_id h) (_preload_path h) (_preload_signature h) (_preload_thread h) (_preload_queue h) (_preload_set h) v (wave_load_label h) (started h).

Definition set_wave_load_label (v : Label) (h : Host) : Host :=
  mk_host (wave_cache h) (wave_partial h) (tracks h) (current_index h) (_waveform_points h) (_active_wave_request_id h) (_active_wave_path h) (_active_wave_signature h) (_active_wave_failed h) (_active_wave_thread h) (_preload_request_id h) (_preload_path h) (_preload_signature h) (_preload_thread h) (_preload_queue h) (_preload_set h) (plot h) v (started h).

Definition set_started (v : list WaveformJob) (h : Host) : Host :=
  mk_host (wave_cache h) (wave_partial h) (tracks h) (current_index h) (_waveform_points h) (_active_wave_request_id h) (_active_wave_path h) (_active_wave_signature h) (_active_wave_failed h) (_active_wave_thread h) (_preload_request_id h) (_preload_path h) (_preload_signature h) (_preload_thread h) (_preload_queue h) (_preload_set h) (plot h) (wave_load_label h) v.

Definition string_of_Z (z : Z) : string := NilZero.string_of_int (Z.to_int z).

Definition in_list (p : string) (l : list string) : bool :=
  existsb (String.eqb p) l.

Section Scheduler.

(** [os.stat(path)]: [(st_size, st_mtime_ns)], or [None] when it raises. *)
Variable stat : string -> option (Z * Z).

Definition _file_signature (p : string) (points : option Z) : option string :=
  match stat p with
  | None => None
  | Some (st_size, st_mtime_ns) =>
      let signature := (string_of_Z st_size ++ ":" ++ string_of_Z st_mtime_ns)%string in
      match points with
      | Some n => Some (signature ++ "|p" ++ string_of_Z n)%string
      | None => Some signature
      end
  end.

Definition _cache_get (h : Host) (p signature : string) : option CacheEntry :=
  match Dict.get p (wave_cache h) with
  | Some (sig, x, amp) =>
      if String.eqb sig signature then Some (sig, x, amp) else None
  | None => None
  end.

Definition _cache_store (p signature : string) (x : list Q) (amplitudes : ndarray2)
    (h : Host) : Host :=
  let cache := Dict.set p (signature, x, amplitudes) (wave_cache h) in
  let cache :=
    if (40 <? length cache)%nat then
      match Dict.first_key cache with
      | Some oldest => Dict.pop oldest cache
      | None => cache
      end
    else cache in
  set_wave_cache cache h.

Definition _current_track_path (h : Host) : string :=
  match current_index h with
  | None => ""%string
  | Some i =>
      if (i <? 0) || (i >=? Z.of_nat (length (tracks h))) then ""%string
      else nth (Z.to_nat i) (tracks h) ""%string
  end.

Definition _clear_waveform_plot (h : Host) : Host := set_plot None h.

Definition _set_waveform_from_channels (x : list Q) (amplitudes : ndarray2)
    (h : Host) : Host :=
  let '(x_arr, amp_arr) := _align_wave_channels x amplitudes in
  if (length x_arr =? 0)%nat || (size amp_arr =? 0)%nat then _clear_waveform_plot h
  else set_plot (Some (x_arr, amp_arr)) h.

Definition _render_partial_for_path (p signature : string) (h : Host)
  : bool * Host :=
  match Dict.get p (wave_partial h) with
  | None => (false, h)
  | Some (psig, px, pamp, pfilled, ptotal) =>
      if negb (String.eqb psig signature) then (false, h)
      else
        let '(x, amp) := _align_wave_channels px pamp in
        let total_bins :=
          if ptotal <=? 0 then Z.max 1 (Z.of_nat (shape0 amp)) else ptotal in
        let filled_bins := Z.max 0 (Z.min pfilled total_bins) in
        let upto :=
          Z.max 0 (Z.min filled_bins
                     (Z.min (Z.of_nat (length x)) (Z.of_nat (shape0 amp)))) in
        let h :=
          if upto <=? 0 then _clear_waveform_plot h
          else _set_waveform_from_channels (firstn (Z.to_nat upto) x)
                 (mk_ndarray2 (ncols amp) (firstn (Z.to_nat upto) (rows amp))) h in
        (true, set_wave_load_label (LabelPercent filled_bins total_bins) h)
  end.

Definition _start_active_wave_worker (p signature : string) (emit : bool)
    (pts : Z) (h : Host) : Host :=
  let rid := _active_wave_request_id h + 1 in
  let thread := mk_job rid p pts emit (12 # 100) in
  set_started (started h ++ [thread])
    (set_active_wave_thread (Some thread)
       (set_active_wave_failed false
          (set_active_wave_signature signature
             (set_active_wave_path p
                (set_active_wave_request_id rid h))))).

Definition _start_preload_wave_worker (p signature : string) (emit : bool)
    (pts : Z) (h : Host) : Host :=
  let rid := _preload_request_id h + 1 in
  let thread := mk_job rid p pts emit (16 # 100) in
  set_started (started h ++ [thread])
    (set_preload_thread (Some thread)
       (set_preload_signature signature
          (set_preload_path p
             (set_preload_request_id rid h)))).

Definition _remove_from_preload_queue (p : string) (h : Host) : Host :=
  if in_list p (_preload_set h) then
    set_preload_queue (filter (fun q => negb (String.eqb q p)) (_preload_queue h))
      (set_preload_set (filter (fun q => negb (String.eqb q p)) (_preload_set h)) h)
  else h.

(** The [while self._preload_queue] loop of [_start_next_preload]; [queue] is
    what is left of the queue. *)
Fixpoint next_preload_loop (queue : list string) (h : Host) : Host :=
  match queue with
  | [] => h
  | p :: rest =>
      let h := set_preload_queue rest
                 (set_preload_set
                    (filter (fun q => negb (String.eqb q p)) (_preload_set h)) h) in
      if String.eqb p (_active_wave_path h) then next_preload_loop rest h
      else
        match _file_signature p (Some (_waveform_points h)) with
        | None => next_preload_loop rest h
        | Some signature =>
            match _cache_get h p signature with
            | Some _ => next_preload_loop rest h
            | None =>
                let is_current := String.eqb p (_current_track_path h) in
                _start_preload_wave_worker p signature is_current
                  (_waveform_points h) h
            end
        end
  end.

Definition _start_next_preload (h : Host) : Host :=
  match _preload_thread h with
  | Some _ => h
  | None => next_preload_loop (_preload_queue h) h
  end.

Definition set_thread_emit_progress (j : WaveformJob) : WaveformJob :=
  mk_job (request_id j) (path j) (points j) true (progress_interval j).

(** [try: signature = self._file_signature(path, self._waveform_points)]
    [except Exception: signature = ""] *)
Definition signature_or_empty (p : string) (h : Host) : string :=
  match _file_signature p (Some (_waveform_points h)) with
  | Some s => s
  | None => ""%string
  end.

Definition _load_waveform_for_track (p : string) (h : Host) : Host :=
  let signature := signature_or_empty p h in
  let h := _remove_from_preload_queue p h in
  match _cache_get h p signature with
  | Some (_, cx, camp) =>
      let h := _set_waveform_from_channels cx camp h in
      let h := set_wave_load_label (LabelText "") h in
      _start_next_preload h
  | None =>
      let loading (h : Host) : Host :=
        let '(ok, h') := _render_partial_for_path p signature h in
        if ok then h'
        else set_wave_load_label (LabelText "Waveform laden...")
               (_clear_waveform_plot h') in
      let is_some (t : option WaveformJob) : bool :=
        match t with Some _ => true | None => false end in
      if String.eqb (_active_wave_path h) p && is_some (_active_wave_thread h)
      then loading h
      else
        match (if String.eqb (_preload_path h) p then _preload_thread h else None) with
        | Some pt =>
            loading (set_preload_thread (Some (set_thread_emit_progress pt)) h)
        | None =>
            let h := set_wave_load_label (LabelText "Waveform laden: 0%")
                       (_clear_waveform_plot h) in
            match _active_wave_thread h, _preload_thread h with
            | None, _ =>
                _start_active_wave_worker p signature true (_waveform_points h) h
            | Some _, None =>
                _start_preload_wave_worker p signature true (_waveform_points h) h
            | Some _, Some _ =>
                let h :=
                  if in_list p (_preload_set h) then h
                  else set_preload_set (p :: _preload_set h)
                         (set_preload_queue (p :: _preload_queue h) h) in
                set_wave_load_label (LabelText "Waveform in wachtrij...") h
            end
        end
  end.

(** The slot connected to [resultReady] of the active job. *)
Definition _on_active_wave_finished (rid : Z) (p : string) (x_obj : list Q)
    (amp_obj : ndarray2) (h : Host) : Host :=
  if negb (rid =? _active_wave_request_id h)
     || negb (String.eqb p (_active_wave_path h)) then h
  else
    let h := set_active_wave_failed false h in
    let '(x, amplitudes) := _align_wave_channels x_obj amp_obj in
    let h := set_wave_partial (Dict.pop p (wave_partial h)) h in
    let h := _cache_store p (_active_wave_signature h) x amplitudes h in
    if String.eqb (_current_track_path h) p then
      set_wave_load_label (LabelText "") (_set_waveform_from_channels x amplitudes h)
    else h.

(** The slot connected to [progressReady] of the active job; [suppressed]
    says whether the player is playing inside the render-suppression window. *)
Definition _on_active_wave_progress (suppressed : bool) (rid : Z) (p : string)
    (x_obj : list Q) (amp_obj : ndarray2) (filled_bins total_bins : Z) (h : Host)
  : Host :=
  if negb (rid =? _active_wave_request_id h)
     || negb (String.eqb p (_active_wave_path h)) then h
  else
    let '(x, amp) := _align_wave_channels x_obj amp_obj in
    let total_bins :=
      if total_bins <=? 0 then Z.max 1 (Z.of_nat (shape0 amp)) else total_bins in
    let filled_bins := Z.max 0 (Z.min filled_bins total_bins) in
    let h := set_wave_partial
               (Dict.set p (_active_wave_signature h, x, amp, filled_bins, total_bins)
                  (wave_partial h)) h in
    if String.eqb (_current_track_path h) p then
      if suppressed then h
      else snd (_render_partial_for_path p (_active_wave_signature h) h)
    else h.

End Scheduler.

End Controller.

(** ** hashlib.sha1 (FIPS 180-4), on bytes given as integers in [0, 255] *)

Module Sha1.

Definition w32 (x : Z) : Z := Z.land x 4294967295.

Definition rotl (n x : Z) : Z :=
  w32 (Z.lor (Z.shiftl x n) (Z.shiftr x (32 - n))).

Definition add32 (x y : Z) : Z := w32 (x + y).

(** [n] bytes of [x], most significant first. *)
Fixpoint be_bytes (n : nat) (x : Z) : list Z :=
  match n with
  | O => []
  | S n' => Z.land (Z.shiftr x (8 * Z.of_nat n')) 255 :: be_bytes n' x
  end.

Definition pad (msg : list Z) : list Z :=
  let l := Z.of_nat (length msg) in
  msg ++ [128] ++ repeat 0 (Z.to_nat ((55 - l) mod 64)) ++ be_bytes 8 (8 * l).

(** Big-endian 32-bit words of a byte string whose length is a multiple of 4. *)
Fixpoint words (bs : list Z) (fuel : nat) : list Z :=
  match fuel, bs with
  | S f, b0 :: b1 :: b2 :: b3 :: rest =>
      (b0 * 16777216 + b1 * 65536 + b2 * 256 + b3) :: words rest f
  | _, _ => []
  end.

(** The message schedule: extends 16 words to 80. *)
Fixpoint schedule (w : list Z) (n : nat) : list Z :=
  match n with
  | O => w
  | S n' =>
      let t := length w in
      let g (k : nat) := nth (t - k) w 0 in
      schedule (w ++ [rotl 1 (Z.lxor (Z.lxor (g 3%nat) (g 8%nat))
                                (Z.lxor (g 14%nat) (g 16%nat)))]) n'
  end.

Definition State := (Z * Z * Z * Z * Z)%type.

Definition round (t : nat) (wt : Z) (s : State) : State :=
  let '(a, b, c, d, e) := s in
  let '(f, k) :=
    if (t <? 20)%nat then
      (Z.lor (Z.land b c) (Z.land (w32 (Z.lnot b)) d), 1518500249)
    else if (t <? 40)%nat then
      (Z.lxor (Z.lxor b c) d, 1859775393)
    else if (t <? 60)%nat then
      (Z.lor (Z.lor (Z.land b c) (Z.land b d)) (Z.land c d), 2400959708)
    else
      (Z.lxor (Z.lxor b c) d, 3395469782) in
  let temp := add32 (add32 (add32 (add32 (rotl 5 a) f) e) k) wt in
  (temp, a, rotl 30 b, c, d).

Fixpoint rounds (t : nat) (ws : list Z) (s : State) : State :=
  match ws with
  | [] => s
  | wt :: ws' => rounds (S t) ws' (round t wt s)
  end.

Definition compress (s : State) (block : list Z) : State :=
  let '(h0, h1, h2, h3, h4) := s in
  let '(a, b, c, d, e) := rounds 0 (schedule block 64) s in
  (add32 h0 a, add32 h1 b, add32 h2 c, add32 h3 d, add32 h4 e).

Fixpoint blocks (ws : list Z) (fuel : nat) (s : State) : State :=
  match fuel with
  | O => s
  | S f =>
      match ws with
      | [] => s
      | _ => blocks (skipn 16 ws) f (compress s (firstn 16 ws))
      end
  end.

Definition init : State :=
  (1732584193, 4023233417, 2562383102, 271733878, 3285377520).

Definition digest (msg : list Z) : list Z :=
  let p := pad msg in
  let ws := words p (length p) in
  let '(h0, h1, h2, h3, h4) := blocks ws (length ws) init in
  be_bytes 4 h0 ++ be_bytes 4 h1 ++ be_bytes 4 h2 ++ be_bytes 4 h3 ++ be_bytes 4 h4.

Definition hex_digit (n : Z) : ascii :=
  nth (Z.to_nat n) (list_ascii_of_string "0123456789abcdef") "0"%char.

Definition hex (bs : list Z) : string :=
  string_of_list_ascii
    (flat_map (fun b => [hex_digit (Z.shiftr b 4); hex_digit (Z.land b 15)]) bs).

(** [hashlib.sha1(msg).hexdigest()] *)
Definition hexdigest (msg : list Z) : string := hex (digest msg).

(** [s.encode("utf-8")] for a string held as its UTF-8 bytes. *)
Definition encode (s : string) : list Z :=
  map (fun c => Z.of_N (N_of_ascii c)) (list_ascii_of_string s).

End Sha1.

(** ** app.py: routing matrix, routed-file cache *)

Module Routing.

(** [len(ROUTING_CHANNEL_LABELS)] *)
Definition SIZE : nat := 12.

Definition ROUTING_TARGET_CHANNELS : list (string * Z) :=
  [("auto", 0); ("stereo", 2); ("surround_5_1", 6); ("surround_7_1", 8);
   ("immersive_7_1_4", 12)]%string.

(** A boolean routing grid, [list[list[int]]]. *)
Definition BoolMatrix := list (list Z).

Definition cell (m : BoolMatrix) (r c : nat) : Z := nth c (nth r m []) 0.

Definition grid (f : nat -> nat -> Z) : BoolMatrix :=
  map (fun r => map (f r) (seq 0 SIZE)) (seq 0 SIZE).

Definition _default_routing_matrix : BoolMatrix :=
  grid (fun r c => if (r =? c)%nat then 1 else 0).

Definition _clone_routing_matrix (matrix : BoolMatrix) : BoolMatrix :=
  grid (fun row_idx col_idx =>
          if (row_idx <? Nat.min SIZE (length matrix))%nat
             && (col_idx <? Nat.min SIZE (length (nth row_idx matrix [])))%nat
             && negb (cell matrix row_idx col_idx =? 0)
          then 1 else 0).

Definition row_text (row : list Z) : list ascii :=
  map (fun c => if c =? 0 then "0"%char else "1"%char) row.

(** ["|".join(rows)] *)
Fixpoint join_rows (rows : list (list ascii)) : list ascii :=
  match rows with
  | [] => []
  | [r] => r
  | r :: rest => r ++ "|"%char :: join_rows rest
  end.

Definition _serialize_routing_matrix (matrix : BoolMatrix) : string :=
  string_of_list_ascii (join_rows (map row_text (_clone_routing_matrix matrix))).

Definition _routing_matrix_target_channels (matrix : BoolMatrix) : Z :=
  let highest :=
    fold_left
      (fun hi row =>
         fold_left
           (fun hi col =>
              if (row <? Nat.min SIZE (length matrix))%nat
                 && (col <? Nat.min SIZE (length (nth row matrix [])))%nat
                 && negb (cell matrix row col =? 0)
              then Z.max hi (Z.of_nat col) else hi)
           (seq 0 SIZE) hi)
      (seq 0 SIZE) (-1) in
  highest + 1.

Definition mem_nat (n : nat) (l : list nat) : bool := existsb (Nat.eqb n) l.

Definition _routing_matrix_preset (target_channels : Z) : BoolMatrix :=
  if target_channels <=? 0 then _default_routing_matrix
  else
    let target := Z.max 1 (Z.min (Z.of_nat SIZE) target_channels) in
    if target =? 2 then
      let left_sources := [0; 2; 4; 6; 8; 10]%nat in
      let right_sources := [1; 2; 5; 7; 9; 11]%nat in
      grid (fun src out =>
              if ((out =? 0)%nat && (mem_nat src left_sources || (src =? 3)%nat))
                 || ((out =? 1)%nat && (mem_nat src right_sources || (src =? 3)%nat))
              then 1 else 0)
    else
      grid (fun idx out =>
              if (out =? Nat.min idx (Z.to_nat (target - 1)))%nat then 1 else 0).

(** The routing settings of the player. *)
Record Config := mk_config {
  _audio_matrix_enabled : bool;
  _audio_routing_mode : string;
  _audio_routing_matrix : BoolMatrix
}.

Definition _routing_target_channels (cfg : Config) (mode : string)
    (matrix_enabled : option bool) : Z :=
  let use_matrix :=
    match matrix_enabled with
    | None => _audio_matrix_enabled cfg
    | Some b => b
    end in
  if use_matrix then _routing_matrix_target_channels (_audio_routing_matrix cfg)
  else match Dict.get mode ROUTING_TARGET_CHANNELS with
       | Some n => n
       | None => 0
       end.

Definition _routing_requires_processing (cfg : Config) : bool :=
  _audio_matrix_enabled cfg || negb (String.eqb (_audio_routing_mode cfg) "auto").

(** The runtime gain matrix, [source_count] rows of [output_count] gains.
    Gains are held as rationals.  The normalisation below divides them
    exactly; [Float32], further down, rounds every sum and every division
    as numpy does. *)
Definition Matrix := list (list Q).

Definition qgt (a b : Q) : bool := negb (Qle_bool a b).

Definition qsum (l : list Q) : Q := fold_right Qplus 0%Q l.

(** [l[n] = v] *)
Fixpoint set_nth {A : Type} (n : nat) (v : A) (l : list A) : list A :=
  match l, n with
  | [], _ => []
  | _ :: t, O => v :: t
  | x :: t, S n' => x :: set_nth n' v t
  end.

(** [float(np.sum(np.abs(matrix[src_idx, :])))] *)
Definition row_sum (row : list Q) : Q := qsum (map Qabs row).

(** [float(np.sum(np.abs(matrix[:, out_idx])))] *)
Definition col_sum (out_idx : nat) (m : Matrix) : Q :=
  qsum (map (fun row => Qabs (nth out_idx row 0%Q)) m).

Definition normalize_row (row : list Q) : list Q :=
  let s := row_sum row in
  if qgt s 1 then map (fun x => (x / s)%Q) row else row.

(** [matrix[:, out_idx] /= col_sum], when the sum exceeds 1. *)
Definition normalize_col (out_idx : nat) (m : Matrix) : Matrix :=
  let s := col_sum out_idx m in
  if qgt s 1 then
    map (fun row =>
           if (out_idx <? length row)%nat
           then set_nth out_idx (nth out_idx row 0 / s)%Q row else row) m
  else m.

Definition normalize_cols (output_count : nat) (m : Matrix) : Matrix :=
  fold_left (fun m out_idx => normalize_col out_idx m) (seq 0 output_count) m.

Definition base_matrix (cfg : Config) : BoolMatrix :=
  if _audio_matrix_enabled cfg then _clone_routing_matrix (_audio_routing_matrix cfg)
  else if String.eqb (_audio_routing_mode cfg) "auto" then _default_routing_matrix
  else _routing_matrix_preset
         (_routing_target_channels cfg (_audio_routing_mode cfg) (Some false)).

(** One pass of the [for src_idx] loop that fills the matrix. *)
Definition build_row (cfg : Config) (base : BoolMatrix) (output_count src_idx : nat)
  : list Q :=
  let base_rows := length base in
  let base_cols := match base with [] => O | r :: _ => length r end in
  let src_base := Nat.min src_idx (Nat.max 0 (base_rows - 1)) in
  let hit (out_idx : nat) : bool :=
    (src_base <? base_rows)%nat && (out_idx <? base_cols)%nat
    && negb (cell base src_base out_idx =? 0) in
  let row := map (fun out_idx => if hit out_idx then 1%Q else 0%Q) (seq 0 output_count) in
  let mapped := existsb hit (seq 0 output_count) in
  if negb mapped && negb (_audio_matrix_enabled cfg)
  then set_nth (Nat.min src_idx (output_count - 1)) 1%Q row
  else row.

Definition _build_runtime_routing_matrix (cfg : Config)
    (source_channels output_channels : Z) : Matrix :=
  let source_count := Z.to_nat (Z.max 1 source_channels) in
  let output_count := Z.to_nat (Z.max 1 output_channels) in
  let base := base_matrix cfg in
  let matrix := map (build_row cfg base output_count) (seq 0 source_count) in
  if negb (_audio_matrix_enabled cfg) then
    normalize_cols output_count (map normalize_row matrix)
  else matrix.

Definition _is_identity_routing (m : Matrix) : bool :=
  let rows := length m in
  let cols := match m with [] => O | r :: _ => length r end in
  negb ((rows * cols =? 0)%nat) && (rows =? cols)%nat
  && forallb (fun i =>
                forallb (fun j =>
                           Qeq_bool (nth j (nth i m []) 0%Q)
                                    (if (i =? j)%nat then 1%Q else 0%Q))
                        (seq 0 cols))
             (seq 0 rows).

(** *** [runtime_matrix.tobytes()] *)

Definition round_half_even (p q : Z) : Z :=
  let f := p / q in
  match (2 * (p mod q) ?= q) with
  | Lt => f
  | Gt => f + 1
  | Eq => if Z.even f then f else f + 1
  end.

(** The binary32 bit pattern nearest to [x]. *)
Definition float32_bits (x : Q) : Z :=
  let n := Qnum x in
  let d := Zpos (Qden x) in
  if n =? 0 then 0
  else
    let s := if n <? 0 then 2147483648 else 0 in
    let a := Z.abs n in
    let scaled (k : Z) : Z * Z :=
      if 0 <=? k then (a * 2 ^ k, d) else (a, d * 2 ^ (- k)) in
    let e0 := Z.log2 a - Z.log2 d in
    let e := (let '(p, q) := scaled (- e0) in if p >=? q then e0 else e0 - 1) in
    let e := Z.max e (-126) in
    let m := (let '(p, q) := scaled (23 - e) in round_half_even p q) in
    let body := (e + 126) * 8388608 + m in
    s + Z.min body 2139095040.

Definition le_bytes4 (b : Z) : list Z :=
  [Z.land b 255; Z.land (Z.shiftr b 8) 255; Z.land (Z.shiftr b 16) 255;
   Z.land (Z.shiftr b 24) 255].

Definition tobytes (m : Matrix) : list Z :=
  flat_map (fun row => flat_map (fun x => le_bytes4 (float32_bits x)) row) m.

(** [s[:n]] *)
Definition prefix (n : nat) (s : string) : string := String.substring 0 n s.

(** *** The cache key *)

Definition route_token (cfg : Config) (source_channels output_channels : Z) : string :=
  ("v4|" ++ _audio_routing_mode cfg
   ++ "|m" ++ (if _audio_matrix_enabled cfg then "1" else "0")
   ++ "|" ++ _serialize_routing_matrix (_audio_routing_matrix cfg)
   ++ "|sc" ++ Controller.string_of_Z source_channels
   ++ "|oc" ++ Controller.string_of_Z output_channels)%string.

Definition matrix_digest (runtime_matrix : Matrix) : string :=
  prefix 12 (Sha1.hexdigest (tobytes runtime_matrix)).

(** The text [f"{file_signature}|{route_token}|{matrix_digest}"] that is
    hashed into the cache key. *)
Definition key_text_of (file_signature token digest : string) : string :=
  (file_signature ++ "|" ++ token ++ "|" ++ digest)%string.

Definition cache_key_of (file_signature token digest : string) : string :=
  Sha1.hexdigest (Sha1.encode (key_text_of file_signature token digest)).

Definition routed_path_of (dir cache_key : string) : string :=
  (dir ++ "/" ++ cache_key ++ ".wav")%string.

(** [routed_path.with_suffix(".tmp.wav")] *)
Definition tmp_path_of (dir cache_key : string) : string :=
  (dir ++ "/" ++ cache_key ++ ".tmp.wav")%string.

(** *** The player, its cache and the disk *)

(** [files] lists the regular files on disk by absolute path; what a file
    holds is not part of this model.  [player_source] is
    [self.player.source().toLocalFile()]. *)
Record Player := mk_player {
  config : Config;
  _routed_audio_cache : list (string * string);
  _session_routed_files : list string;
  _routed_audio_dir : string;
  player_source : string;
  files : list string
}.

Definition set_routed_audio_cache (v : list (string * string)) (pl : Player) : Player :=
  mk_player (config pl) v (_session_routed_files pl) (_routed_audio_dir pl)
    (player_source pl) (files pl).

Definition set_session_routed_files (v : list string) (pl : Player) : Player :=
  mk_player (config pl) (_routed_audio_cache pl) v (_routed_audio_dir pl)
    (player_source pl) (files pl).

Definition set_config (v : Config) (pl : Player) : Player :=
  mk_player v (_routed_audio_cache pl) (_session_routed_files pl)
    (_routed_audio_dir pl) (player_source pl) (files pl).

Definition set_files (v : list string) (pl : Player) : Player :=
  mk_player (config pl) (_routed_audio_cache pl) (_session_routed_files pl)
    (_routed_audio_dir pl) (player_source pl) v.

Definition is_empty (s : string) : bool := String.eqb s "".

(** What the decoding library and the disk answer during one call of
    [_resolve_playback_source]: the channel count of [sf.info] ([None] when it
    raises), whether the source and the temporary output open, whether a
    failed open of the output leaves a file behind, the successive reads of
    the source, which writes succeed, and whether [os.replace] succeeds. *)
Record Env := mk_env {
  info_channels : option Z;
  src_opens : bool;
  dst_opens : bool;
  dst_leftover : bool;
  reads : list Waveform.ReadResult;
  write_ok : nat -> bool;
  replace_ok : bool
}.

Section Cache.

(** [os.path.abspath]. *)
Variable abspath : string -> string.
(** [os.stat], as in [Controller._file_signature]. *)
Variable stat : string -> option (Z * Z).
(** [maximumChannelCount()] of the output device that
    [_resolve_audio_device] selects for a given target channel count. *)
Variable device_max_for : Z -> Z.

Definition isfile (p : string) (fs : list string) : bool :=
  Controller.in_list (abspath p) fs.

(** [os.remove(p)] / [Path.unlink()]; removing an existing file succeeds. *)
Definition fs_remove (p : string) (fs : list string) : list string :=
  filter (fun q => negb (String.eqb q (abspath p))) fs.

(** Creating (or truncating) the file [p]. *)
Definition fs_create (p : string) (fs : list string) : list string :=
  if isfile p fs then fs else abspath p :: fs.

Definition set_add (p : string) (l : list string) : list string :=
  if Controller.in_list p l then l else p :: l.

Definition set_discard (p : string) (l : list string) : list string :=
  filter (fun q => negb (String.eqb q p)) l.

Definition _effective_output_channels (cfg : Config) (source_channels : Z) : Z :=
  let source_count := Z.max 1 source_channels in
  let target_channels :=
    _routing_target_channels cfg (_audio_routing_mode cfg)
      (Some (_audio_matrix_enabled cfg)) in
  let device_max := Z.max 1 (device_max_for target_channels) in
  if _audio_matrix_enabled cfg then Z.max 2 (Z.min device_max (Z.of_nat SIZE))
  else
    let target_channels :=
      if target_channels <=? 0 then source_count else target_channels in
    let target_channels := Z.max 1 (Z.min target_channels (Z.of_nat SIZE)) in
    Z.max 1 (Z.min target_channels device_max).

(** Whether an entry is the one skipped by the eviction loop. *)
Definition is_current (current_source_abs path : string) : bool :=
  negb (is_empty current_source_abs) && String.eqb (abspath path) current_source_abs.

(** The [for key, path in self._routed_audio_cache.items()] search. *)
Fixpoint find_victim (current_source_abs : string) (cache : list (string * string))
  : option (string * string) :=
  match cache with
  | [] => None
  | (key, path) :: rest =>
      if is_current current_source_abs path then find_victim current_source_abs rest
      else Some (key, path)
  end.

(** The [while len(self._routed_audio_cache) > max_entries] loop; every
    pass removes an entry, so the length of the cache bounds the passes. *)
Fixpoint trim_loop (fuel : nat) (max_entries : Z) (current_source_abs : string)
    (pl : Player) : Player :=
  match fuel with
  | O => pl
  | S fuel' =>
      if Z.of_nat (length (_routed_audio_cache pl)) >? max_entries then
        match find_victim current_source_abs (_routed_audio_cache pl) with
        | None => pl
        | Some (delete_key, delete_path) =>
            let pl := set_routed_audio_cache
                        (Dict.pop delete_key (_routed_audio_cache pl)) pl in
            let pl :=
              if negb (is_empty delete_path) && isfile delete_path (files pl)
              then set_files (fs_remove delete_path (files pl)) pl else pl in
            let pl := set_session_routed_files
                        (set_discard delete_path (_session_routed_files pl)) pl in
            trim_loop fuel' max_entries current_source_abs pl
        end
      else pl
  end.

Definition current_source_abs_of (pl : Player) : string :=
  if is_empty (player_source pl) then ""%string else abspath (player_source pl).

Definition _trim_routed_audio_cache (max_entries : Z) (pl : Player) : Player :=
  let max_entries := if max_entries <? 1 then 1 else max_entries in
  trim_loop (length (_routed_audio_cache pl)) max_entries (current_source_abs_of pl) pl.

(** The [while True] loop that reads, mixes and writes; [true] when it ends
    at the end of the source, [false] when a read or a write raises. *)
Fixpoint route_loop (write_ok : nat -> bool) (reads : list Waveform.ReadResult)
    (i : nat) : bool :=
  match reads with
  | [] => true
  | Waveform.ReadError _ :: _ => false
  | Waveform.ReadChunk chunk :: rest =>
      if (Np.size chunk =? 0)%nat then true
      else if write_ok i then route_loop write_ok rest (S i) else false
  end.

(** The body of the [try]: [(true, disk)] when it reaches the end,
    [(false, disk)] when it raises. *)
Definition render (env : Env) (tmp_path routed_path : string) (fs : list string)
  : bool * list string :=
  if negb (src_opens env) then (false, fs)
  else if negb (dst_opens env) then
    (false, if dst_leftover env then fs_create tmp_path fs else fs)
  else
    let fs := fs_create tmp_path fs in
    if route_loop (write_ok env) (reads env) 0 then
      if replace_ok env then (true, fs_create routed_path (fs_remove tmp_path fs))
      else (false, fs)
    else (false, fs).

Definition source_signature (source_path : string) : string :=
  match Controller._file_signature stat source_path None with
  | Some s => s
  | None => source_path
  end.

(** The text that [_resolve_playback_source] hashes into the cache key. *)
Definition key_text (cfg : Config) (source_path : string)
    (source_channels output_channels : Z) : string :=
  key_text_of (source_signature source_path)
    (route_token cfg source_channels output_channels)
    (matrix_digest (_build_runtime_routing_matrix cfg source_channels output_channels)).

(** The cache key that [_resolve_playback_source] computes. *)
Definition cache_key (cfg : Config) (source_path : string)
    (source_channels output_channels : Z) : string :=
  cache_key_of (source_signature source_path)
    (route_token cfg source_channels output_channels)
    (matrix_digest (_build_runtime_routing_matrix cfg source_channels output_channels)).

Definition remember (cache_key routed_path_str : string) (pl : Player) : Player :=
  _trim_routed_audio_cache 16
    (set_session_routed_files (set_add routed_path_str (_session_routed_files pl))
       (set_routed_audio_cache
          (Dict.set cache_key routed_path_str (_routed_audio_cache pl)) pl)).

(** What [_resolve_playback_source] decides before it renders: hand back the
    source, reuse the cached path, adopt a render found on disk, or render. *)
Inductive Plan :=
| Passthrough
| Reuse (cached_path : string)
| Adopt (key routed_path_str : string)
| Render (key routed_path_str tmp_path : string).

(** The part of [_resolve_playback_source] that precedes the [try]. *)
Definition route_plan (env : Env) (source_path : string) (pl : Player) : Plan :=
  let cfg := config pl in
  if negb (_routing_requires_processing cfg) then Passthrough
  else
    match info_channels env with
    | None => Passthrough
    | Some ch =>
        let source_channels := Z.max 1 ch in
        let output_channels := _effective_output_channels cfg source_channels in
        let runtime_matrix :=
          _build_runtime_routing_matrix cfg source_channels output_channels in
        if negb (_audio_matrix_enabled cfg)
           && String.eqb (_audio_routing_mode cfg) "auto"
           && (output_channels =? source_channels)
           && _is_identity_routing runtime_matrix
        then Passthrough
        else
          let key := cache_key cfg source_path source_channels output_channels in
          let cached_path :=
            match Dict.get key (_routed_audio_cache pl) with
            | Some p => p
            | None => ""%string
            end in
          if negb (is_empty cached_path) && isfile cached_path (files pl)
          then Reuse cached_path
          else
            let routed_path_str := routed_path_of (_routed_audio_dir pl) key in
            if isfile routed_path_str (files pl) then Adopt key routed_path_str
            else Render key routed_path_str (tmp_path_of (_routed_audio_dir pl) key)
    end.

(** [_resolve_playback_source]: the path handed to the playback component
    and the player afterwards. *)
Definition _resolve_playback_source (env : Env) (source_path : string) (pl : Player)
  : string * Player :=
  match route_plan env source_path pl with
  | Passthrough => (source_path, pl)
  | Reuse cached_path => (cached_path, pl)
  | Adopt key routed_path_str => (routed_path_str, remember key routed_path_str pl)
  | Render key routed_path_str tmp_path =>
      let '(ok, fs) := render env tmp_path routed_path_str (files pl) in
      if ok then (routed_path_str, remember key routed_path_str (set_files fs pl))
      else
        let fs := if isfile tmp_path fs then fs_remove tmp_path fs else fs in
        (source_path, set_files fs pl)
  end.

End Cache.

End Routing.

(** ** The gain matrix in numpy's float32 arithmetic *)

Module Float32.

Import Routing.

(** The number that a finite binary32 bit pattern stands for. *)
Definition value (bits : Z) : Q :=
  let body := Z.land bits 2147483647 in
  let ex := Z.shiftr body 23 in
  let frac := Z.land body 8388607 in
  let m := if ex =? 0 then frac else 8388608 + frac in
  let e := Z.max ex 1 - 150 in
  let mag := if 0 <=? e then inject_Z (m * 2 ^ e)
             else Qred (m # Z.to_pos (2 ^ (- e))) in
  if Z.testbit bits 31 then Qopp mag else mag.

(** The binary32 number nearest to [x], ties to even.  A gain is at most
    1.0 in magnitude, far from overflow. *)
Definition round (x : Q) : Q := value (float32_bits x).

(** [a + b] and [a / b] on float32 operands: the exact result, rounded. *)
Definition add (a b : Q) : Q := round (a + b).

Definition div (a b : Q) : Q := round (a / b).

(** [for x in a: res += x] *)
Definition accumulate (res : Q) (a : list Q) : Q := fold_left add a res.

(** [r[j] += a[i + j]] for [j] in [0 .. 7], over the whole blocks of eight
    of [a]; what is left of [a] is returned with the eight accumulators. *)
Fixpoint add_blocks (fuel : nat) (r a : list Q) : list Q * list Q :=
  match fuel with
  | O => (r, a)
  | S fuel' =>
      if (8 <=? length a)%nat
      then add_blocks fuel'
             (map (fun p => add (fst p) (snd p)) (combine r (firstn 8 a)))
             (skipn 8 a)
      else (r, a)
  end.

(** [((r0 + r1) + (r2 + r3)) + ((r4 + r5) + (r6 + r7))] *)
Definition tree (r : list Q) : Q :=
  let x (i : nat) : Q := nth i r 0%Q in
  add (add (add (x 0%nat) (x 1%nat)) (add (x 2%nat) (x 3%nat)))
      (add (add (x 4%nat) (x 5%nat)) (add (x 6%nat) (x 7%nat))).

(** numpy's pairwise summation of a float32 array: fewer than 8 numbers are
    added in order; up to 128 go through eight running sums that are then
    added as a tree, the last [n mod 8] numbers being added in order; a
    longer array is cut in two at a multiple of 8. *)
Fixpoint pairwise_sum (fuel : nat) (a : list Q) {struct fuel} : Q :=
  let n := length a in
  if (n <? 8)%nat then accumulate 0%Q a
  else if (n <=? 128)%nat then
    let '(r, rest) := add_blocks n (firstn 8 a) (skipn 8 a) in
    accumulate (tree r) rest
  else
    match fuel with
    | O => 0%Q
    | S fuel' =>
        let n2 := (n / 2 - (n / 2) mod 8)%nat in
        add (pairwise_sum fuel' (firstn n2 a)) (pairwise_sum fuel' (skipn n2 a))
    end.

(** [np.sum(a)] for a float32 array [a] of one dimension. *)
Definition sum (a : list Q) : Q := pairwise_sum (length a) a.

(** [float(np.sum(np.abs(matrix[src_idx, :])))] *)
Definition row_sum (row : list Q) : Q := sum (map Qabs row).

(** [float(np.sum(np.abs(matrix[:, out_idx])))] *)
Definition col_sum (out_idx : nat) (m : Matrix) : Q :=
  sum (map (fun row => Qabs (nth out_idx row 0%Q)) m).

(** [matrix[src_idx, :] /= row_sum], when the sum exceeds 1. *)
Definition normalize_row (row : list Q) : list Q :=
  let s := row_sum row in
  if qgt s 1 then map (fun x => div x s) row else row.

(** [matrix[:, out_idx] /= col_sum], when the sum exceeds 1. *)
Definition normalize_col (out_idx : nat) (m : Matrix) : Matrix :=
  let s := col_sum out_idx m in
  if qgt s 1 then
    map (fun row =>
           if (out_idx <? length row)%nat
           then set_nth out_idx (div (nth out_idx row 0%Q) s) row else row) m
  else m.

Definition normalize_cols (output_count : nat) (m : Matrix) : Matrix :=
  fold_left (fun m out_idx => normalize_col out_idx m) (seq 0 output_count) m.

(** The matrix as numpy holds it: every sum and every division rounded to
    float32. *)
Definition _build_runtime_routing_matrix (cfg : Config)
    (source_channels output_channels : Z) : Matrix :=
  let source_count := Z.to_nat (Z.max 1 source_channels) in
  let output_count := Z.to_nat (Z.max 1 output_channels) in
  let base := base_matrix cfg in
  let matrix := map (build_row cfg base output_count) (seq 0 source_count) in
  if negb (_audio_matrix_enabled cfg) then
    normalize_cols output_count (map normalize_row matrix)
  else matrix.

End Float32.

(** ** Reference definitions, in the words of the specification *)

Module Reference.

Import Np.

(** Destination bin of the frame at absolute position [pos]:
    [floor(pos / bucket)], clamped to [bins - 1]. *)
Definition dest_bin (bucket bins pos : Z) : Z := Z.min (pos / bucket) (bins - 1).

(** Peak hold: the value of bin [b], channel [c], after the frames [frames]
    (the first at absolute position [pos]) have been seen, starting from
    [cur].  Only frames whose destination is [b] count, and a frame without a
    sample for channel [c] leaves the value alone. *)
Fixpoint peak_hold (bucket bins b : Z) (c : nat) (pos : Z)
    (frames : list (list float)) (cur : float) : float :=
  match frames with
  | [] => cur
  | fr :: rest =>
      let cur' :=
        if dest_bin bucket bins pos =? b then
          match nth_error fr c with
          | Some s => maximum cur (abs s)
          | None => cur
          end
        else cur in
      peak_hold bucket bins b c (pos + 1) rest cur'
  end.

(** The frames of the chunks of a stream, in order. *)
Fixpoint frames_of (reads : list Waveform.ReadResult) : list (list float) :=
  match reads with
  | Waveform.ReadChunk chunk :: rest => rows chunk ++ frames_of rest
  | _ => []
  end.

(** A read that returns a non-empty, rectangular chunk. *)
Definition readable (r : Waveform.ReadResult) : Prop :=
  match r with
  | Waveform.ReadChunk chunk => wf chunk /\ size chunk <> 0%nat
  | Waveform.ReadError _ => False
  end.

(** A value in [0, 1]. *)
Definition unit_interval (v : float) : Prop := le zero v = true /\ le v one = true.

(** A least-recently-used cache of capacity 40, in the words of the
    specification; entries are listed least recent first.  A hit makes the
    entry the most recent one. *)
Definition lru_touch {V : Type} (k : string) (d : list (string * V))
  : list (string * V) :=
  match Dict.get k d with
  | Some v => Dict.pop k d ++ [(k, v)]
  | None => d
  end.

(** A store makes the entry the most recent one and, above the capacity,
    drops the least recent one. *)
Definition lru_store {V : Type} (k : string) (v : V) (d : list (string * V))
  : list (string * V) :=
  let d := Dict.pop k d ++ [(k, v)] in
  if (40 <? length d)%nat then tl d else d.

(** The cache without its [n] oldest entries (in insertion order) among those
    that do not back the file [current_source_abs]. *)
Fixpoint evict_oldest (abspath : string -> string) (current_source_abs : string)
    (n : nat) (cache : list (string * string)) : list (string * string) :=
  match cache with
  | [] => []
  | (key, path) :: rest =>
      if Routing.is_current abspath current_source_abs path
      then (key, path) :: evict_oldest abspath current_source_abs n rest
      else match n with
           | O => (key, path) :: rest
           | S n' => evict_oldest abspath current_source_abs n' rest
           end
  end.

(** A cell of a cloned grid. *)
Definition bit (z : Z) : Prop := z = 0 \/ z = 1.

(** The chunk with every column from [k] on removed. *)
Definition keep_columns (k : nat) (chunk : ndarray2) : ndarray2 :=
  mk_ndarray2 (Nat.min k (ncols chunk)) (map (firstn k) (rows chunk)).

End Reference.

(** ** Concrete inputs used by the examples below *)

Module Examples.

Import Np Waveform.

Definition half : float := S754_finite false 8388608 (-24).
Definition minus_one : float := S754_finite true 8388608 (-23).

(** A mono file of four frames, read in one chunk. *)
Definition mono_chunk : ndarray2 :=
  mk_ndarray2 1 [[half]; [minus_one]; [zero]; [half]].

Definition mono_file : AudioFile :=
  mk_file (inl (mk_info 4 4 1)) None [ReadChunk mono_chunk].

Definition mono_job : WaveformJob := mk_job 1 "a.wav" 2 false (12 # 100).

(** A player with no track, no job and empty caches. *)
Definition empty_host : Controller.Host :=
  Controller.mk_host [] [] [] None 1200 0 "" "" false None 0 "" "" None [] []
    None (Controller.LabelText "") [].

Definition track_name (i : nat) : string :=
  ("t" ++ Controller.string_of_Z (Z.of_nat i))%string.

Definition silent_amp : ndarray2 := mk_ndarray2 1 [[zero]].

(** The waveform cache after forty tracks [t0 .. t39] have been stored. *)
Definition full_cache_host : Controller.Host :=
  fold_left (fun h i => Controller._cache_store (track_name i) "s" [0%Q] silent_amp h)
    (seq 0 40) empty_host.

(** [os.stat] of a disk on which every file has size 10 and time 20. *)
Definition uniform_stat (p : string) : option (Z * Z) := Some (10, 20).

(** Track [a.wav] is displayed and cached, track [b.wav] waits in the
    preload queue, and no job runs. *)
Definition hit_host : Controller.Host :=
  Controller.mk_host [("a.wav", ("10:20|p1200", [0%Q], silent_amp))]%string []
    ["a.wav"; "b.wav"]%string (Some 0) 1200 0 "" "" false None 0 "" "" None
    ["b.wav"]%string ["b.wav"]%string None (Controller.LabelText "") [].

(** The stereo fold-down preset, explicit matrix mode off. *)
Definition stereo_preset : Routing.Config :=
  Routing.mk_config false "stereo" Routing._default_routing_matrix.

(** The 5.1 preset, explicit matrix mode off. *)
Definition surround_preset : Routing.Config :=
  Routing.mk_config false "surround_5_1" Routing._default_routing_matrix.

(** A mono file of four frames whose second read raises. *)
Definition broken_file : AudioFile :=
  mk_file (inl (mk_info 4 4 1)) None
    [ReadChunk (mk_ndarray2 1 [[half]; [minus_one]]); ReadError "read failed"].

(** A disk on which every path is already absolute. *)
Definition plain_abspath (p : string) : string := p.

(** Three cached renders, the second of which is being played. *)
Definition playing_player : Routing.Player :=
  Routing.mk_player stereo_preset
    [("k1", "/r/k1.wav"); ("k2", "/r/k2.wav"); ("k3", "/r/k3.wav")]%string
    ["/r/k1.wav"; "/r/k2.wav"; "/r/k3.wav"]%string "/r"%string "/r/k2.wav"%string
    ["/r/k1.wav"; "/r/k2.wav"; "/r/k3.wav"; "/m/a.wav"]%string.

(** A machine whose only output device has two channels. *)
Definition stereo_device (target_channels : Z) : Z := 2.

(** A player that has routed nothing yet; [/m/a.wav] is on disk. *)
Definition idle_player (cfg : Routing.Config) : Routing.Player :=
  Routing.mk_player cfg [] [] "/r" "" ["/m/a.wav"%string].

(** A two-channel source that is read to its end. *)
Definition sound_env : Routing.Env :=
  Routing.mk_env (Some 2) true true false
    [ReadChunk (mk_ndarray2 2 [[half; minus_one]; [minus_one; half]])]
    (fun _ => true) true.

(** The same source, whose second read raises. *)
Definition failing_env : Routing.Env :=
  Routing.mk_env (Some 2) true true false
    [ReadChunk (mk_ndarray2 2 [[half; minus_one]; [minus_one; half]]);
     ReadError "read failed"]
    (fun _ => true) true.

(** Explicit matrix mode with the identity grid. *)
Definition patch_identity : Routing.Config :=
  Routing.mk_config true "auto" Routing._default_routing_matrix.

(** Explicit matrix mode with the identity grid and one more crosspoint,
    input 12 to output 1. *)
Definition patch_extra : Routing.Config :=
  Routing.mk_config true "auto"
    (Routing.grid (fun r c =>
                     if (r =? c)%nat || ((r =? 11)%nat && (c =? 0)%nat) then 1 else 0)).

(** An accumulator whose only cell is positive infinity. *)
Definition inf_amp : ndarray2 := mk_ndarray2 1 [[S754_infinity false]].

(** A chunk with two channels, for a file whose header announced one. *)
Definition stereo_chunk : ndarray2 :=
  mk_ndarray2 2 [[half; minus_one]; [minus_one; half]].

End Examples.

(** ** Vocabulary for the further properties *)

Module Signals.

Import Np Waveform.

Definition is_progress (e : Event) : bool :=
  match e with progressReady _ _ _ _ _ _ => true | _ => false end.

(** The request id and the path a signal carries. *)
Definition event_origin (e : Event) : Z * string :=
  match e with
  | progressReady rid p _ _ _ _ => (rid, p)
  | resultReady rid p _ _ => (rid, p)
  | errorRaised rid p _ => (rid, p)
  end.

(** The time axis and the amplitudes a signal carries, if any. *)
Definition event_arrays (e : Event) : option (list Q * ndarray2) :=
  match e with
  | progressReady _ _ x amp _ _ => Some (x, amp)
  | resultReady _ _ x amp => Some (x, amp)
  | errorRaised _ _ _ => None
  end.

(** A peak magnitude: not negative, or NaN. *)
Definition peak (v : float) : Prop := isnan v = true \/ le zero v = true.

Definition all_cells (P : float -> Prop) (a : ndarray2) : Prop :=
  Forall (Forall P) (rows a).

(** What a [progressReady] of [job] looks like when the job has the time
    axis [x], [bins] bins and [ch] channels. *)
Definition good_progress (job : WaveformJob) (x : list Q) (bins : Z) (ch : nat)
    (e : Event) : Prop :=
  exists amp filled,
    e = progressReady (request_id job) (path job) x amp filled bins /\
    shape0 amp = Z.to_nat bins /\ shape1 amp = ch /\ 0 <= filled <= bins /\
    all_cells peak amp.

(** The shape of the signals of one run: progress signals, then at most one
    closing signal, a result or an error. *)
Definition run_shape (job : WaveformJob) (x : list Q) (bins : Z) (ch : nat)
    (evs : list Event) : Prop :=
  exists ps final,
    evs = ps ++ final /\ Forall (good_progress job x bins ch) ps /\
    (final = [] \/
     (exists amp, final = [resultReady (request_id job) (path job) x amp] /\
                  shape0 amp = Z.to_nat bins /\ shape1 amp = ch /\ all_cells peak amp) \/
     (exists msg, final = [errorRaised (request_id job) (path job) msg])).

(** The arrays of a signal fit a waveform of [bins] bins and [ch] channels. *)
Definition aligned_signal (x : list Q) (bins : Z) (ch : nat) (e : Event) : Prop :=
  match e with
  | progressReady _ _ x' amp filled total =>
      x' = x /\ shape0 amp = Z.to_nat bins /\ shape1 amp = ch /\
      total = bins /\ 0 <= filled <= bins
  | resultReady _ _ x' amp =>
      x' = x /\ shape0 amp = Z.to_nat bins /\ shape1 amp = ch
  | errorRaised _ _ _ => True
  end.

(** The amplitudes of a signal, if it has any, are peak magnitudes. *)
Definition peaks_signal (e : Event) : Prop :=
  match event_arrays e with
  | Some (_, amp) => all_cells peak amp
  | None => True
  end.

End Signals.

(** ** waveform_controller.py: the remaining scheduling slots *)

Module Scheduler.

Import Np Waveform Controller.

Section Scheduler.

Variable stat : string -> option (Z * Z).

(** One pass of the [for path in paths] loop of [_enqueue_preload]. *)
Definition enqueue_one (h : Host) (p : string) : Host :=
  if String.eqb p (_active_wave_path h) || String.eqb p (_preload_path h) then h
  else if in_list p (_preload_set h) then h
  else
    match _file_signature stat p (Some (_waveform_points h)) with
    | None => h
    | Some signature =>
        match _cache_get h p signature with
        | Some _ => h
        | None =>
            set_preload_set (p :: _preload_set h)
              (set_preload_queue (_preload_queue h ++ [p]) h)
        end
    end.

Definition _enqueue_preload (paths : list string) (h : Host) : Host :=
  _start_next_preload stat (fold_left enqueue_one paths h).

(** The slot connected to [finished] of the active thread. *)
Definition _on_active_wave_thread_finished (rid : Z) (h : Host) : Host :=
  if negb (rid =? _active_wave_request_id h) then h
  else
    let finished_path := _active_wave_path h in
    let finished_signature := _active_wave_signature h in
    let ended_with_error := _active_wave_failed h in
    let has_final :=
      negb (String.eqb finished_path "")
      && match _cache_get h finished_path finished_signature with
         | Some _ => true
         | None => false
         end in
    let h := set_active_wave_failed false
               (set_active_wave_signature ""
                  (set_active_wave_path ""
                     (set_active_wave_thread None h))) in
    if negb (String.eqb finished_path "") && negb ended_with_error && negb has_final
       && String.eqb (_current_track_path h) finished_path
    then
      _start_active_wave_worker finished_path finished_signature true
        (_waveform_points h)
        (set_wave_load_label (LabelText "Waveform laden: 0%") h)
    else _start_next_preload stat h.

(** The slot connected to [errorRaised] of the active job; the second
    component is the text of the warning box it opens, if it opens one. *)
Definition _on_active_wave_failed (rid : Z) (p error_message : string) (h : Host)
  : Host * option string :=
  if negb (rid =? _active_wave_request_id h)
     || negb (String.eqb p (_active_wave_path h)) then (h, None)
  else
    let h := set_active_wave_failed true h in
    let h := set_wave_partial (Dict.pop p (wave_partial h)) h in
    if String.eqb (_current_track_path h) p then
      (set_wave_load_label (LabelText "") (_clear_waveform_plot h), Some error_message)
    else (h, None).

(** [_stop_active_wave_worker]; the second component is the job on which
    [cancel()] is called.  How long the wait for the thread takes does not
    change the fields. *)
Definition _stop_active_wave_worker (h : Host) : Host * option WaveformJob :=
  (set_active_wave_failed false
     (set_active_wave_signature ""
        (set_active_wave_path ""
           (set_active_wave_thread None h))),
   _active_wave_thread h).

Definition _stop_preload_worker (requeue : bool) (h : Host)
  : Host * option WaveformJob :=
  let path_to_requeue := if requeue then _preload_path h else ""%string in
  let cancelled := _preload_thread h in
  let h := set_preload_thread None h in
  let h :=
    if requeue && negb (String.eqb path_to_requeue "")
       && negb (in_list path_to_requeue (_preload_set h))
    then set_preload_set (path_to_requeue :: _preload_set h)
           (set_preload_queue (path_to_requeue :: _preload_queue h) h)
    else h in
  (set_preload_signature "" (set_preload_path "" h), cancelled).

(** The slot connected to [progressReady] of the preload job. *)
Definition _on_preload_progress (suppressed : bool) (rid : Z) (p : string)
    (x_obj : list Q) (amp_obj : ndarray2) (filled_bins total_bins : Z) (h : Host)
  : Host :=
  if negb (rid =? _preload_request_id h)
     || negb (String.eqb p (_preload_path h)) then h
  else
    let '(x, amp) := _align_wave_channels x_obj amp_obj in
    let total_bins :=
      if total_bins <=? 0 then Z.max 1 (Z.of_nat (shape0 amp)) else total_bins in
    let filled_bins := Z.max 0 (Z.min filled_bins total_bins) in
    let h := set_wave_partial
               (Dict.set p (_preload_signature h, x, amp, filled_bins, total_bins)
                  (wave_partial h)) h in
    if String.eqb (_current_track_path h) p then
      if suppressed then h
      else snd (_render_partial_for_path p (_preload_signature h) h)
    else h.

(** The slot connected to [resultReady] of the preload job. *)
Definition _on_preload_finished (rid : Z) (p : string) (x_obj : list Q)
    (amp_obj : ndarray2) (h : Host) : Host :=
  if negb (rid =? _preload_request_id h)
     || negb (String.eqb p (_preload_path h)) then h
  else
    let '(x, amplitudes) := _align_wave_channels x_obj amp_obj in
    let h := set_wave_partial (Dict.pop p (wave_partial h)) h in
    let h := _cache_store p (_preload_signature h) x amplitudes h in
    if String.eqb (_current_track_path h) p then
      set_wave_load_label (LabelText "") (_set_waveform_from_channels x amplitudes h)
    else h.

(** The slot connected to [errorRaised] of the preload job. *)
Definition _on_preload_failed (rid : Z) (p : string) (h : Host) : Host :=
  if negb (rid =? _preload_request_id h)
     || negb (String.eqb p (_preload_path h)) then h
  else
    let h := set_wave_partial (Dict.pop p (wave_partial h)) h in
    if String.eqb (_current_track_path h) p then
      set_wave_load_label (LabelText "") (_clear_waveform_plot h)
    else h.

(** The slot connected to [finished] of the preload thread. *)
Definition _on_preload_wave_thread_finished (rid : Z) (h : Host) : Host :=
  if negb (rid =? _preload_request_id h) then h
  else
    _start_next_preload stat
      (set_preload_signature "" (set_preload_path "" (set_preload_thread None h))).

Definition set_waveform_points (v : Z) (h : Host) : Host :=
  mk_host (wave_cache h) (wave_partial h) (tracks h) (current_index h) v
    (_active_wave_request_id h) (_active_wave_path h) (_active_wave_signature h)
    (_active_wave_failed h) (_active_wave_thread h) (_preload_request_id h)
    (_preload_path h) (_preload_signature h) (_preload_thread h) (_preload_queue h)
    (_preload_set h) (plot h) (wave_load_label h) (started h).

Fixpoint enumerate (i : Z) (l : list string) : list (Z * string) :=
  match l with
  | [] => []
  | t :: rest => (i, t) :: enumerate (i + 1) rest
  end.

(** [[t.path for i, t in enumerate(self.tracks) if i != (self.current_index or 0)]] *)
Definition other_tracks (h : Host) : list string :=
  let current := match current_index h with Some i => i | None => 0 end in
  map snd (filter (fun it => negb (fst it =? current)) (enumerate 0 (tracks h))).

Definition job_list (j : option WaveformJob) : list WaveformJob :=
  match j with Some job => [job] | None => [] end.

(** [_set_waveform_resolution]: the new fields, whether the preferences are
    saved, and the jobs on which [cancel()] is called. *)
Definition _set_waveform_resolution (points : Z) (save : bool) (h : Host)
  : Host * bool * list WaveformJob :=
  let points := Z.max 1200 (Z.min points 24000) in
  if points =? _waveform_points h then (h, save, [])
  else
    let h := set_wave_partial [] (set_wave_cache [] (set_waveform_points points h)) in
    let current_path := _current_track_path h in
    let '(h, stopped_active) := _stop_active_wave_worker h in
    let '(h, stopped_preload) := _stop_preload_worker false h in
    let h :=
      if negb (String.eqb current_path "") then
        _enqueue_preload (other_tracks h) (_load_waveform_for_track stat current_path h)
      else h in
    (h, save, job_list stopped_active ++ job_list stopped_preload).

(** The entry points through which the rest of the player and the signals of
    the jobs reach the fields above. *)
Inductive Call :=
| LoadTrack (p : string)
| EnqueuePreload (paths : list string)
| RemoveFromQueue (p : string)
| SetResolution (points : Z) (save : bool)
| StopActive
| StopPreload (requeue : bool)
| ActiveProgress (suppressed : bool) (rid : Z) (p : string) (x : list Q)
    (amp : ndarray2) (filled_bins total_bins : Z)
| ActiveFinished (rid : Z) (p : string) (x : list Q) (amp : ndarray2)
| ActiveFailed (rid : Z) (p error_message : string)
| ActiveThreadFinished (rid : Z)
| PreloadProgress (suppressed : bool) (rid : Z) (p : string) (x : list Q)
    (amp : ndarray2) (filled_bins total_bins : Z)
| PreloadFinished (rid : Z) (p : string) (x : list Q) (amp : ndarray2)
| PreloadFailed (rid : Z) (p : string)
| PreloadThreadFinished (rid : Z).

Definition call (c : Call) (h : Host) : Host :=
  match c with
  | LoadTrack p => _load_waveform_for_track stat p h
  | EnqueuePreload paths => _enqueue_preload paths h
  | RemoveFromQueue p => _remove_from_preload_queue p h
  | SetResolution points save => fst (fst (_set_waveform_resolution points save h))
  | StopActive => fst (_stop_active_wave_worker h)
  | StopPreload requeue => fst (_stop_preload_worker requeue h)
  | ActiveProgress suppressed rid p x amp filled_bins total_bins =>
      _on_active_wave_progress suppressed rid p x amp filled_bins total_bins h
  | ActiveFinished rid p x amp => _on_active_wave_finished rid p x amp h
  | ActiveFailed rid p error_message => fst (_on_active_wave_failed rid p error_message h)
  | ActiveThreadFinished rid => _on_active_wave_thread_finished rid h
  | PreloadProgress suppressed rid p x amp filled_bins total_bins =>
      _on_preload_progress suppressed rid p x amp filled_bins total_bins h
  | PreloadFinished rid p x amp => _on_preload_finished rid p x amp h
  | PreloadFailed rid p => _on_preload_failed rid p h
  | PreloadThreadFinished rid => _on_preload_wave_thread_finished rid h
  end.

End Scheduler.

(** The preload queue and the preload set hold the same paths, once each. *)
Definition queue_in_step (h : Host) : Prop :=
  NoDup (_preload_queue h) /\ NoDup (_preload_set h) /\
  forall p, In p (_preload_queue h) <-> In p (_preload_set h).

(** A slot of the player holds a job exactly when its path is recorded, and
    the job then carries the recorded path and request id. *)
Definition slot_in_step (thread : option WaveformJob) (recorded_path : string)
    (recorded_id : Z) : Prop :=
  match thread with
  | Some job => path job = recorded_path /\ request_id job = recorded_id
  | None => recorded_path = ""%string
  end.

Definition slots_in_step (h : Host) : Prop :=
  slot_in_step (_active_wave_thread h) (_active_wave_path h) (_active_wave_request_id h)
  /\ slot_in_step (_preload_thread h) (_preload_path h) (_preload_request_id h).

(** The fields that say which jobs exist, where the queue stands, and what
    the two slots record. *)
Definition jobs_of (h : Host) :=
  (wave_cache h, _active_wave_thread h, _active_wave_request_id h,
   _preload_thread h, _preload_request_id h, started h).

Definition queue_of (h : Host) := (_preload_queue h, _preload_set h).

Definition slots_of (h : Host) :=
  (_active_wave_thread h, _active_wave_path h, _active_wave_request_id h,
   _preload_thread h, _preload_path h, _preload_request_id h).

(** Every job held by a slot was started with the resolution now in use. *)
Definition jobs_at_resolution (h : Host) : Prop :=
  forall job, _active_wave_thread h = Some job \/ _preload_thread h = Some job ->
              points job = _waveform_points h.

(** What a change of resolution has to reset. *)
Definition view_of (h : Host) := (wave_cache h, wave_partial h, _waveform_points h).

(** The entry points that may write the waveform cache. *)
Definition writes_cache (c : Call) : bool :=
  match c with
  | ActiveFinished _ _ _ _ | PreloadFinished _ _ _ _ | SetResolution _ _ => true
  | _ => false
  end.

End Scheduler.

(** ** Reading the routing matrix back, and the end-of-session cleanup *)

Module Settings.

Import Routing.

(** [raw.split("|")], on the characters of [raw]. *)
Fixpoint split_bar (s : list ascii) : list (list ascii) :=
  match s with
  | [] => [[]]
  | c :: rest =>
      if Ascii.eqb c "|" then [] :: split_bar rest
      else
        match split_bar rest with
        | [] => [[c]]
        | segment :: segments => (c :: segment) :: segments
        end
  end.

(** [_parse_routing_matrix]; every character of [raw] is one [ascii], as in
    the strings that [_serialize_routing_matrix] writes. *)
Definition _parse_routing_matrix (raw : string) : BoolMatrix :=
  if is_empty raw then _default_routing_matrix
  else
    let rows :=
      filter (fun segment => negb (length segment =? 0)%nat)
        (split_bar (list_ascii_of_string raw)) in
    grid (fun row_idx col_idx =>
            if (row_idx <? Nat.min SIZE (length rows))%nat
               && (col_idx <? Nat.min SIZE (length (nth row_idx rows [])))%nat
               && Ascii.eqb (nth col_idx (nth row_idx rows []) "0"%char) "1"
            then 1 else 0).

Section Cleanup.

Variable abspath : string -> string.

(** One pass of the loop of [_cleanup_session_routed_files]. *)
Definition cleanup_one (current_source_abs : string) (pl : Player) (p : string)
  : Player :=
  if is_current abspath current_source_abs p then pl
  else
    let pl :=
      if negb (is_empty p) && isfile abspath p (files pl)
      then set_files (fs_remove abspath p (files pl)) pl else pl in
    set_session_routed_files (set_discard p (_session_routed_files pl)) pl.

(** [_cleanup_session_routed_files]; the loop runs over a copy of the set,
    here in the order of the list that holds it. *)
Definition _cleanup_session_routed_files (pl : Player) : Player :=
  fold_left (cleanup_one (current_source_abs_of abspath pl))
    (_session_routed_files pl) pl.

End Cleanup.

(** A gain between silence and unity. *)
Definition unit_gain (g : Q) : Prop := (0 <= g)%Q /\ (g <= 1)%Q.

End Settings.

(** * Properties *)

Module ArrayFacts.

Import Np.

Lemma upd_nth_spec {A : Type} (f : A -> option A) (l : list A) (n : nat) (x y : A) :
  nth_error l n = Some x -> f x = Some y ->
  exists l', upd_nth n f l = Some l' /\ length l' = length l /\
             nth_error l' n = Some y /\
             forall m, m <> n -> nth_error l' m = nth_error l m.
Proof.
  revert n. induction l as [|a l IH]; intros [|n] Hn Hf; simpl in *; try discriminate.
  - injection Hn as ->. rewrite Hf. simpl. eexists; repeat split.
    intros [|m] Hm; [congruence | reflexivity].
  - destruct (IH n Hn Hf) as (l' & -> & Hlen & Hy & Hoth). simpl.
    eexists; repeat split; simpl; [lia | exact Hy |].
    intros [|m] Hm; simpl; [reflexivity | apply Hoth; lia].
Qed.

Lemma wf_get_lt (a : ndarray2) (r c : nat) (v : float) :
  wf a -> get a r c = Some v -> (r < shape0 a)%nat /\ (c < ncols a)%nat.
Proof.
  unfold wf, get, shape0. intros Hwf Hg.
  destruct (nth_error (rows a) r) as [row|] eqn:Er; [|discriminate].
  split.
  - apply nth_error_Some. congruence.
  - rewrite Forall_forall in Hwf. rewrite <- (Hwf row).
    + apply nth_error_Some. congruence.
    + eapply nth_error_In; eauto.
Qed.

Lemma wf_get_some (a : ndarray2) (r c : nat) :
  wf a -> (r < shape0 a)%nat -> (c < ncols a)%nat -> exists v, get a r c = Some v.
Proof.
  unfold wf, get, shape0. intros Hwf Hr Hc.
  destruct (nth_error (rows a) r) as [row|] eqn:Er.
  - rewrite Forall_forall in Hwf.
    assert (Hlen : length row = ncols a) by (apply Hwf; eapply nth_error_In; eauto).
    destruct (nth_error row c) eqn:Ec; [eauto|].
    apply nth_error_None in Ec. lia.
  - apply nth_error_None in Er. lia.
Qed.

Lemma cell_update_spec (a : ndarray2) (r c : nat) (g : float -> float) (old : float) :
  wf a -> get a r c = Some old ->
  exists a', cell_update a r c g = Some a' /\ wf a' /\ ncols a' = ncols a /\
             shape0 a' = shape0 a /\
             forall r' c' v, get a r' c' = Some v ->
               get a' r' c' = Some (if (r' =? r)%nat && (c' =? c)%nat then g old else v).
Proof.
  intros Hwf Hg.
  destruct (wf_get_lt _ _ _ _ Hwf Hg) as [Hr Hc].
  unfold cell_update. apply Nat.ltb_lt in Hc. rewrite Hc.
  unfold get in Hg.
  destruct (nth_error (rows a) r) as [row|] eqn:Er; [|discriminate].
  destruct (upd_nth_spec (fun old => Some (g old)) row c old (g old) Hg eq_refl)
    as (row' & Hrow' & Hlen' & Hc' & Hoth').
  destruct (upd_nth_spec (upd_nth c (fun old => Some (g old))) (rows a) r row row' Er Hrow')
    as (rs' & -> & Hlen & Hr' & Hoth).
  simpl. eexists; split; [reflexivity|].
  repeat split; simpl.
  - unfold wf in *; simpl. rewrite Forall_forall in *. intros x Hx.
    apply In_nth_error in Hx. destruct Hx as [k Hk].
    destruct (Nat.eq_dec k r) as [->|Hne].
    + rewrite Hr' in Hk. injection Hk as <-. rewrite Hlen'.
      apply Hwf. eapply nth_error_In; eauto.
    + rewrite (Hoth k Hne) in Hk. apply Hwf. eapply nth_error_In; eauto.
  - unfold shape0; simpl. exact Hlen.
  - intros r' c' v Hv. unfold get in *; simpl.
    destruct (Nat.eq_dec r' r) as [->|Hne].
    + rewrite Hr'. rewrite Er in Hv. rewrite Nat.eqb_refl. simpl.
      destruct (Nat.eq_dec c' c) as [->|Hnc].
      * rewrite Nat.eqb_refl. exact Hc'.
      * rewrite (Hoth' c' Hnc), Hv.
        apply Nat.eqb_neq in Hnc. rewrite Hnc. reflexivity.
    + rewrite (Hoth r' Hne). apply Nat.eqb_neq in Hne. rewrite Hne. simpl. exact Hv.
Qed.

Lemma norm_index_in_range (len : nat) (i : Z) :
  0 <= i < Z.of_nat len -> norm_index len i = Some (Z.to_nat i).
Proof.
  intros H. unfold norm_index.
  destruct (0 <=? i) eqn:E1; [|lia].
  destruct (i <? Z.of_nat len) eqn:E2; [reflexivity|lia].
Qed.

Lemma column_of_wf (rs : list (list float)) (k c : nat) :
  Forall (fun r => length r = k) rs -> (c < k)%nat ->
  exists vals, column_of rs c = Some vals.
Proof.
  intros Hwf Hc. induction Hwf as [|r rs Hr _ IH]; simpl; [eauto|].
  destruct IH as [vs ->].
  destruct (nth_error r c) eqn:E; [eauto|].
  apply nth_error_None in E. lia.
Qed.

End ArrayFacts.

Module Float64Facts.

Import Float64 Waveform.

Lemma ceil_div_bounds (a b : Z) :
  0 < b -> (ceil_div a b - 1) * b < a <= ceil_div a b * b.
Proof.
  intros Hb. unfold ceil_div.
  pose proof (Z.div_mod (- a) b ltac:(lia)) as H.
  pose proof (Z.mod_pos_bound (- a) b Hb) as Hm. nia.
Qed.

Lemma ceil_div_unique (a b c : Z) :
  0 < b -> (c - 1) * b < a <= c * b -> ceil_div a b = c.
Proof.
  intros Hb Hc. pose proof (ceil_div_bounds a b Hb) as H. nia.
Qed.

Lemma round_half_even_cases (p q : Z) :
  round_half_even p q = p / q \/
  (round_half_even p q = p / q + 1 /\ q <= 2 * (p mod q)).
Proof.
  unfold round_half_even. cbv zeta.
  destruct (2 * (p mod q) ?= q) eqn:E.
  - apply Z.compare_eq in E. destruct (Z.even (p / q)); [left; reflexivity | right; lia].
  - left. reflexivity.
  - apply Z.compare_gt_iff in E. right. lia.
Qed.

Lemma round_below (p q n : Z) : 0 < q -> p <= n * q -> round_half_even p q <= n.
Proof.
  intros Hq Hp.
  pose proof (Z.div_mod p q ltac:(lia)) as D.
  pose proof (Z.mod_pos_bound p q Hq) as M.
  destruct (round_half_even_cases p q) as [-> | [-> H]]; nia.
Qed.

Lemma round_above (p q n : Z) :
  0 < q -> q < 2 * (p - n * q) -> n + 1 <= round_half_even p q.
Proof.
  intros Hq Hp.
  pose proof (Z.div_mod p q ltac:(lia)) as D.
  pose proof (Z.mod_pos_bound p q Hq) as M.
  assert (Hn : n <= p / q) by nia.
  unfold round_half_even. cbv zeta.
  destruct (2 * (p mod q) ?= q) eqn:E.
  - apply Z.compare_eq in E.
    assert (H : n * q < q * (p / q)) by lia.
    assert (n < p / q) by nia.
    destruct (Z.even (p / q)); lia.
  - change (2 * (p mod q) < q) in E.
    assert (H : n * q < q * (p / q)) by lia.
    assert (n < p / q) by nia. lia.
  - lia.
Qed.

Lemma round_nonneg (p q : Z) : 0 <= p -> 0 < q -> 0 <= round_half_even p q.
Proof.
  intros Hp Hq. pose proof (Z.div_pos p q Hp Hq).
  destruct (round_half_even_cases p q) as [-> | [-> _]]; lia.
Qed.

(** What the exponent says of the quotient. *)
Lemma exponent_below (p q : Z) :
  0 < p -> 0 < q -> 0 <= quotient_exponent p q ->
  q * 2 ^ quotient_exponent p q <= p.
Proof.
  intros Hp Hq. unfold quotient_exponent. cbv zeta.
  destruct (Z.log2_spec p Hp) as [Lp Up]. destruct (Z.log2_spec q Hq) as [Lq Uq].
  pose proof (Z.log2_nonneg p) as Np. pose proof (Z.log2_nonneg q) as Nq.
  set (lp := Z.log2 p) in *. set (lq := Z.log2 q) in *.
  destruct (0 <=? lp - lq) eqn:E0.
  - destruct (q * 2 ^ (lp - lq) <=? p) eqn:Ec; intros Hk.
    + apply Z.leb_le in Ec. exact Ec.
    + (* q < 2^(lq+1), so q * 2^(lp-lq-1) < 2^lp <= p *)
      assert (H2 : 2 ^ Z.succ lq * 2 ^ (lp - lq - 1) = 2 ^ lp).
      { rewrite <- Z.pow_add_r by lia. f_equal. lia. }
      assert (Hpos : 0 < 2 ^ (lp - lq - 1)) by (apply Z.pow_pos_nonneg; lia).
      nia.
  - apply Z.leb_gt in E0. destruct (q <=? p * 2 ^ (- (lp - lq))); intros Hk; lia.
Qed.

Lemma exponent_above (p q : Z) :
  0 < p -> 0 < q -> quotient_exponent p q < 0 ->
  p * 2 ^ (- quotient_exponent p q - 1) < q.
Proof.
  intros Hp Hq. unfold quotient_exponent. cbv zeta.
  destruct (Z.log2_spec p Hp) as [Lp Up]. destruct (Z.log2_spec q Hq) as [Lq Uq].
  pose proof (Z.log2_nonneg p) as Np. pose proof (Z.log2_nonneg q) as Nq.
  set (lp := Z.log2 p) in *. set (lq := Z.log2 q) in *.
  destruct (0 <=? lp - lq) eqn:E0.
  - apply Z.leb_le in E0.
    destruct (q * 2 ^ (lp - lq) <=? p) eqn:Ec; intros Hk; [lia|].
    apply Z.leb_gt in Ec.
    assert (lp - lq = 0) by lia.
    replace (- (lp - lq - 1) - 1) with 0 by lia.
    replace (lp - lq) with 0 in Ec by lia. simpl in *. lia.
  - apply Z.leb_gt in E0.
    destruct (q <=? p * 2 ^ (- (lp - lq))) eqn:Ec; intros Hk.
    + (* p < 2^(lp+1), 2^lq <= q *)
      assert (H2 : 2 ^ Z.succ lp * 2 ^ (- (lp - lq) - 1) = 2 ^ lq).
      { rewrite <- Z.pow_add_r by lia. f_equal. lia. }
      assert (Hpos : 0 < 2 ^ (- (lp - lq) - 1)) by (apply Z.pow_pos_nonneg; lia).
      nia.
    + apply Z.leb_gt in Ec.
      replace (- (lp - lq - 1) - 1) with (- (lp - lq)) by lia. exact Ec.
Qed.

Lemma exponent_at_most (p q : Z) :
  0 < p -> 0 < q -> quotient_exponent p q <= Z.log2 p.
Proof.
  intros Hp Hq. unfold quotient_exponent. cbv zeta.
  pose proof (Z.log2_nonneg q).
  destruct (if 0 <=? _ then _ else _); lia.
Qed.

(** The value that [quotient] hands to the ceiling, in every case. *)
Lemma ceil_quotient_positive (a b : Z) :
  0 < a -> 0 < b ->
  let e := Z.max (quotient_exponent a b - 52) (-1074) in
  e <= 0 ->
  ceil_quotient a b = ceil_div (round_half_even (a * 2 ^ (- e)) b) (2 ^ (- e)).
Proof.
  intros Ha Hb e He. unfold ceil_quotient, quotient.
  rewrite (Z.abs_eq a), (Z.abs_eq b) by lia.
  replace (a =? 0) with false by (symmetry; apply Z.eqb_neq; lia).
  fold e.
  replace (a <? 0) with false by (symmetry; apply Z.ltb_ge; lia).
  replace (b <? 0) with false by (symmetry; apply Z.ltb_ge; lia).
  simpl xorb. cbv iota.
  destruct (0 <=? e) eqn:E.
  - apply Z.leb_le in E. assert (e = 0) by lia.
    replace e with 0 by lia. simpl Z.opp. rewrite !Z.pow_0_r, !Z.mul_1_r.
    unfold ceil_div. rewrite Z.div_1_r. lia.
  - reflexivity.
Qed.

Lemma ceil_quotient_nonneg (a b : Z) : 0 <= a -> 1 <= b -> 0 <= ceil_quotient a b.
Proof.
  intros Ha Hb. unfold ceil_quotient, quotient.
  rewrite (Z.abs_eq a), (Z.abs_eq b) by lia.
  replace (a <? 0) with false by (symmetry; apply Z.ltb_ge; lia).
  replace (b <? 0) with false by (symmetry; apply Z.ltb_ge; lia).
  simpl xorb. cbv iota.
  destruct (a =? 0) eqn:E0; [simpl; lia|].
  cbv zeta. set (e := Z.max _ _).
  destruct (0 <=? e) eqn:E.
  - apply Z.leb_le in E.
    assert (0 < 2 ^ e) by (apply Z.pow_pos_nonneg; lia).
    pose proof (round_nonneg a (b * 2 ^ e) Ha ltac:(nia)). nia.
  - apply Z.leb_gt in E.
    assert (Hp : 0 < 2 ^ (- e)) by (apply Z.pow_pos_nonneg; lia).
    pose proof (round_nonneg (a * 2 ^ (- e)) b ltac:(nia) ltac:(lia)) as Hm.
    pose proof (Z.div_mod (- round_half_even (a * 2 ^ (- e)) b) (2 ^ (- e)) ltac:(lia)).
    pose proof (Z.mod_pos_bound (- round_half_even (a * 2 ^ (- e)) b) (2 ^ (- e)) Hp).
    nia.
Qed.

(** Below 2^53 the rounding of the quotient does not move its ceiling. *)
Lemma ceil_quotient_exact (a b : Z) :
  0 <= a < 2 ^ 53 -> 1 <= b ->
  Z.max 1 (ceil_quotient a b) = Z.max 1 (ceil_div a b).
Proof.
  intros [Ha0 Ha] Hb.
  destruct (Z.eq_dec a 0) as [-> | Hne].
  { unfold ceil_div, ceil_quotient, quotient. simpl.
    destruct (b <? 0); reflexivity. }
  assert (Hap : 0 < a) by lia.
  pose proof (exponent_at_most a b Hap ltac:(lia)) as Hk.
  assert (Hl : Z.log2 a < 53) by (apply Z.log2_lt_pow2; lia).
  set (k := quotient_exponent a b) in *.
  set (e := Z.max (k - 52) (-1074)).
  assert (He : e <= 0) by (unfold e; lia).
  rewrite (ceil_quotient_positive a b Hap ltac:(lia) He). fold k e.
  set (s := - e). assert (Hs : 0 <= s) by (unfold s; lia).
  assert (Hps : 0 < 2 ^ s) by (apply Z.pow_pos_nonneg; lia).
  set (m := round_half_even (a * 2 ^ s) b).
  set (c := ceil_div a b).
  pose proof (ceil_div_bounds a b ltac:(lia)) as Hc. fold c in Hc.
  assert (Hc1 : 1 <= c) by nia.
  assert (Hm_up : m <= c * 2 ^ s).
  { apply round_below; [lia | nia]. }
  assert (Hm0 : 0 <= m) by (apply round_nonneg; nia).
  pose proof (ceil_div_bounds m (2 ^ s) Hps) as Hcm.
  assert (Hle : ceil_div m (2 ^ s) <= c) by nia.
  destruct (Z.eq_dec c 1) as [Hc_one | Hc_big]; [lia|].
  (* the quotient is above 1, so nothing is clamped *)
  assert (Hab : b < a) by nia.
  assert (Hk0 : 0 <= k).
  { destruct (Z.lt_ge_cases k 0) as [Hneg | Hpos]; [|exact Hpos].
    pose proof (exponent_above a b Hap ltac:(lia) Hneg) as Q. fold k in Q.
    assert (0 < 2 ^ (- k - 1)) by (apply Z.pow_pos_nonneg; lia). nia. }
  pose proof (exponent_below a b Hap ltac:(lia) Hk0) as P. fold k in P.
  assert (Hse : s = 52 - k) by (unfold s, e; lia).
  assert (Hb2 : b < 2 * 2 ^ s).
  { assert (H2 : 2 ^ k * (2 * 2 ^ s) = 2 ^ 53).
    { rewrite Hse. change 2 with (2 ^ 1) at 2. rewrite <- !Z.pow_add_r by lia.
      f_equal. lia. }
    assert (0 < 2 ^ k) by (apply Z.pow_pos_nonneg; lia). nia. }
  assert (Hm_low : (c - 1) * 2 ^ s + 1 <= m).
  { apply round_above; [lia | nia]. }
  assert (ceil_div m (2 ^ s) = c) by (apply ceil_div_unique; lia).
  lia.
Qed.

End Float64Facts.

Module WaveformFacts.

Import Np Waveform Reference ArrayFacts Float64Facts.

(** For a file of fewer than 2^53 frames the division in binary64 does not
    move the ceilings that [run] takes. *)
Lemma bucket_of_exact (F T : Z) :
  0 <= F < 2 ^ 53 -> 1 <= T -> bucket_of F T = Z.max 1 (ceil_div F T).
Proof. intros HF HT. unfold bucket_of. apply ceil_quotient_exact; assumption. Qed.

Lemma bins_of_exact (F bucket : Z) :
  0 <= F < 2 ^ 53 -> 1 <= bucket -> bins_of F bucket = Z.max 1 (ceil_div F bucket).
Proof. intros HF HB. unfold bins_of. apply ceil_quotient_exact; assumption. Qed.

Lemma bucket_is_a_ceiling (F T : Z) :
  0 < F < 2 ^ 53 -> 1 <= T ->
  (bucket_of F T - 1) * T < F <= bucket_of F T * T.
Proof.
  intros [HF HF53] HT. rewrite bucket_of_exact by lia. clear HF53.
  pose proof (ceil_div_bounds F T ltac:(lia)) as Hc.
  assert (1 <= ceil_div F T) by nia. rewrite Z.max_r by lia. exact Hc.
Qed.

Lemma bins_is_a_ceiling (F bucket : Z) :
  0 < F < 2 ^ 53 -> 1 <= bucket ->
  (bins_of F bucket - 1) * bucket < F <= bins_of F bucket * bucket.
Proof.
  intros [HF HF53] HB. rewrite bins_of_exact by lia. clear HF53.
  pose proof (ceil_div_bounds F bucket ltac:(lia)) as Hc.
  assert (1 <= ceil_div F bucket) by nia. rewrite Z.max_r by lia. exact Hc.
Qed.

(** C2 (amended). For a file of [F] frames, [0 < F < 2^53], and a target of
    [T >= 1] bins, [bucket] is the ceiling of [F / T], [bins] is the ceiling
    of [F / bucket], and [1 <= bins <= T]. *)
Theorem bins_within_target (F T : Z) :
  0 < F -> F < 2 ^ 53 -> 1 <= T ->
  let bucket := bucket_of F T in
  let bins := bins_of F bucket in
  (bucket - 1) * T < F <= bucket * T /\
  (bins - 1) * bucket < F <= bins * bucket /\
  1 <= bins <= T.
Proof.
  intros HF HF53 HT bucket bins.
  pose proof (bucket_is_a_ceiling F T ltac:(lia) HT) as Hb. fold bucket in Hb.
  assert (Hbucket : 1 <= bucket) by (unfold bucket, bucket_of; lia).
  pose proof (bins_is_a_ceiling F bucket ltac:(lia) Hbucket) as Hn. fold bins in Hn.
  assert (Hbins : 1 <= bins) by (unfold bins, bins_of; lia).
  clear HF53. repeat split; try lia; nia.
Qed.

Lemma bins_within_target_witness :
  1 <= bins_of 48000 (bucket_of 48000 100) <= 100.
Proof. apply (bins_within_target 48000 100); lia. Defined.

(** C2 as stated fails: from 2^53 frames on, the quotient is rounded to
    binary64 before its ceiling is taken.  A header announcing
    36011204832919555 frames, drawn at 2047 points, gets buckets of 2^44
    frames and 2048 bins, one more than the target. *)
Lemma bins_exceed_target_beyond_2_53 :
  0 < 36011204832919555 /\ 1 <= 2047 /\
  bucket_of 36011204832919555 2047 = 2 ^ 44 /\
  bins_of 36011204832919555 (bucket_of 36011204832919555 2047) = 2048 /\
  ~ (bins_of 36011204832919555 (bucket_of 36011204832919555 2047) <= 2047).
Proof.
  assert (Hb : bucket_of 36011204832919555 2047 = 2 ^ 44) by (vm_compute; reflexivity).
  assert (Hn : bins_of 36011204832919555 (2 ^ 44) = 2048) by (vm_compute; reflexivity).
  rewrite Hb, Hn. repeat split; try lia; reflexivity.
Qed.

Lemma bin_index_dest_bin (bucket bins pos : Z) :
  bin_index bucket bins pos = dest_bin bucket bins pos.
Proof.
  unfold bin_index, dest_bin. destruct (pos / bucket >=? bins) eqn:E; lia.
Qed.

Lemma dest_bin_range (bucket bins pos : Z) :
  1 <= bucket -> 1 <= bins -> 0 <= pos -> 0 <= dest_bin bucket bins pos < bins.
Proof.
  intros Hb Hn Hp. unfold dest_bin.
  assert (0 <= pos / bucket) by (apply Z.div_pos; lia). lia.
Qed.

Section Chunk.

Variables bucket bins : Z.
Hypothesis bucket_pos : 1 <= bucket.
Hypothesis bins_pos : 1 <= bins.

Lemma maximum_at_column (c : nat) (frames : list (list float)) :
  forall (a : ndarray2) (pos : Z) (vals : list float),
    wf a -> (c < ncols a)%nat -> Z.of_nat (shape0 a) = bins -> 0 <= pos ->
    column_of (map (map abs) frames) c = Some vals ->
    exists a',
      maximum_at a c (chunk_idx bucket bins pos (length frames)) vals = Some a' /\
      wf a' /\ ncols a' = ncols a /\ shape0 a' = shape0 a /\
      forall r c' cur, get a r c' = Some cur ->
        get a' r c' =
        Some (if (c' =? c)%nat
              then (peak_hold bucket bins (Z.of_nat r) c pos frames cur) else cur).
Proof.
  induction frames as [|fr rest IH]; intros a pos vals Hwf Hc Hsh Hpos Hcol.
  - simpl in *. injection Hcol as <-. exists a. repeat split; auto.
    intros r c' cur ->. destruct (c' =? c)%nat; reflexivity.
  - simpl in Hcol.
    destruct (nth_error (map abs fr) c) as [v|] eqn:Ev; [|discriminate].
    destruct (column_of (map (map abs) rest) c) as [vs|] eqn:Evs; [|discriminate].
    injection Hcol as <-.
    rewrite nth_error_map in Ev.
    destruct (nth_error fr c) as [s|] eqn:Es; [|discriminate].
    simpl in Ev. injection Ev as <-.
    unfold chunk_idx. simpl. rewrite bin_index_dest_bin.
    pose proof (dest_bin_range bucket bins pos bucket_pos bins_pos Hpos) as Hrange.
    rewrite norm_index_in_range by lia.
    set (ri := Z.to_nat (dest_bin bucket bins pos)).
    destruct (wf_get_some a ri c Hwf ltac:(unfold ri; lia) Hc) as [old Hold].
    destruct (cell_update_spec a ri c (fun old => maximum old (abs s)) old Hwf Hold)
      as (a1 & -> & Hwf1 & Hn1 & Hs1 & Hget1).
    destruct (IH a1 (pos + 1) vs Hwf1 ltac:(lia) ltac:(lia) ltac:(lia) eq_refl)
      as (a' & Ha' & Hwf' & Hn' & Hs' & Hget').
    unfold chunk_idx in Ha'. rewrite Ha'.
    exists a'. repeat split; [assumption | lia | lia |].
    intros r c' cur Hcur.
    rewrite (Hget' r c' _ (Hget1 r c' cur Hcur)).
    f_equal. rewrite Es.
    destruct (c' =? c)%nat eqn:Ec.
    + apply Nat.eqb_eq in Ec. subst c'.
      rewrite andb_true_r.
      destruct (r =? ri)%nat eqn:Er.
      * apply Nat.eqb_eq in Er. subst r.
        assert (Hz : (dest_bin bucket bins pos =? Z.of_nat ri) = true)
          by (apply Z.eqb_eq; unfold ri; lia).
        rewrite Hz. rewrite Hold in Hcur. injection Hcur as ->. reflexivity.
      * apply Nat.eqb_neq in Er.
        assert (Hz : (dest_bin bucket bins pos =? Z.of_nat r) = false)
          by (apply Z.eqb_neq; unfold ri in Er; lia).
        rewrite Hz. reflexivity.
    + rewrite andb_false_r. reflexivity.
Qed.

Lemma peak_hold_no_sample (b : Z) (c : nat) (frames : list (list float)) :
  forall pos cur,
    Forall (fun fr => (length fr <= c)%nat) frames ->
    peak_hold bucket bins b c pos frames cur = cur.
Proof.
  induction frames as [|fr rest IH]; intros pos cur H; simpl; [reflexivity|].
  inversion H as [|? ? Hfr Hrest]; subst.
  assert (E : nth_error fr c = None) by (apply nth_error_None; exact Hfr).
  rewrite E. destruct (dest_bin bucket bins pos =? b); apply IH; assumption.
Qed.

Lemma channel_loop_spec (chunk : ndarray2) (pos : Z) :
  wf chunk -> 0 <= pos ->
  forall (remaining j : nat) (a : ndarray2),
    wf a -> Z.of_nat (shape0 a) = bins ->
    (j + remaining <= Nat.min (ncols a) (ncols chunk))%nat ->
    exists a',
      channel_loop a (map2d abs chunk)
        (chunk_idx bucket bins pos (shape0 (map2d abs chunk))) j remaining = Some a' /\
      wf a' /\ ncols a' = ncols a /\ shape0 a' = shape0 a /\
      forall r c cur, get a r c = Some cur ->
        get a' r c =
        Some (if (j <=? c)%nat && (c <? j + remaining)%nat
              then (peak_hold bucket bins (Z.of_nat r) c pos (rows chunk) cur) else cur).
Proof.
  intros Hwfc Hpos. induction remaining as [|k IH]; intros j a Hwf Hsh Hle.
  - simpl. exists a. repeat split; auto.
    intros r c cur ->. f_equal.
    destruct (Nat.leb_spec j c); destruct (Nat.ltb_spec c (j + 0));
      simpl; try reflexivity; lia.
  - simpl.
    assert (Hjc : (j < ncols chunk)%nat) by lia.
    assert (Hwfabs : Forall (fun r => length r = ncols chunk) (map (map abs) (rows chunk))).
    { unfold wf in Hwfc. rewrite Forall_forall in *. intros x Hx.
      apply in_map_iff in Hx. destruct Hx as (y & <- & Hy).
      rewrite length_map. auto. }
    destruct (column_of_wf _ _ j Hwfabs Hjc) as [vals Hvals].
    unfold column. simpl ncols.
    apply Nat.ltb_lt in Hjc. rewrite Hjc. simpl rows. rewrite Hvals.
    assert (Hlen : shape0 (map2d abs chunk) = length (rows chunk))
      by (unfold shape0, map2d; simpl; apply length_map).
    rewrite Hlen.
    destruct (maximum_at_column j (rows chunk) a pos vals Hwf ltac:(lia) Hsh Hpos Hvals)
      as (a1 & -> & Hwf1 & Hn1 & Hs1 & Hget1).
    destruct (IH (S j) a1 Hwf1 ltac:(lia) ltac:(lia))
      as (a' & Ha' & Hwf' & Hn' & Hs' & Hget').
    rewrite Hlen in Ha'. rewrite Ha'.
    exists a'. repeat split; [assumption | lia | lia |].
    intros r c cur Hcur.
    rewrite (Hget' r c _ (Hget1 r c cur Hcur)). f_equal.
    destruct (Nat.eq_dec c j) as [->|Hne].
    + rewrite Nat.eqb_refl.
      replace (S j <=? j)%nat with false by (symmetry; apply Nat.leb_gt; lia).
      replace (j <=? j)%nat with true by (symmetry; apply Nat.leb_le; lia).
      replace (j <? j + S k)%nat with true by (symmetry; apply Nat.ltb_lt; lia).
      reflexivity.
    + apply Nat.eqb_neq in Hne. rewrite Hne.
      apply Nat.eqb_neq in Hne.
      destruct (Nat.leb_spec (S j) c); destruct (Nat.leb_spec j c);
        destruct (Nat.ltb_spec c (S j + k)); destruct (Nat.ltb_spec c (j + S k));
        simpl; try reflexivity; lia.
Qed.

Lemma process_chunk_spec (amp chunk : ndarray2) (pos : Z) :
  wf amp -> wf chunk -> Z.of_nat (shape0 amp) = bins -> 0 <= pos ->
  exists amp',
    process_chunk bucket bins pos amp chunk = Some amp' /\
    wf amp' /\ ncols amp' = ncols amp /\ shape0 amp' = shape0 amp /\
    forall r c cur, get amp r c = Some cur ->
      get amp' r c = Some (peak_hold bucket bins (Z.of_nat r) c pos (rows chunk) cur).
Proof.
  intros Hwf Hwfc Hsh Hpos. unfold process_chunk.
  destruct (channel_loop_spec chunk pos Hwfc Hpos
              (Nat.min (shape1 amp) (shape1 (map2d abs chunk))) 0%nat amp Hwf Hsh)
    as (a' & Ha' & Hwf' & Hn' & Hs' & Hget').
  { unfold shape1, map2d; simpl. lia. }
  exists a'. repeat split; auto.
  intros r c cur Hcur. rewrite (Hget' r c cur Hcur). f_equal.
  destruct (wf_get_lt _ _ _ _ Hwf Hcur) as [_ Hc].
  unfold shape1, map2d; simpl.
  destruct (c <? Nat.min (ncols amp) (ncols chunk))%nat eqn:E; simpl; [reflexivity|].
  apply Nat.ltb_ge in E. symmetry. apply peak_hold_no_sample.
  unfold wf in Hwfc. rewrite Forall_forall in *. intros fr Hfr.
  rewrite (Hwfc fr Hfr). lia.
Qed.

Lemma peak_hold_app (b : Z) (c : nat) (f1 f2 : list (list float)) :
  forall pos cur,
    peak_hold bucket bins b c pos (f1 ++ f2) cur =
    peak_hold bucket bins b c (pos + Z.of_nat (length f1)) f2
      (peak_hold bucket bins b c pos f1 cur).
Proof.
  induction f1 as [|fr rest IH]; intros pos cur; simpl.
  - f_equal. lia.
  - rewrite IH. f_equal. lia.
Qed.

Section Loop.

Variable cancelled : nat -> bool.
Variable monotonic : nat -> Q.
Variable job : WaveformJob.
Hypothesis never_cancelled : forall k, cancelled k = false.

Lemma stream_loop_spec (x : list Q) (reads : list ReadResult) :
  Forall readable reads ->
  forall (i : nat) (amp : ndarray2) (pos : Z) (last_emit : Q),
    wf amp -> Z.of_nat (shape0 amp) = bins -> 0 <= pos ->
    exists evs k amp',
      stream_loop cancelled monotonic job x bucket bins reads i amp pos last_emit
      = (evs, (ExitEof, k, amp')) /\
      Forall (fun e => is_result e = false) evs /\
      forall r c cur, get amp r c = Some cur ->
        get amp' r c =
        Some (peak_hold bucket bins (Z.of_nat r) c pos (frames_of reads) cur).
Proof.
  induction 1 as [|rd rest Hrd Hrest IH]; intros i amp pos last_emit Hwf Hsh Hpos.
  - simpl. rewrite never_cancelled. exists [], i, amp. repeat split; auto.
  - simpl. rewrite never_cancelled.
    destruct rd as [chunk|msg]; simpl in Hrd; [|contradiction].
    destruct Hrd as [Hwfc Hsize].
    apply Nat.eqb_neq in Hsize. rewrite Hsize.
    destruct (process_chunk_spec amp chunk pos Hwf Hwfc Hsh Hpos)
      as (amp1 & -> & Hwf1 & Hn1 & Hs1 & Hget1).
    set (last' := if emit_progress job && _ then _ else last_emit).
    destruct (IH (S i) amp1 (pos + Z.of_nat (shape0 chunk)) last'
                Hwf1 ltac:(lia) ltac:(lia))
      as (evs & k & amp' & -> & Hevs & Hget').
    eexists _, k, amp'. split; [reflexivity|]. split.
    + apply Forall_app. split; [|exact Hevs].
      destruct (emit_progress job && _); repeat constructor.
    + intros r c cur Hcur.
      rewrite (Hget' r c _ (Hget1 r c cur Hcur)).
      rewrite peak_hold_app. reflexivity.
Qed.

End Loop.

End Chunk.

Lemma get_zeros (n m r c : nat) :
  (r < n)%nat -> (c < m)%nat -> get (zeros n m) r c = Some zero.
Proof.
  intros Hr Hc. unfold get, zeros; simpl.
  rewrite (nth_error_repeat _ Hr). apply nth_error_repeat. exact Hc.
Qed.

Lemma wf_zeros (n m : nat) : wf (zeros n m).
Proof.
  unfold wf, zeros; simpl. apply Forall_forall. intros r Hr.
  apply repeat_spec in Hr. subst. apply repeat_length.
Qed.

Lemma filter_result_tail (evs : list Event) (e : Event) :
  Forall (fun e => is_result e = false) evs -> is_result e = true ->
  filter is_result (evs ++ [e]) = [e].
Proof.
  intros H He. rewrite filter_app. simpl. rewrite He.
  replace (filter is_result evs) with (@nil Event); [reflexivity|].
  induction H as [|a l Ha _ IH]; simpl; [reflexivity|]. rewrite Ha. exact IH.
Qed.

(** C1. For a file with [frames > 0] that is streamed to its end, the
    amplitudes delivered with [resultReady] are the peak hold of the streamed
    frames: bin [b], channel [c] holds the [np.maximum] fold, starting from 0,
    of the absolute samples of exactly the frames whose absolute position
    [pos] has [min (pos / bucket) (bins - 1) = b]. *)
Theorem decimation_is_peak_hold
    (cancelled : nat -> bool) (monotonic : nat -> Q) (job : WaveformJob)
    (file : AudioFile) (info : StreamInfo) :
  af_info file = inl info ->
  0 < frames info -> 0 < samplerate info -> 1 <= points job ->
  af_open file = None ->
  (forall k, cancelled k = false) ->
  Forall readable (af_reads file) ->
  let bucket := bucket_of (frames info) (points job) in
  let bins := bins_of (frames info) bucket in
  exists x amp,
    filter is_result (run cancelled monotonic job file)
    = [resultReady (request_id job) (path job) x amp] /\
    forall (b c : nat),
      Z.of_nat b < bins -> Z.of_nat c < Z.max 1 (channels info) ->
      get amp b c =
      Some (peak_hold bucket bins (Z.of_nat b) c 0 (frames_of (af_reads file)) zero).
Proof.
  intros Hinfo HF HR HT Hopen Hnc Hreads bucket bins.
  assert (Hbucket : 1 <= bucket) by (unfold bucket, bucket_of; lia).
  assert (Hbins : 1 <= bins) by (unfold bins, bins_of; lia).
  unfold run. rewrite Hinfo.
  replace (frames info <=? 0) with false by (symmetry; apply Z.leb_gt; lia).
  replace (samplerate info <=? 0) with false by (symmetry; apply Z.leb_gt; lia).
  replace (points job =? 0) with false by (symmetry; apply Z.eqb_neq; lia).
  simpl orb. cbv iota. rewrite Hopen.
  fold bucket. fold bins.
  set (x := linspace _ bins).
  set (amp0 := zeros (Z.to_nat bins) (Z.to_nat (Z.max 1 (channels info)))).
  destruct (stream_loop_spec bucket bins Hbucket Hbins cancelled monotonic job Hnc
              x (af_reads file) Hreads 0%nat amp0 0 0%Q)
    as (evs & k & amp' & -> & Hevs & Hget).
  { apply wf_zeros. }
  { unfold amp0, shape0, zeros; simpl. rewrite repeat_length. lia. }
  { lia. }
  rewrite Hnc. exists x, amp'. split.
  - apply filter_result_tail; [exact Hevs | reflexivity].
  - intros b c Hb Hc. apply Hget. unfold amp0. apply get_zeros; lia.
Qed.

Lemma wf_get_none (a b : ndarray2) (r c : nat) :
  wf a -> wf b -> ncols a = ncols b -> shape0 a = shape0 b ->
  get a r c = None -> get b r c = None.
Proof.
  intros Ha Hb Hn Hs Hg.
  destruct (get b r c) as [v|] eqn:E; [|reflexivity].
  destruct (wf_get_lt _ _ _ _ Hb E) as [Hr Hc].
  destruct (wf_get_some a r c Ha ltac:(lia) ltac:(lia)) as [u Hu]. congruence.
Qed.

Lemma ndarray_ext (a b : ndarray2) :
  wf a -> wf b -> ncols a = ncols b -> shape0 a = shape0 b ->
  (forall r c, get a r c = get b r c) -> a = b.
Proof.
  destruct a as [na ra], b as [nb rb]. unfold wf, shape0, get; simpl.
  intros Ha Hb Hn Hs Hg. subst nb. f_equal.
  apply nth_error_ext. intros r.
  destruct (nth_error ra r) as [rowa|] eqn:Ea; destruct (nth_error rb r) as [rowb|] eqn:Eb.
  - f_equal. apply nth_error_ext. intros c. specialize (Hg r c).
    rewrite Ea, Eb in Hg. exact Hg.
  - apply nth_error_None in Eb. assert (r < length ra)%nat by (apply nth_error_Some; congruence). lia.
  - apply nth_error_None in Ea. assert (r < length rb)%nat by (apply nth_error_Some; congruence). lia.
  - reflexivity.
Qed.

Lemma peak_hold_firstn (bucket bins b : Z) (c k : nat) (frames : list (list float)) :
  (c < k)%nat ->
  forall pos cur,
    peak_hold bucket bins b c pos (map (firstn k) frames) cur =
    peak_hold bucket bins b c pos frames cur.
Proof.
  intros Hc. induction frames as [|fr rest IH]; intros pos cur; simpl; [reflexivity|].
  rewrite nth_error_firstn.
  replace (c <? k)%nat with true by (symmetry; apply Nat.ltb_lt; exact Hc).
  apply IH.
Qed.

Lemma wf_keep_columns (k : nat) (chunk : ndarray2) :
  wf chunk -> wf (keep_columns k chunk).
Proof.
  unfold wf, keep_columns; simpl. intros H.
  rewrite Forall_forall in *. intros x Hx.
  apply in_map_iff in Hx. destruct Hx as (y & <- & Hy).
  rewrite length_firstn. rewrite (H y Hy). reflexivity.
Qed.

(** C10. When a chunk has another channel count than the header, folding it
    into the accumulator raises no IndexError, keeps the shape of the
    accumulator, leaves every channel from [min(header, chunk)] on untouched,
    and gives the same accumulator as the chunk cut down to the header's
    channels: the extra channels of the chunk are ignored. *)
Theorem channel_mismatch_is_safe (bucket bins pos : Z) (amp chunk : ndarray2) :
  1 <= bucket -> 1 <= bins -> 0 <= pos ->
  wf amp -> wf chunk -> Z.of_nat (shape0 amp) = bins ->
  exists amp',
    process_chunk bucket bins pos amp chunk = Some amp' /\
    wf amp' /\ shape0 amp' = shape0 amp /\ shape1 amp' = shape1 amp /\
    (forall r c, (Nat.min (shape1 amp) (shape1 chunk) <= c)%nat ->
                 get amp' r c = get amp r c) /\
    process_chunk bucket bins pos amp (keep_columns (shape1 amp) chunk) = Some amp'.
Proof.
  intros Hb Hn Hpos Hwf Hwfc Hsh.
  destruct (process_chunk_spec bucket bins Hb Hn amp chunk pos Hwf Hwfc Hsh Hpos)
    as (amp' & Hp & Hwf' & Hn' & Hs' & Hget).
  exists amp'. repeat split; auto.
  - intros r c Hc. unfold shape1 in Hc.
    destruct (get amp r c) as [cur|] eqn:E.
    + rewrite (Hget r c cur E). f_equal.
      destruct (wf_get_lt _ _ _ _ Hwf E) as [_ Hlt].
      apply peak_hold_no_sample.
      unfold wf in Hwfc. rewrite Forall_forall in *. intros fr Hfr.
      rewrite (Hwfc fr Hfr). lia.
    + apply (wf_get_none amp amp'); auto.
  - destruct (process_chunk_spec bucket bins Hb Hn amp
                (keep_columns (shape1 amp) chunk) pos Hwf
                (wf_keep_columns _ _ Hwfc) Hsh Hpos)
      as (amp2 & Hp2 & Hwf2 & Hn2 & Hs2 & Hget2).
    rewrite Hp2. f_equal.
    apply ndarray_ext; auto; try congruence.
    intros r c. destruct (get amp r c) as [cur|] eqn:E.
    + rewrite (Hget r c cur E), (Hget2 r c cur E). f_equal.
      destruct (wf_get_lt _ _ _ _ Hwf E) as [_ Hlt].
      simpl. apply peak_hold_firstn. exact Hlt.
    + rewrite (wf_get_none amp amp2 r c); auto.
      rewrite (wf_get_none amp amp' r c); auto.
Qed.

Lemma channel_mismatch_is_safe_witness :
  exists amp',
    process_chunk 1 2 0 (zeros 2 1) Examples.stereo_chunk = Some amp' /\
    wf amp' /\ shape0 amp' = 2%nat /\ shape1 amp' = 1%nat /\
    (forall r c, (1 <= c)%nat -> get amp' r c = get (zeros 2 1) r c) /\
    process_chunk 1 2 0 (zeros 2 1) (keep_columns 1 Examples.stereo_chunk) = Some amp'.
Proof.
  apply (channel_mismatch_is_safe 1 2 0 (zeros 2 1) Examples.stereo_chunk);
    try lia; try reflexivity; repeat constructor.
Defined.

Section Cancel.

Variable cancelled : nat -> bool.
Variable monotonic : nat -> Q.
Variable job : WaveformJob.

Lemma stream_loop_events (x : list Q) (bucket bins : Z) (reads : list ReadResult) :
  forall (i : nat) (amp : ndarray2) (pos : Z) (last_emit : Q),
    Forall (fun e => is_result e = false)
      (fst (stream_loop cancelled monotonic job x bucket bins reads i amp pos last_emit)).
Proof.
  induction reads as [|rd rest IH]; intros i amp pos last_emit; simpl.
  - destruct (cancelled i); constructor.
  - destruct (cancelled i); [constructor|].
    destruct rd as [chunk|msg]; [|constructor].
    destruct (size chunk =? 0)%nat; [constructor|].
    destruct (process_chunk bucket bins pos amp chunk) as [amp1|]; [|constructor].
    match goal with |- context [stream_loop _ _ _ _ _ _ rest ?i' ?a' ?p' ?l'] =>
      specialize (IH i' a' p' l');
      destruct (stream_loop cancelled monotonic job x bucket bins rest i' a' p' l')
        as [evs' r] end.
    simpl in *. apply Forall_app. split; [|exact IH].
    destruct (emit_progress job && _); repeat constructor.
Qed.

Hypothesis flag_stays_set : forall i, cancelled i = true -> cancelled (S i) = true.

Lemma flag_monotone (k n : nat) : (k <= n)%nat -> cancelled k = true -> cancelled n = true.
Proof.
  induction 1 as [|n Hle IH]; intros Hk; [exact Hk|].
  apply flag_stays_set. apply IH. exact Hk.
Qed.

Lemma no_result_after_cancel (file : AudioFile) (info : StreamInfo) (k : nat) :
  af_info file = inl info ->
  0 < frames info -> 0 < samplerate info ->
  cancelled k = true ->
  (k <= final_check cancelled monotonic job file)%nat ->
  Forall (fun e => is_result e = false) (run cancelled monotonic job file).
Proof.
  intros Hinfo HF HR Hk Hle.
  unfold final_check in Hle. unfold run. rewrite Hinfo in *.
  replace (frames info <=? 0) with false by (symmetry; apply Z.leb_gt; lia).
  replace (samplerate info <=? 0) with false by (symmetry; apply Z.leb_gt; lia).
  simpl orb. cbv iota.
  assert (Hex : forall t msg, Forall (fun e => is_result e = false)
                                (on_exception cancelled job t msg)).
  { intros t msg. unfold on_exception. destruct (cancelled t); repeat constructor. }
  destruct (points job =? 0); [apply Hex|].
  destruct (af_open file); [apply Hex|].
  match goal with |- context [stream_loop ?c ?m ?j ?x ?bu ?bi ?rs ?i ?a ?p ?l] =>
    pose proof (stream_loop_events x bu bi rs i a p l) as Hevs;
    destruct (stream_loop c m j x bu bi rs i a p l) as [evs [[ex k'] amp']] end.
  simpl in Hevs.
  assert (Hfinal : cancelled (S k') = true) by (apply (flag_monotone k); assumption).
  destruct ex.
  - rewrite Hfinal. exact Hevs.
  - rewrite Hfinal. exact Hevs.
  - apply Forall_app. split; [exact Hevs | apply Hex].
Qed.

End Cancel.
Lemma decimation_is_peak_hold_witness :
  exists x amp,
    filter is_result (run (fun _ => false) (fun _ => 0%Q) Examples.mono_job Examples.mono_file)
    = [resultReady 1 "a.wav" x amp] /\
    forall (b c : nat),
      Z.of_nat b < 2 -> Z.of_nat c < 1 ->
      get amp b c =
      Some (peak_hold 2 2 (Z.of_nat b) c 0 (rows Examples.mono_chunk) zero).
Proof.
  destruct (decimation_is_peak_hold (fun _ => false) (fun _ => 0%Q)
              Examples.mono_job Examples.mono_file (mk_info 4 4 1))
    as (x & amp & H1 & H2).
  - reflexivity.
  - simpl; lia.
  - simpl; lia.
  - simpl; lia.
  - reflexivity.
  - reflexivity.
  - repeat constructor. discriminate.
  - exists x, amp. split; [exact H1|].
    intros b c Hb Hc. exact (H2 b c Hb Hc).
Defined.

End WaveformFacts.

Module DictFacts.

Section DictFacts.
Context {V : Type}.
Implicit Types (d : list (string * V)) (k : string) (v : V).

Lemma set_absent k v d : Dict.get k d = None -> Dict.set k v d = d ++ [(k, v)].
Proof.
  induction d as [|[k' v'] d IH]; simpl; [reflexivity|].
  destruct (String.eqb k k'); [discriminate|]. intros H. rewrite IH; auto.
Qed.

Lemma set_present_keys k v d :
  Dict.get k d <> None -> map fst (Dict.set k v d) = map fst d.
Proof.
  induction d as [|[k' v'] d IH]; simpl; [congruence|].
  destruct (String.eqb k k'); simpl; [reflexivity|].
  intros H. rewrite IH; auto.
Qed.

Lemma set_length k v d :
  length (Dict.set k v d) =
  match Dict.get k d with Some _ => length d | None => S (length d) end.
Proof.
  induction d as [|[k' v'] d IH]; simpl; [reflexivity|].
  destruct (String.eqb k k'); simpl; [reflexivity|].
  rewrite IH. destruct (Dict.get k d); reflexivity.
Qed.

Lemma pop_first d :
  match Dict.first_key d with
  | Some k => Dict.pop k d = tl d
  | None => d = []
  end.
Proof.
  destruct d as [|[k v] d]; simpl; [reflexivity|].
  rewrite String.eqb_refl. reflexivity.
Qed.

End DictFacts.

End DictFacts.

Module ControllerFacts.

Import Np Waveform Controller Reference WaveformFacts DictFacts.

Lemma sanitized_in_unit_interval (u : float) :
  unit_interval (clip zero one (nan_to_num zero one zero u)).
Proof.
  unfold unit_interval.
  destruct u as [[|] | [|] | | [|] m e]; try (split; reflexivity).
  unfold nan_to_num, clip.
  assert (Hmax : maximum (S754_finite false m e) zero = S754_finite false m e)
    by reflexivity.
  rewrite Hmax. unfold minimum.
  destruct (le (S754_finite false m e) one) eqn:Hle; simpl.
  - split; [reflexivity | exact Hle].
  - split; reflexivity.
Qed.

Lemma get_map2d (f : float -> float) (a : ndarray2) (r c : nat) :
  get (map2d f a) r c = option_map f (get a r c).
Proof.
  unfold get, map2d; simpl. rewrite nth_error_map.
  destruct (nth_error (rows a) r) as [row|]; simpl; [|reflexivity].
  apply nth_error_map.
Qed.

Lemma get_firstn_rows (n k : nat) (rs : list (list float)) (r c : nat) (v : float) :
  get (mk_ndarray2 k (firstn n rs)) r c = Some v ->
  get (mk_ndarray2 k rs) r c = Some v.
Proof.
  unfold get; simpl. rewrite nth_error_firstn.
  destruct (r <? n)%nat; [auto | discriminate].
Qed.

Lemma aligned_cell (x : list Q) (amp : ndarray2) (r c : nat) (v : float) :
  get (snd (_align_wave_channels x amp)) r c = Some v ->
  exists u, get amp r c = Some u /\ v = clip zero one (nan_to_num zero one zero u).
Proof.
  unfold _align_wave_channels.
  destruct ((length x =? 0)%nat || (size amp =? 0)%nat).
  - simpl. unfold get; simpl. destruct r; discriminate.
  - simpl snd. rewrite !get_map2d. intros H.
    destruct (get _ r c) as [u|] eqn:E; [|discriminate].
    apply get_firstn_rows in E. simpl in H. injection H as <-.
    exists u. split; [|reflexivity]. destruct amp; exact E.
Qed.

(** C3 (amended). Every cell of an amplitude array that
    [_align_wave_channels] hands to the drawing code lies in [0, 1]; a NaN or
    a negative infinity of the input becomes 0 and a positive infinity
    becomes 1. *)
Theorem aligned_amplitudes_sanitized (x : list Q) (amp : ndarray2) (r c : nat) (v : float) :
  get (snd (_align_wave_channels x amp)) r c = Some v ->
  unit_interval v /\
  exists u, get amp r c = Some u /\
            (isnan u = true -> v = zero) /\
            (u = S754_infinity true -> v = zero) /\
            (u = S754_infinity false -> v = one).
Proof.
  intros H. destruct (aligned_cell x amp r c v H) as (u & Hu & ->).
  split; [apply sanitized_in_unit_interval|].
  exists u. split; [exact Hu|]. repeat split.
  - destruct u; try discriminate. reflexivity.
  - intros ->. reflexivity.
  - intros ->. reflexivity.
Qed.

Lemma aligned_amplitudes_sanitized_witness :
  unit_interval one /\
  exists u, get Examples.inf_amp 0 0 = Some u /\
            (isnan u = true -> one = zero) /\
            (u = S754_infinity true -> one = zero) /\
            (u = S754_infinity false -> one = one).
Proof.
  apply (aligned_amplitudes_sanitized [0%Q] Examples.inf_amp 0 0 one). reflexivity.
Defined.

(** C3 as stated fails: a positive infinity is not sanitized to 0, it is
    shown as 1. *)
Lemma positive_infinity_is_not_zeroed :
  ~ (forall (x : list Q) (amp : ndarray2) (r c : nat) (u v : float),
        get amp r c = Some u -> isfinite u = false ->
        get (snd (_align_wave_channels x amp)) r c = Some v -> v = zero).
Proof.
  intros H.
  specialize (H [0%Q] Examples.inf_amp 0%nat 0%nat (S754_infinity false) one
                eq_refl eq_refl eq_refl).
  discriminate H.
Qed.

Lemma stale_finished_is_discarded (rid : Z) (p : string) (x : list Q) (amp : ndarray2)
    (h : Host) :
  rid <> _active_wave_request_id h ->
  _on_active_wave_finished rid p x amp h = h.
Proof.
  intros Hne. unfold _on_active_wave_finished.
  apply Z.eqb_neq in Hne. rewrite Hne. reflexivity.
Qed.

(** C4. On the streaming path, when the cancellation flag (which is never
    reset) is set at some reading point up to the test that follows the loop,
    the job emits no [resultReady]; and the slot of the active job ignores a
    [resultReady] whose request id is not the current one. *)
Theorem cancelled_job_delivers_nothing
    (cancelled : nat -> bool) (monotonic : nat -> Q) (job : WaveformJob)
    (file : AudioFile) (info : StreamInfo) (k : nat) :
  af_info file = inl info ->
  0 < frames info -> 0 < samplerate info ->
  (forall i, cancelled i = true -> cancelled (S i) = true) ->
  cancelled k = true ->
  (k <= final_check cancelled monotonic job file)%nat ->
  Forall (fun e => is_result e = false) (run cancelled monotonic job file) /\
  forall (rid : Z) (p : string) (x : list Q) (amp : ndarray2) (h : Host),
    rid <> _active_wave_request_id h ->
    _on_active_wave_finished rid p x amp h = h.
Proof.
  intros Hinfo HF HR Hmono Hk Hle. split.
  - exact (no_result_after_cancel cancelled monotonic job Hmono file info k
             Hinfo HF HR Hk Hle).
  - intros. apply stale_finished_is_discarded. assumption.
Qed.

Lemma cancelled_job_delivers_nothing_witness :
  Forall (fun e => is_result e = false)
    (run (fun i => (1 <=? i)%nat) (fun _ => 0%Q) Examples.mono_job Examples.mono_file) /\
  forall (rid : Z) (p : string) (x : list Q) (amp : ndarray2) (h : Host),
    rid <> _active_wave_request_id h ->
    _on_active_wave_finished rid p x amp h = h.
Proof.
  apply (cancelled_job_delivers_nothing (fun i => (1 <=? i)%nat) (fun _ => 0%Q)
           Examples.mono_job Examples.mono_file (mk_info 4 4 1) 1%nat).
  - reflexivity.
  - simpl; lia.
  - simpl; lia.
  - intros i Hi. apply Nat.leb_le in Hi. apply Nat.leb_le. lia.
  - reflexivity.
  - vm_compute. lia.
Defined.

Lemma cache_store_cache (p signature : string) (x : list Q) (amp : ndarray2) (h : Host) :
  wave_cache (_cache_store p signature x amp h) =
  let cache := Dict.set p (signature, x, amp) (wave_cache h) in
  if (40 <? length cache)%nat then tl cache else cache.
Proof.
  unfold _cache_store. simpl.
  destruct (40 <? _)%nat; [|reflexivity].
  pose proof (pop_first (Dict.set p (signature, x, amp) (wave_cache h))) as H.
  destruct (Dict.first_key _); [exact H | rewrite H; reflexivity].
Qed.

Section Hit.

Variable stat : string -> option (Z * Z).

Lemma cache_get_same_cache (h h' : Host) (p s : string) :
  wave_cache h' = wave_cache h -> _cache_get h' p s = _cache_get h p s.
Proof. unfold _cache_get. intros ->. reflexivity. Qed.

Lemma next_preload_loop_spec (queue : list string) :
  forall h : Host,
    let h' := next_preload_loop stat queue h in
    wave_cache h' = wave_cache h /\
    _waveform_points h' = _waveform_points h /\
    _active_wave_thread h' = _active_wave_thread h /\
    plot h' = plot h /\
    wave_load_label h' = wave_load_label h /\
    exists new,
      started h' = started h ++ new /\ (length new <= 1)%nat /\
      Forall (fun j =>
                exists s, _file_signature stat (path j) (Some (_waveform_points h)) = Some s /\
                          _cache_get h (path j) s = None) new.
Proof.
  induction queue as [|p rest IH]; intros h.
  - simpl. repeat split; auto. exists []. rewrite app_nil_r. repeat split; auto.
  - cbn [next_preload_loop]. cbv zeta.
    set (h1 := set_preload_queue rest (set_preload_set _ h)).
    assert (Hc : wave_cache h1 = wave_cache h) by reflexivity.
    assert (Hp : _waveform_points h1 = _waveform_points h) by reflexivity.
    assert (Hs : started h1 = started h) by reflexivity.
    assert (Hrec :
      let h' := next_preload_loop stat rest h1 in
      wave_cache h' = wave_cache h /\
      _waveform_points h' = _waveform_points h /\
      _active_wave_thread h' = _active_wave_thread h /\
      plot h' = plot h /\
      wave_load_label h' = wave_load_label h /\
      exists new,
        started h' = started h ++ new /\ (length new <= 1)%nat /\
        Forall (fun j =>
                  exists s, _file_signature stat (path j) (Some (_waveform_points h)) = Some s /\
                            _cache_get h (path j) s = None) new).
    { destruct (IH h1) as (A & B & C & D & E & new & F & G & H).
      repeat split; auto. exists new. repeat split; auto. }
    destruct (String.eqb p (_active_wave_path h1)); [exact Hrec|].
    change (_waveform_points h1) with (_waveform_points h).
    destruct (_file_signature stat p (Some (_waveform_points h))) as [signature|] eqn:Esig;
      [|exact Hrec].
    destruct (_cache_get h1 p signature) eqn:Eget; [exact Hrec|].
    repeat split; auto.
    eexists [_]. simpl. repeat split; auto.
    constructor; [|constructor]. simpl. exists signature. split; [exact Esig|].
    rewrite <- (cache_get_same_cache h h1); auto.
Qed.

Lemma remove_from_queue_cache (p : string) (h : Host) :
  wave_cache (_remove_from_preload_queue p h) = wave_cache h /\
  _waveform_points (_remove_from_preload_queue p h) = _waveform_points h /\
  _active_wave_thread (_remove_from_preload_queue p h) = _active_wave_thread h /\
  started (_remove_from_preload_queue p h) = started h.
Proof.
  unfold _remove_from_preload_queue. destruct (in_list p (_preload_set h)); repeat split.
Qed.

Lemma cache_hit_spec (p : string) (h : Host) (sig : string) (x : list Q) (amp : ndarray2) :
  _cache_get h p (signature_or_empty stat p h) = Some (sig, x, amp) ->
  let h' := _load_waveform_for_track stat p h in
  plot h' = plot (_set_waveform_from_channels x amp h) /\
  wave_cache h' = wave_cache h /\
  _active_wave_thread h' = _active_wave_thread h /\
  exists new,
    started h' = started h ++ new /\ (length new <= 1)%nat /\
    Forall (fun j => path j <> p) new.
Proof.
  intros Hhit. unfold _load_waveform_for_track.
  destruct (remove_from_queue_cache p h) as (Rc & Rp & Ra & Rs).
  set (h0 := _remove_from_preload_queue p h) in *.
  fold (signature_or_empty stat p h).
  rewrite (cache_get_same_cache h h0 p _ Rc), Hhit.
  set (h1 := set_wave_load_label _ (_set_waveform_from_channels x amp h0)).
  assert (H1c : wave_cache h1 = wave_cache h).
  { unfold h1, _set_waveform_from_channels.
    destruct (_align_wave_channels x amp) as [xa aa].
    destruct ((length xa =? 0)%nat || (size aa =? 0)%nat); simpl; exact Rc. }
  assert (H1p : _waveform_points h1 = _waveform_points h).
  { unfold h1, _set_waveform_from_channels.
    destruct (_align_wave_channels x amp) as [xa aa].
    destruct ((length xa =? 0)%nat || (size aa =? 0)%nat); simpl; exact Rp. }
  assert (H1a : _active_wave_thread h1 = _active_wave_thread h).
  { unfold h1, _set_waveform_from_channels.
    destruct (_align_wave_channels x amp) as [xa aa].
    destruct ((length xa =? 0)%nat || (size aa =? 0)%nat); simpl; exact Ra. }
  assert (H1s : started h1 = started h).
  { unfold h1, _set_waveform_from_channels.
    destruct (_align_wave_channels x amp) as [xa aa].
    destruct ((length xa =? 0)%nat || (size aa =? 0)%nat); simpl; exact Rs. }
  assert (H1plot : plot h1 = plot (_set_waveform_from_channels x amp h)).
  { unfold h1, _set_waveform_from_channels.
    destruct (_align_wave_channels x amp) as [xa aa].
    destruct ((length xa =? 0)%nat || (size aa =? 0)%nat); reflexivity. }
  unfold _start_next_preload.
  destruct (_preload_thread h1).
  - repeat split; auto. exists []. rewrite app_nil_r. repeat split; auto.
  - destruct (next_preload_loop_spec (_preload_queue h1) h1)
      as (A & B & C & D & E & new & F & G & H).
    repeat split; try congruence.
    exists new. repeat split; try congruence.
    eapply Forall_impl; [|exact H]. intros j (s & Hsig & Hget) Hj.
    rewrite Hj, H1p in Hsig.
    rewrite Hj, (cache_get_same_cache h h1 p s H1c) in Hget.
    unfold signature_or_empty in Hhit. rewrite Hsig in Hhit. congruence.
Qed.

End Hit.

(** Case analysis on the dictionary lookup that a hypothesis matches on. *)
Ltac case_get H E :=
  match type of H with
  | context [match ?g with _ => _ end] => destruct g eqn:E
  end.

(** C9 (amended). Starting from at most 40 entries, the waveform cache holds
    at most 40 entries after a store.  Storing a path that is already cached
    keeps the order of the entries and evicts nothing; storing a new path
    appends it and, when the cache was full, evicts the entry that was
    inserted first.  A cache hit shows the stored arrays, leaves the cache and
    the active job alone and starts no job for that path: at most one preload
    job, for another path, is started. *)
Theorem waveform_cache_is_bounded_fifo (stat : string -> option (Z * Z))
    (p signature : string) (x : list Q) (amp : ndarray2) (h : Host) :
  (length (wave_cache h) <= 40)%nat ->
  let h' := _cache_store p signature x amp h in
  (length (wave_cache h') <= 40)%nat /\
  (Dict.get p (wave_cache h) <> None ->
   map fst (wave_cache h') = map fst (wave_cache h)) /\
  (Dict.get p (wave_cache h) = None -> (length (wave_cache h) < 40)%nat ->
   wave_cache h' = wave_cache h ++ [(p, (signature, x, amp))]) /\
  (Dict.get p (wave_cache h) = None -> length (wave_cache h) = 40%nat ->
   wave_cache h' = tl (wave_cache h) ++ [(p, (signature, x, amp))]) /\
  (forall (sig : string) (cx : list Q) (camp : ndarray2),
      _cache_get h p (signature_or_empty stat p h) = Some (sig, cx, camp) ->
      let h2 := _load_waveform_for_track stat p h in
      plot h2 = plot (_set_waveform_from_channels cx camp h) /\
      wave_cache h2 = wave_cache h /\
      _active_wave_thread h2 = _active_wave_thread h /\
      exists new,
        started h2 = started h ++ new /\ (length new <= 1)%nat /\
        Forall (fun j => path j <> p) new).
Proof.
  intros Hlen h'. unfold h'. rewrite cache_store_cache. cbv zeta.
  pose proof (set_length p (signature, x, amp) (wave_cache h)) as Hset.
  unfold CacheEntry in *.
  repeat split.
  - destruct (40 <? _)%nat eqn:E.
    + apply Nat.ltb_lt in E.
      set (d := Dict.set p (signature, x, amp) (wave_cache h)) in *.
      clearbody d.
      case_get Hset Eg; destruct d; simpl in *; lia.
    + apply Nat.ltb_ge in E. exact E.
  - intros Hin. case_get Hset Eg; [|exfalso; apply Hin; reflexivity].
    replace (40 <? _)%nat with false by (symmetry; apply Nat.ltb_ge; lia).
    apply set_present_keys. rewrite Eg. discriminate.
  - intros Hnone Hlt.
    case_get Hset Eg; [discriminate Hnone|].
    replace (40 <? _)%nat with false by (symmetry; apply Nat.ltb_ge; lia).
    apply set_absent. exact Eg.
  - intros Hnone Hfull.
    case_get Hset Eg; [discriminate Hnone|].
    replace (40 <? _)%nat with true by (symmetry; apply Nat.ltb_lt; lia).
    rewrite (set_absent _ _ _ Eg).
    destruct (wave_cache h); [discriminate Hfull | reflexivity].
  - apply (cache_hit_spec stat p h sig cx camp H).
  - apply (cache_hit_spec stat p h sig cx camp H).
  - apply (cache_hit_spec stat p h sig cx camp H).
  - apply (cache_hit_spec stat p h sig cx camp H).
Qed.

Lemma waveform_cache_is_bounded_fifo_witness :
  (length (wave_cache (_cache_store "t40" "s" [0%Q] Examples.silent_amp
                         Examples.full_cache_host)) <= 40)%nat.
Proof.
  refine (proj1 (waveform_cache_is_bounded_fifo Examples.uniform_stat "t40" "s" [0%Q]
                   Examples.silent_amp Examples.full_cache_host _)).
  vm_compute. lia.
Defined.

(** C9 as stated fails twice.  With the forty entries [t0 .. t39] in the
    cache, [t0] is hit and then [t40] is stored: the code evicts [t0], the
    entry used last, where a least-recently-used cache evicts [t1].  And a
    cache hit for [a.wav] starts a decode job, the preload of [b.wav]. *)
Lemma eviction_is_not_lru_and_a_hit_may_preload :
  let h := Examples.full_cache_host in
  let e := ("s"%string, [0%Q], Examples.silent_amp) in
  let h' := _cache_store "t40" "s" [0%Q] Examples.silent_amp h in
  (_cache_get h "t0" "s" <> None /\
   _cache_get h' "t0" "s" = None /\
   Dict.get "t0"%string (lru_store "t40" e (lru_touch "t0" (wave_cache h))) <> None /\
   map fst (wave_cache h') <> map fst (lru_store "t40" e (lru_touch "t0" (wave_cache h)))) /\
  (_cache_get Examples.hit_host "a.wav"
     (signature_or_empty Examples.uniform_stat "a.wav" Examples.hit_host) <> None /\
   map path (started (_load_waveform_for_track Examples.uniform_stat "a.wav"
                        Examples.hit_host)) = ["b.wav"%string]).
Proof.
  vm_compute. repeat split; try discriminate; intros H; discriminate H.
Qed.

End ControllerFacts.

Module RoutingFacts.

Import Routing Reference.

Lemma nth_set_nth_same {A : Type} (n : nat) (v d : A) (l : list A) :
  (n < length l)%nat -> nth n (set_nth n v l) d = v.
Proof.
  revert n. induction l as [|x l IH]; intros [|n] H; simpl in *; try lia; auto.
  apply IH. lia.
Qed.

Lemma nth_set_nth_other {A : Type} (n m : nat) (v d : A) (l : list A) :
  n <> m -> nth m (set_nth n v l) d = nth m l d.
Proof.
  revert n m. induction l as [|x l IH]; intros [|n] [|m] H; simpl; auto; try congruence.
Qed.

Lemma qgt_spec (a b : Q) : qgt a b = true <-> (b < a)%Q.
Proof.
  unfold qgt. rewrite negb_true_iff.
  destruct (Qle_bool a b) eqn:E.
  - apply Qle_bool_iff in E. split; [discriminate|]. intros H.
    exfalso. apply (Qlt_not_le _ _ H E).
  - split; [|reflexivity]. intros _. apply Qnot_le_lt. intros H.
    apply Qle_bool_iff in H. congruence.
Qed.

Lemma qgt_false (a b : Q) : qgt a b = false -> (a <= b)%Q.
Proof.
  unfold qgt. rewrite negb_false_iff. apply Qle_bool_iff.
Qed.

Lemma qsum_scaled {A : Type} (f g : A -> Q) (s : Q) (l : list A) :
  (forall a, g a == f a / s)%Q ->
  (qsum (map g l) == qsum (map f l) / s)%Q.
Proof.
  intros H. induction l as [|a l IH]; simpl.
  - unfold Qdiv. ring.
  - rewrite IH, H. unfold Qdiv. ring.
Qed.

Lemma Qabs_div_pos (x s : Q) : (0 < s)%Q -> (Qabs (x / s) == Qabs x / s)%Q.
Proof.
  intros Hs. unfold Qdiv. rewrite Qabs_Qmult.
  rewrite (Qabs_pos (/ s)); [reflexivity|].
  apply Qlt_le_weak. apply Qinv_lt_0_compat. exact Hs.
Qed.

Lemma normalize_col_self (j : nat) (m : Matrix) :
  (col_sum j (normalize_col j m) <= 1)%Q.
Proof.
  unfold normalize_col. destruct (qgt (col_sum j m) 1) eqn:E.
  - apply qgt_spec in E.
    assert (Hs : (0 < col_sum j m)%Q) by (eapply Qlt_trans; [|exact E]; reflexivity).
    unfold col_sum at 1. rewrite map_map.
    rewrite (qsum_scaled (fun row => Qabs (nth j row 0%Q)) _ (col_sum j m)).
    + fold (col_sum j m). apply Qle_lteq. right. field.
      intros H0. rewrite H0 in Hs. discriminate Hs.
    + intros row. destruct (j <? length row)%nat eqn:Ej.
      * apply Nat.ltb_lt in Ej. rewrite nth_set_nth_same by exact Ej.
        apply Qabs_div_pos. exact Hs.
      * apply Nat.ltb_ge in Ej. rewrite nth_overflow by exact Ej.
        simpl Qabs. unfold Qdiv. ring.
  - apply qgt_false. exact E.
Qed.

Lemma normalize_col_other (j j' : nat) (m : Matrix) :
  j <> j' -> col_sum j' (normalize_col j m) = col_sum j' m.
Proof.
  intros Hne. unfold normalize_col. destruct (qgt (col_sum j m) 1); [|reflexivity].
  unfold col_sum. rewrite map_map. f_equal. apply map_ext. intros row.
  destruct (j <? length row)%nat; [|reflexivity].
  rewrite nth_set_nth_other by exact Hne. reflexivity.
Qed.

Lemma normalize_cols_bound (n : nat) (m : Matrix) (j : nat) :
  (j < n)%nat -> (col_sum j (normalize_cols n m) <= 1)%Q.
Proof.
  unfold normalize_cols. induction n as [|n IH]; intros Hj; [lia|].
  rewrite seq_S, fold_left_app. simpl.
  destruct (Nat.eq_dec j n) as [->|Hne].
  - apply normalize_col_self.
  - rewrite normalize_col_other by congruence. apply IH. lia.
Qed.

(** With exact divisions, every output column of a preset's runtime matrix
    would have summed input gain at most 1, for every source and output
    channel count: the column pass leaves each column at 1 or below. *)
Lemma exact_columns_do_not_clip (cfg : Config) (source_channels output_channels : Z)
    (out_idx : nat) :
  _audio_matrix_enabled cfg = false ->
  1 <= source_channels -> 1 <= output_channels ->
  Z.of_nat out_idx < output_channels ->
  (col_sum out_idx (_build_runtime_routing_matrix cfg source_channels output_channels)
   <= 1)%Q.
Proof.
  intros Hoff Hs Ho Hj. unfold _build_runtime_routing_matrix. rewrite Hoff. simpl negb.
  cbv iota. apply normalize_cols_bound. lia.
Qed.

(** In explicit matrix mode nothing is divided: the float32 matrix is the
    exact one. *)
Lemma matrix_mode_is_exact (cfg : Config) (source_channels output_channels : Z) :
  _audio_matrix_enabled cfg = true ->
  Float32._build_runtime_routing_matrix cfg source_channels output_channels
  = _build_runtime_routing_matrix cfg source_channels output_channels.
Proof.
  intros Hon. unfold Float32._build_runtime_routing_matrix, _build_runtime_routing_matrix.
  rewrite Hon. reflexivity.
Qed.


(** numpy's own float32 sum of that column rounds to 1.0; with more sources it
    exceeds 1.0 as well.  With the 5.1 preset, a 12-channel source and 2
    outputs, sources 1 to 11 share output 1 with gain float32(1/11): the
    column sums to 1 + 2^-25, and [np.sum] gives 1 + 2^-23. *)
Lemma surround_fold_down_exceeds_unity :
  Float32.col_sum 0 (Float32._build_runtime_routing_matrix Examples.stereo_preset 6 2)
  = 1%Q /\
  let m := Float32._build_runtime_routing_matrix Examples.surround_preset 12 2 in
  Qred (col_sum 1 m) = (33554433 # 33554432)%Q /\
  Float32.col_sum 1 m = (8388609 # 8388608)%Q.
Proof. vm_compute. repeat split. Qed.

Section Trim.

Variable abspath : string -> string.
Variable cur : string.

Lemma evict_zero (cache : list (string * string)) :
  evict_oldest abspath cur 0 cache = cache.
Proof.
  induction cache as [|[k p] rest IH]; simpl; [reflexivity|].
  destruct (is_current abspath cur p); [rewrite IH|]; reflexivity.
Qed.

Lemma evict_succ (n : nat) (cache : list (string * string)) :
  evict_oldest abspath cur n (evict_oldest abspath cur 1 cache)
  = evict_oldest abspath cur (S n) cache.
Proof.
  induction cache as [|[k p] rest IH]; simpl; [reflexivity|].
  destruct (is_current abspath cur p) eqn:E; simpl.
  - rewrite E, IH. reflexivity.
  - rewrite evict_zero. reflexivity.
Qed.

Lemma evict_keeps_current (n : nat) (cache : list (string * string)) (k p : string) :
  In (k, p) cache -> is_current abspath cur p = true ->
  In (k, p) (evict_oldest abspath cur n cache).
Proof.
  revert n. induction cache as [|[k0 p0] rest IH]; intros n Hin Hc; simpl in *; [contradiction|].
  destruct Hin as [Heq|Hin].
  - injection Heq as -> ->. rewrite Hc. left. reflexivity.
  - destruct (is_current abspath cur p0).
    + right. apply IH; assumption.
    + destruct n; [right; exact Hin | apply IH; assumption].
Qed.

Lemma find_victim_spec (cache : list (string * string)) (k p : string) :
  find_victim abspath cur cache = Some (k, p) ->
  NoDup (Dict.keys cache) ->
  Dict.pop k cache = evict_oldest abspath cur 1 cache /\
  is_current abspath cur p = false /\ In (k, p) cache.
Proof.
  induction cache as [|[k0 p0] rest IH]; simpl; [discriminate|].
  intros Hf Hnd. inversion Hnd as [|? ? Hnotin Hnd']; subst.
  destruct (is_current abspath cur p0) eqn:E.
  - destruct (IH Hf Hnd') as (Hpop & Hc & Hin).
    assert (Hne : String.eqb k k0 = false).
    { apply String.eqb_neq. intros ->. apply Hnotin.
      unfold Dict.keys. change k0 with (fst (k0, p)). apply in_map. exact Hin. }
    rewrite Hne, Hpop. auto.
  - injection Hf as -> ->. rewrite String.eqb_refl, evict_zero. auto.
Qed.

Lemma pop_keys_incl (k : string) (cache : list (string * string)) :
  NoDup (Dict.keys cache) -> NoDup (Dict.keys (Dict.pop k cache)) /\
  forall x, In x (Dict.keys (Dict.pop k cache)) -> In x (Dict.keys cache).
Proof.
  induction cache as [|[k0 p0] rest IH]; simpl; intros Hnd; [split; auto|].
  inversion Hnd as [|? ? Hnotin Hnd']; subst.
  destruct (String.eqb k k0).
  - split; [exact Hnd'|]. intros x Hx. right. exact Hx.
  - destruct (IH Hnd') as [H1 H2]. simpl. split.
    + constructor; [|exact H1]. intros Hin. apply Hnotin. apply H2. exact Hin.
    + intros x [Hx|Hx]; [left; exact Hx | right; apply H2; exact Hx].
Qed.

Lemma pop_length (k p : string) (cache : list (string * string)) :
  In (k, p) cache -> S (length (Dict.pop k cache)) = length cache.
Proof.
  induction cache as [|[k0 p0] rest IH]; simpl; [contradiction|].
  intros [Heq|Hin].
  - injection Heq as -> ->. rewrite String.eqb_refl. reflexivity.
  - destruct (String.eqb k k0); [reflexivity|]. simpl. rewrite IH; auto.
Qed.

Lemma is_current_false (p : string) :
  cur <> ""%string -> is_current abspath cur p = false -> abspath p <> cur.
Proof.
  unfold is_current, is_empty. intros Hne H.
  apply String.eqb_neq in Hne. rewrite Hne in H. simpl in H.
  apply String.eqb_neq. exact H.
Qed.

Lemma in_list_spec (p : string) (l : list string) :
  Controller.in_list p l = true <-> In p l.
Proof.
  unfold Controller.in_list. rewrite existsb_exists. split.
  - intros (x & Hx & He). apply String.eqb_eq in He. subst. exact Hx.
  - intros H. exists p. split; [exact H | apply String.eqb_refl].
Qed.

Lemma fs_remove_other (p q : string) (fs : list string) :
  abspath p <> q -> In q fs -> In q (fs_remove abspath p fs).
Proof.
  intros Hne Hin. unfold fs_remove. apply filter_In. split; [exact Hin|].
  apply negb_true_iff. apply String.eqb_neq. congruence.
Qed.

Lemma trim_loop_spec (max_entries : Z) (fuel : nat) :
  cur <> ""%string -> 0 <= max_entries ->
  forall pl : Player,
    NoDup (Dict.keys (_routed_audio_cache pl)) ->
    (length (_routed_audio_cache pl) <= fuel)%nat ->
    let pl' := trim_loop abspath fuel max_entries cur pl in
    (exists n, _routed_audio_cache pl'
               = evict_oldest abspath cur n (_routed_audio_cache pl)) /\
    (In cur (files pl) -> In cur (files pl')) /\
    (Z.of_nat (length (_routed_audio_cache pl')) <= max_entries \/
     find_victim abspath cur (_routed_audio_cache pl') = None).
Proof.
  intros Hcur Hmax. induction fuel as [|fuel IH]; intros pl Hnd Hlen.
  - simpl. split; [exists 0%nat; symmetry; apply evict_zero|]. split; [auto|].
    left. lia.
  - cbn [trim_loop].
    destruct (Z.of_nat (length (_routed_audio_cache pl)) >? max_entries) eqn:Egt.
    + destruct (find_victim abspath cur (_routed_audio_cache pl)) as [[k p]|] eqn:Ef.
      * destruct (find_victim_spec _ k p Ef Hnd) as (Hpop & Hc & Hin).
        cbv zeta.
        match goal with |- context [trim_loop abspath fuel max_entries cur ?x] =>
          set (pl1 := x) end.
        assert (Hcache1 : _routed_audio_cache pl1 = Dict.pop k (_routed_audio_cache pl)).
        { unfold pl1.
          destruct (negb (is_empty p) && isfile abspath p _); reflexivity. }
        assert (Hfiles1 : In cur (files pl) -> In cur (files pl1)).
        { unfold pl1. intros Hf.
          destruct (negb (is_empty p) && isfile abspath p _); simpl; [|exact Hf].
          apply fs_remove_other; [|exact Hf].
          apply is_current_false; assumption. }
        destruct (IH pl1) as ((n & Hn) & Hf & Hpost).
        { rewrite Hcache1. apply pop_keys_incl. exact Hnd. }
        { rewrite Hcache1. pose proof (pop_length k p _ Hin). lia. }
        split; [|split; [auto | exact Hpost]].
        exists (S n). rewrite Hn, Hcache1, Hpop. apply evict_succ.
      * split; [exists 0%nat; symmetry; apply evict_zero|]. split; [auto|].
        right. exact Ef.
    + split; [exists 0%nat; symmetry; apply evict_zero|]. split; [auto|].
      left. lia.
Qed.

End Trim.

(** C6. Trimming the routed-file cache, with a source loaded in the playback
    component, keeps every cache entry whose path is that source and keeps
    its file on disk; what it removes are the oldest entries, in insertion
    order, among those backing other files; and it stops only when the cache
    fits or nothing else can be removed. *)
Theorem trim_keeps_current_source (abspath : string -> string) (max_entries : Z)
    (pl : Player) :
  NoDup (Dict.keys (_routed_audio_cache pl)) ->
  player_source pl <> ""%string ->
  abspath (player_source pl) <> ""%string ->
  let current := abspath (player_source pl) in
  let pl' := _trim_routed_audio_cache abspath max_entries pl in
  (forall key p, In (key, p) (_routed_audio_cache pl) -> abspath p = current ->
                 In (key, p) (_routed_audio_cache pl')) /\
  (In current (files pl) -> In current (files pl')) /\
  (exists n, _routed_audio_cache pl'
             = evict_oldest abspath current n (_routed_audio_cache pl)) /\
  (Z.of_nat (length (_routed_audio_cache pl')) <= Z.max 1 max_entries \/
   find_victim abspath current (_routed_audio_cache pl') = None).
Proof.
  intros Hnd Hsrc Habs current pl'.
  assert (Hcur : current_source_abs_of abspath pl = current).
  { unfold current_source_abs_of, is_empty.
    apply String.eqb_neq in Hsrc. rewrite Hsrc. reflexivity. }
  unfold pl', _trim_routed_audio_cache. rewrite Hcur.
  set (m := if max_entries <? 1 then 1 else max_entries).
  assert (Hm : m = Z.max 1 max_entries).
  { unfold m. destruct (max_entries <? 1) eqn:E; lia. }
  destruct (trim_loop_spec abspath current m (length (_routed_audio_cache pl))
              Habs ltac:(lia) pl Hnd (le_n _)) as ((n & Hn) & Hf & Hpost).
  repeat split.
  - intros key p Hin Hp. rewrite Hn. apply evict_keeps_current; [exact Hin|].
    unfold is_current, is_empty.
    apply String.eqb_neq in Habs. fold current in Habs. rewrite Habs. simpl.
    apply String.eqb_eq. exact Hp.
  - exact Hf.
  - exists n. exact Hn.
  - rewrite <- Hm. exact Hpost.
Qed.

Lemma trim_keeps_current_source_witness :
  In ("k2", "/r/k2.wav")%string
     (_routed_audio_cache
        (_trim_routed_audio_cache Examples.plain_abspath 1 Examples.playing_player)) /\
  In "/r/k2.wav"%string
     (files (_trim_routed_audio_cache Examples.plain_abspath 1 Examples.playing_player)).
Proof.
  destruct (trim_keeps_current_source Examples.plain_abspath 1 Examples.playing_player)
    as (H1 & H2 & _).
  - repeat constructor; simpl; intuition discriminate.
  - discriminate.
  - discriminate.
  - split.
    + apply H1; [simpl; auto | reflexivity].
    + apply H2. simpl; auto.
Defined.

Section Resolve.

Variable abspath : string -> string.
Variable stat : string -> option (Z * Z).
Variable device_max_for : Z -> Z.

Lemma isfile_after_remove (p : string) (fs : list string) :
  isfile abspath p (fs_remove abspath p fs) = false.
Proof.
  unfold isfile, fs_remove, Controller.in_list.
  induction fs as [|q fs IH]; simpl; [reflexivity|].
  destruct (String.eqb q (abspath p)) eqn:E; simpl; [exact IH|].
  rewrite String.eqb_sym, E. exact IH.
Qed.

Lemma cleaned_tmp_is_gone (p : string) (fs : list string) :
  isfile abspath p (if isfile abspath p fs then fs_remove abspath p fs else fs) = false.
Proof.
  destruct (isfile abspath p fs) eqn:E; [apply isfile_after_remove | exact E].
Qed.

Lemma render_raises (env : Env) (tmp_path routed_path : string) (fs : list string) :
  src_opens env = false \/ dst_opens env = false \/
  route_loop (write_ok env) (reads env) 0 = false \/ replace_ok env = false ->
  fst (render abspath env tmp_path routed_path fs) = false.
Proof.
  unfold render. intros H.
  destruct (src_opens env); [|reflexivity].
  destruct (dst_opens env); [|reflexivity].
  destruct (route_loop (write_ok env) (reads env) 0); [|reflexivity].
  destruct (replace_ok env); [|reflexivity].
  simpl. destruct H as [H|[H|[H|H]]]; discriminate H.
Qed.

(** C7. When routing is requested and the header probe raises, or the render
    is reached and raises (the source or the output does not open, a read or
    a write raises, or the rename fails), [_resolve_playback_source] returns
    the original source path, leaves the cache and the session set as they
    were, and no temporary output file is left on disk. *)
Theorem routing_failure_falls_back (env : Env) (source_path : string) (pl : Player) :
  _routing_requires_processing (config pl) = true ->
  (info_channels env = None \/
   exists key routed_path tmp_path,
     route_plan abspath stat device_max_for env source_path pl
     = Render key routed_path tmp_path /\
     (src_opens env = false \/ dst_opens env = false \/
      route_loop (write_ok env) (reads env) 0 = false \/ replace_ok env = false)) ->
  let result := _resolve_playback_source abspath stat device_max_for env source_path pl in
  fst result = source_path /\
  _routed_audio_cache (snd result) = _routed_audio_cache pl /\
  _session_routed_files (snd result) = _session_routed_files pl /\
  forall key routed_path tmp_path,
    route_plan abspath stat device_max_for env source_path pl
    = Render key routed_path tmp_path ->
    isfile abspath tmp_path (files (snd result)) = false.
Proof.
  intros Hreq [Hinfo | (key & routed & tmp & Hplan & Hfail)] result; unfold result.
  - assert (Hplan : route_plan abspath stat device_max_for env source_path pl = Passthrough).
    { unfold route_plan. rewrite Hreq, Hinfo. reflexivity. }
    unfold _resolve_playback_source. rewrite Hplan. simpl. repeat split.
    intros; discriminate.
  - apply (render_raises env tmp routed (files pl)) in Hfail.
    unfold _resolve_playback_source. rewrite Hplan.
    destruct (render abspath env tmp routed (files pl)) as [ok fs]. simpl in Hfail.
    subst ok. simpl. repeat split.
    intros key' routed' tmp' Heq. injection Heq as <- <- <-.
    apply cleaned_tmp_is_gone.
Qed.

End Resolve.

Lemma routing_failure_falls_back_witness :
  let result :=
    _resolve_playback_source Examples.plain_abspath Examples.uniform_stat
      Examples.stereo_device Examples.failing_env "/m/a.wav"
      (Examples.idle_player Examples.stereo_preset) in
  fst result = "/m/a.wav"%string /\
  _routed_audio_cache (snd result) = [] /\
  _session_routed_files (snd result) = [] /\
  forall key routed_path tmp_path,
    route_plan Examples.plain_abspath Examples.uniform_stat Examples.stereo_device
      Examples.failing_env "/m/a.wav" (Examples.idle_player Examples.stereo_preset)
    = Render key routed_path tmp_path ->
    isfile Examples.plain_abspath tmp_path (files (snd result)) = false.
Proof.
  apply (routing_failure_falls_back Examples.plain_abspath Examples.uniform_stat
           Examples.stereo_device Examples.failing_env "/m/a.wav"
           (Examples.idle_player Examples.stereo_preset)).
  - reflexivity.
  - right. eexists _, _, _. split; [vm_compute; reflexivity|].
    right. right. left. reflexivity.
Defined.

Lemma app_same_length {A : Type} (a a' b b' : list A) :
  length a = length a' -> a ++ b = a' ++ b' -> a = a' /\ b = b'.
Proof.
  revert a'. induction a as [|x a IH]; intros [|x' a'] Hlen H; simpl in *; try discriminate.
  - auto.
  - injection H as -> H. injection Hlen as Hlen.
    destruct (IH a' Hlen H) as [-> ->]. auto.
Qed.

Lemma join_rows_inj (n : nat) (g1 g2 : list (list ascii)) :
  length g1 = length g2 ->
  Forall (fun r => length r = n) g1 -> Forall (fun r => length r = n) g2 ->
  join_rows g1 = join_rows g2 -> g1 = g2.
Proof.
  revert g2. induction g1 as [|r1 t1 IH]; intros [|r2 t2] Hlen H1 H2 Hj;
    simpl in Hlen; try discriminate; [reflexivity|].
  apply Forall_cons_iff in H1. destruct H1 as [Hr1 Ht1].
  apply Forall_cons_iff in H2. destruct H2 as [Hr2 Ht2].
  injection Hlen as Hlen.
  destruct t1 as [|x1 t1']; destruct t2 as [|x2 t2']; simpl in Hlen; try discriminate.
  - simpl in Hj. subst. reflexivity.
  - change (r1 ++ "|"%char :: join_rows (x1 :: t1') = r2 ++ "|"%char :: join_rows (x2 :: t2')) in Hj.
    destruct (app_same_length _ _ _ _ (eq_trans Hr1 (eq_sym Hr2)) Hj) as [-> Hrest].
    injection Hrest as Hrest. f_equal. apply IH; auto.
Qed.



Lemma row_text_inj (a b : list Z) :
  Forall bit a -> Forall bit b -> row_text a = row_text b -> a = b.
Proof.
  revert b. induction a as [|x a IH]; intros [|y b] Ha Hb H; simpl in H; try discriminate;
    [reflexivity|].
  apply Forall_cons_iff in Ha. destruct Ha as [Hx Ha'].
  apply Forall_cons_iff in Hb. destruct Hb as [Hy Hb'].
  injection H as Hxy H. f_equal; [|apply IH; auto].
  destruct Hx as [-> | ->]; destruct Hy as [-> | ->]; simpl in Hxy; try reflexivity;
    discriminate.
Qed.

Lemma clone_shape (m : BoolMatrix) :
  length (_clone_routing_matrix m) = SIZE /\
  Forall (fun r => length r = SIZE /\ Forall bit r) (_clone_routing_matrix m).
Proof.
  unfold _clone_routing_matrix, grid. split.
  - rewrite length_map, length_seq. reflexivity.
  - apply Forall_forall. intros r Hr. apply in_map_iff in Hr.
    destruct Hr as (i & <- & _). split.
    + rewrite length_map, length_seq. reflexivity.
    + apply Forall_forall. intros z Hz. apply in_map_iff in Hz.
      destruct Hz as (j & <- & _).
      destruct (_ && _); [right | left]; reflexivity.
Qed.

Lemma map_row_text_inj (g1 g2 : list (list Z)) :
  Forall (fun r => Forall bit r) g1 -> Forall (fun r => Forall bit r) g2 ->
  map row_text g1 = map row_text g2 -> g1 = g2.
Proof.
  revert g2. induction g1 as [|r1 t1 IH]; intros [|r2 t2] H1 H2 H; simpl in H;
    try discriminate; [reflexivity|].
  apply Forall_cons_iff in H1. destruct H1 as [Hb1 Ht1].
  apply Forall_cons_iff in H2. destruct H2 as [Hb2 Ht2].
  injection H as Hr Ht.
  f_equal; [apply row_text_inj; auto | apply IH; auto].
Qed.

Lemma string_of_list_ascii_inj (a b : list ascii) :
  string_of_list_ascii a = string_of_list_ascii b -> a = b.
Proof.
  intros H. rewrite <- (list_ascii_of_string_of_list_ascii a),
                    <- (list_ascii_of_string_of_list_ascii b), H. reflexivity.
Qed.

Lemma serialize_determines_clone (m1 m2 : BoolMatrix) :
  _serialize_routing_matrix m1 = _serialize_routing_matrix m2 ->
  _clone_routing_matrix m1 = _clone_routing_matrix m2.
Proof.
  unfold _serialize_routing_matrix. intros H.
  apply string_of_list_ascii_inj in H.
  destruct (clone_shape m1) as [L1 S1]. destruct (clone_shape m2) as [L2 S2].
  apply map_row_text_inj.
  - eapply Forall_impl; [|exact S1]. intros r [_ Hr]; exact Hr.
  - eapply Forall_impl; [|exact S2]. intros r [_ Hr]; exact Hr.
  - apply (join_rows_inj SIZE).
    + rewrite !length_map. congruence.
    + apply Forall_forall. intros r Hr. apply in_map_iff in Hr.
      destruct Hr as (z & <- & Hz). unfold row_text. rewrite length_map.
      rewrite Forall_forall in S1. apply (S1 z Hz).
    + apply Forall_forall. intros r Hr. apply in_map_iff in Hr.
      destruct Hr as (z & <- & Hz). unfold row_text. rewrite length_map.
      rewrite Forall_forall in S2. apply (S2 z Hz).
    + exact H.
Qed.

Lemma runtime_matrix_from_token (cfg1 cfg2 : Config) (sc oc : Z) :
  _audio_routing_mode cfg1 = _audio_routing_mode cfg2 ->
  _audio_matrix_enabled cfg1 = _audio_matrix_enabled cfg2 ->
  _clone_routing_matrix (_audio_routing_matrix cfg1)
  = _clone_routing_matrix (_audio_routing_matrix cfg2) ->
  _build_runtime_routing_matrix cfg1 sc oc = _build_runtime_routing_matrix cfg2 sc oc.
Proof.
  intros Hmode Hen Hclone.
  assert (Hbase : base_matrix cfg1 = base_matrix cfg2).
  { unfold base_matrix, _routing_target_channels. rewrite Hen, Hmode, Hclone. reflexivity. }
  unfold _build_runtime_routing_matrix. rewrite Hbase, Hen.
  assert (Hrows : forall n i, build_row cfg1 (base_matrix cfg2) n i
                              = build_row cfg2 (base_matrix cfg2) n i).
  { intros n i. unfold build_row. rewrite Hen. reflexivity. }
  rewrite (map_ext _ _ (Hrows (Z.to_nat (Z.max 1 oc)))). reflexivity.
Qed.

Lemma append_assoc (a b c : string) : ((a ++ b) ++ c = a ++ (b ++ c))%string.
Proof. induction a as [|x a IH]; simpl; [reflexivity | rewrite IH; reflexivity]. Qed.

Lemma append_inv_head (a b c : string) : (a ++ b = a ++ c)%string -> b = c.
Proof.
  induction a as [|x a IH]; simpl; intros H; [exact H|].
  injection H as H. exact (IH H).
Qed.

Lemma append_same_length (a a' b b' : string) :
  String.length a = String.length a' -> (a ++ b = a' ++ b')%string -> a = a'.
Proof.
  revert a'. induction a as [|x a IH]; intros [|x' a'] Hlen H; simpl in *;
    try discriminate; [reflexivity|].
  injection H as -> H. injection Hlen as Hlen. f_equal. exact (IH a' Hlen H).
Qed.

Lemma string_of_list_ascii_length (l : list ascii) :
  String.length (string_of_list_ascii l) = length l.
Proof. induction l as [|x l IH]; simpl; [reflexivity | rewrite IH; reflexivity]. Qed.

Lemma join_rows_length (n : nat) (g : list (list ascii)) :
  Forall (fun r => length r = n) g ->
  length (join_rows g) = (length g * (n + 1) - 1)%nat.
Proof.
  induction g as [|r t IH]; intros H; [reflexivity|].
  apply Forall_cons_iff in H. destruct H as [Hr Ht].
  destruct t as [|r' t'].
  - simpl. rewrite Hr. lia.
  - specialize (IH Ht).
    change (join_rows (r :: r' :: t')) with (r ++ "|"%char :: join_rows (r' :: t')).
    rewrite length_app, Hr.
    change (length ("|"%char :: join_rows (r' :: t')))
      with (S (length (join_rows (r' :: t')))).
    rewrite IH. change (length (r :: r' :: t')) with (S (length (r' :: t'))).
    change (length (r' :: t')) with (S (length t')). lia.
Qed.

(** Every serialized grid has the same length: 12 rows of 12 digits and 11
    bars. *)
Lemma serialize_length (m : BoolMatrix) :
  String.length (_serialize_routing_matrix m) = 155%nat.
Proof.
  unfold _serialize_routing_matrix. rewrite string_of_list_ascii_length.
  destruct (clone_shape m) as [L S1].
  rewrite (join_rows_length SIZE).
  - rewrite length_map, L. reflexivity.
  - apply Forall_forall. intros r Hr. apply in_map_iff in Hr.
    destruct Hr as (z & <- & Hz). unfold row_text. rewrite length_map.
    rewrite Forall_forall in S1. apply (S1 z Hz).
Qed.

(** The cache key is the SHA-1 of the key text. *)
Lemma cache_key_hashes_the_key_text (stat : string -> option (Z * Z)) (cfg : Config)
    (source_path : string) (sc oc : Z) :
  cache_key stat cfg source_path sc oc
  = Sha1.hexdigest (Sha1.encode (key_text stat cfg source_path sc oc)).
Proof. reflexivity. Qed.

(** C8 (amended). For a fixed source file and fixed channel counts, take two
    routing configurations with the same mode and the same matrix flag.  If
    their serialized boolean matrices are equal, their runtime matrices are
    equal and so are their cache keys.  If their serialized boolean matrices
    differ, the texts hashed into their cache keys differ, whether or not their
    runtime matrices are equal. *)
Theorem cache_key_follows_the_token (stat : string -> option (Z * Z))
    (cfg1 cfg2 : Config) (source_path : string) (sc oc : Z) :
  _audio_routing_mode cfg1 = _audio_routing_mode cfg2 ->
  _audio_matrix_enabled cfg1 = _audio_matrix_enabled cfg2 ->
  (_serialize_routing_matrix (_audio_routing_matrix cfg1)
   = _serialize_routing_matrix (_audio_routing_matrix cfg2) ->
   _build_runtime_routing_matrix cfg1 sc oc = _build_runtime_routing_matrix cfg2 sc oc /\
   cache_key stat cfg1 source_path sc oc = cache_key stat cfg2 source_path sc oc) /\
  (_serialize_routing_matrix (_audio_routing_matrix cfg1)
   <> _serialize_routing_matrix (_audio_routing_matrix cfg2) ->
   key_text stat cfg1 source_path sc oc <> key_text stat cfg2 source_path sc oc).
Proof.
  intros Hmode Hen. split.
  - intros Hser.
    assert (Hm : _build_runtime_routing_matrix cfg1 sc oc
                 = _build_runtime_routing_matrix cfg2 sc oc).
    { apply runtime_matrix_from_token; auto. apply serialize_determines_clone. exact Hser. }
    split; [exact Hm|].
    unfold cache_key, route_token. rewrite Hm, Hmode, Hen, Hser. reflexivity.
  - intros Hser Htext. apply Hser.
    unfold key_text, key_text_of, route_token in Htext. rewrite Hmode, Hen in Htext.
    apply append_inv_head in Htext. apply append_inv_head in Htext.
    rewrite !append_assoc in Htext.
    do 5 apply append_inv_head in Htext.
    eapply append_same_length; [|exact Htext].
    rewrite !serialize_length. reflexivity.
Qed.

Lemma cache_key_follows_the_token_witness :
  _build_runtime_routing_matrix Examples.patch_identity 2 2
  = _build_runtime_routing_matrix Examples.patch_extra 2 2 /\
  key_text Examples.uniform_stat Examples.patch_identity "/m/a.wav" 2 2
  <> key_text Examples.uniform_stat Examples.patch_extra "/m/a.wav" 2 2.
Proof.
  split; [reflexivity|].
  apply (proj2 (cache_key_follows_the_token Examples.uniform_stat Examples.patch_identity
                  Examples.patch_extra "/m/a.wav" 2 2 eq_refl eq_refl)).
  vm_compute. discriminate.
Defined.

(** C8 as stated fails: the identity grid and the identity grid with one more
    crosspoint, input 12 to output 1, give a two-channel source the same
    runtime matrix, byte for byte, and two different cache keys, because the
    serialized boolean matrix is part of the hashed token. *)
Lemma equal_runtime_matrices_get_different_keys :
  ~ (forall (stat : string -> option (Z * Z)) (cfg1 cfg2 : Config)
            (source_path : string) (sc oc : Z),
        tobytes (_build_runtime_routing_matrix cfg1 sc oc)
        = tobytes (_build_runtime_routing_matrix cfg2 sc oc) ->
        cache_key stat cfg1 source_path sc oc = cache_key stat cfg2 source_path sc oc).
Proof.
  intros H.
  specialize (H Examples.uniform_stat Examples.patch_identity Examples.patch_extra
                "/m/a.wav"%string 2 2 eq_refl).
  vm_compute in H. discriminate H.
Qed.

End RoutingFacts.

(** * Further properties *)

Module WaveformExtras.

Import Np Waveform Reference Signals ArrayFacts WaveformFacts.

(** *** Shapes are kept by the accumulator updates *)

Lemma upd_nth_length {A : Type} (f : A -> option A) (n : nat) (l l' : list A) :
  upd_nth n f l = Some l' -> length l' = length l.
Proof.
  revert n l'. induction l as [|x l IH]; intros [|n] l' H; simpl in H; try discriminate.
  - destruct (f x); [|discriminate]. injection H as <-. reflexivity.
  - destruct (upd_nth n f l) eqn:E; [|discriminate]. injection H as <-.
    simpl. f_equal. eapply IH; eauto.
Qed.

Lemma upd_nth_Forall {A : Type} (P : A -> Prop) (f : A -> option A) (n : nat)
    (l l' : list A) :
  (forall x y, P x -> f x = Some y -> P y) ->
  Forall P l -> upd_nth n f l = Some l' -> Forall P l'.
Proof.
  intros Hf. revert n l'. induction l as [|x l IH]; intros [|n] l' HP H; simpl in H;
    try discriminate.
  - apply Forall_cons_iff in HP. destruct HP as [Hx Hl].
    destruct (f x) eqn:E; [|discriminate]. injection H as <-.
    constructor; eauto.
  - apply Forall_cons_iff in HP. destruct HP as [Hx Hl].
    destruct (upd_nth n f l) eqn:E; [|discriminate]. injection H as <-.
    constructor; eauto.
Qed.

Lemma cell_update_shape (a a' : ndarray2) (r c : nat) (g : float -> float) :
  cell_update a r c g = Some a' -> ncols a' = ncols a /\ shape0 a' = shape0 a.
Proof.
  unfold cell_update. destruct (c <? ncols a)%nat; [|discriminate].
  destruct (upd_nth r _ (rows a)) eqn:E; [|discriminate]. intros H. injection H as <-.
  split; [reflexivity|]. unfold shape0; simpl. eapply upd_nth_length; eauto.
Qed.

Lemma cell_update_cells (P : float -> Prop) (a a' : ndarray2) (r c : nat)
    (g : float -> float) :
  (forall v, P v -> P (g v)) ->
  all_cells P a -> cell_update a r c g = Some a' -> all_cells P a'.
Proof.
  unfold cell_update, all_cells. intros Hg Ha.
  destruct (c <? ncols a)%nat; [|discriminate].
  destruct (upd_nth r _ (rows a)) eqn:E; [|discriminate]. intros H. injection H as <-.
  simpl. eapply upd_nth_Forall; [|exact Ha|exact E].
  intros row row' Hrow Hu. eapply upd_nth_Forall; [|exact Hrow|exact Hu].
  intros x y Hx Hy. injection Hy as <-. auto.
Qed.

Lemma maximum_keeps (P : float -> Prop) (a b : float) : P a -> P b -> P (maximum a b).
Proof. unfold maximum. destruct (ge a b || isnan a); auto. Qed.

Lemma abs_is_peak (s : float) : peak (abs s).
Proof.
  unfold peak. destruct s as [[|] | [|] | | [|] m e]; simpl; auto.
Qed.

Lemma zero_is_peak : peak zero.
Proof. right. reflexivity. Qed.

Lemma maximum_at_keeps (P : float -> Prop) (c : nat) (idx : list Z) :
  forall (vals : list float) (a a' : ndarray2),
    Forall P vals ->
    maximum_at a c idx vals = Some a' ->
    (ncols a' = ncols a /\ shape0 a' = shape0 a) /\ (all_cells P a -> all_cells P a').
Proof.
  induction idx as [|i idx IH]; intros vals a a' Hv H; simpl in H.
  - injection H as <-. auto.
  - destruct vals as [|v vals]; [injection H as <-; auto|].
    apply Forall_cons_iff in Hv. destruct Hv as [Hv Hvs].
    destruct (norm_index (shape0 a) i) as [r|]; [|discriminate].
    destruct (cell_update a r c (fun old => maximum old v)) as [a1|] eqn:E; [|discriminate].
    destruct (cell_update_shape _ _ _ _ _ E) as [Hn Hs].
    destruct (IH vals a1 a' Hvs H) as [[Hn' Hs'] Hc]. split; [split; congruence|].
    intros Ha. apply Hc. eapply cell_update_cells; [|exact Ha|exact E].
    intros old Hold. apply maximum_keeps; assumption.
Qed.

Lemma column_of_abs_peaks (rs : list (list float)) (c : nat) (vals : list float) :
  column_of (map (map abs) rs) c = Some vals -> Forall peak vals.
Proof.
  revert vals. induction rs as [|r rs IH]; intros vals H; simpl in H.
  - injection H as <-. constructor.
  - destruct (nth_error (map abs r) c) as [v|] eqn:Ev; [|discriminate].
    destruct (column_of (map (map abs) rs) c) as [vs|]; [|discriminate].
    injection H as <-. constructor; [|apply IH; reflexivity].
    rewrite nth_error_map in Ev. destruct (nth_error r c); [|discriminate].
    injection Ev as <-. apply abs_is_peak.
Qed.

Lemma channel_loop_keeps (chunk : ndarray2) (idx : list Z) (remaining : nat) :
  forall (j : nat) (a a' : ndarray2),
    channel_loop a (map2d abs chunk) idx j remaining = Some a' ->
    (ncols a' = ncols a /\ shape0 a' = shape0 a) /\
    (all_cells peak a -> all_cells peak a').
Proof.
  induction remaining as [|k IH]; intros j a a' H; simpl in H.
  - injection H as <-. auto.
  - unfold column in H. simpl in H.
    destruct (j <? ncols chunk)%nat; [|discriminate].
    destruct (column_of (map (map abs) (rows chunk)) j) as [vals|] eqn:Ec; [|discriminate].
    destruct (maximum_at a j idx vals) as [a1|] eqn:Em; [|discriminate].
    destruct (maximum_at_keeps peak j idx vals a a1 (column_of_abs_peaks _ _ _ Ec) Em)
      as [[Hn Hs] Hc].
    destruct (IH (S j) a1 a' H) as [[Hn' Hs'] Hc']. split; [split; congruence|auto].
Qed.

Lemma process_chunk_keeps (bucket bins pos : Z) (amp chunk amp' : ndarray2) :
  process_chunk bucket bins pos amp chunk = Some amp' ->
  (ncols amp' = ncols amp /\ shape0 amp' = shape0 amp) /\
  (all_cells peak amp -> all_cells peak amp').
Proof. unfold process_chunk. apply channel_loop_keeps. Qed.


Lemma length_arange_from (n : nat) : forall start, length (arange_from start n) = n.
Proof. induction n as [|n IH]; intros start; simpl; [reflexivity | rewrite IH; reflexivity]. Qed.

Lemma length_linspace (stop : Q) (num : Z) : length (linspace stop num) = Z.to_nat num.
Proof. unfold linspace. rewrite length_map. apply length_arange_from. Qed.

Lemma zeros_cells (P : float -> Prop) (n m : nat) : P zero -> all_cells P (zeros n m).
Proof.
  intros H. unfold all_cells, zeros; simpl.
  apply Forall_forall. intros r Hr. apply repeat_spec in Hr. subst.
  apply Forall_forall. intros v Hv. apply repeat_spec in Hv. subst. exact H.
Qed.

Section Signals.

Variable cancelled : nat -> bool.
Variable monotonic : nat -> Q.
Variable job : WaveformJob.

Lemma stream_loop_signals (x : list Q) (bucket bins : Z) (ch : nat)
    (reads : list ReadResult) :
  1 <= bucket -> 1 <= bins ->
  forall (i : nat) (amp : ndarray2) (pos : Z) (last_emit : Q),
    shape0 amp = Z.to_nat bins -> shape1 amp = ch -> 0 <= pos -> all_cells peak amp ->
    Forall (good_progress job x bins ch)
      (fst (stream_loop cancelled monotonic job x bucket bins reads i amp pos last_emit)) /\
    let amp' :=
      snd (snd (stream_loop cancelled monotonic job x bucket bins reads i amp pos last_emit)) in
    shape0 amp' = Z.to_nat bins /\ shape1 amp' = ch /\ all_cells peak amp'.
Proof.
  intros Hb Hn. induction reads as [|rd rest IH]; intros i amp pos last_emit Hs Hc Hpos Hp;
    simpl.
  - destruct (cancelled i); simpl; auto.
  - destruct (cancelled i); simpl; [auto|].
    destruct rd as [chunk|msg]; simpl; [|auto].
    destruct (size chunk =? 0)%nat; simpl; [auto|].
    destruct (process_chunk bucket bins pos amp chunk) as [amp1|] eqn:Ep; simpl; [|auto].
    destruct (process_chunk_keeps _ _ _ _ _ _ Ep) as [[Hn1 Hs1] Hp1].
    match goal with |- context [stream_loop _ _ _ _ _ _ rest ?i' ?a' ?p' ?l'] =>
      destruct (IH i' a' p' l') as [Hevs Hamp];
      [unfold shape0 in *; congruence | unfold shape1 in *; congruence | lia | auto |];
      destruct (stream_loop cancelled monotonic job x bucket bins rest i' a' p' l')
        as [evs' [[ex k] amp']] end.
    simpl in *. split; [|exact Hamp].
    apply Forall_app. split; [|exact Hevs].
    destruct (emit_progress job && _); [|constructor].
    constructor; [|constructor].
    exists amp1, (Z.min bins (Float64.ceil_quotient (pos + Z.of_nat (shape0 chunk)) bucket)).
    split; [reflexivity|].
    pose proof (Float64Facts.ceil_quotient_nonneg
                  (pos + Z.of_nat (shape0 chunk)) bucket ltac:(lia) Hb).
    unfold shape0, shape1 in *. repeat split; try congruence; try lia. auto.
Qed.

Lemma good_progress_facts (x : list Q) (bins : Z) (ch : nat) (evs : list Event) :
  Forall (good_progress job x bins ch) evs ->
  Forall (fun e => is_progress e = true) evs /\
  Forall (fun e => event_origin e = (request_id job, path job)) evs /\
  Forall (aligned_signal x bins ch) evs /\
  Forall peaks_signal evs.
Proof.
  intros H. repeat split; (eapply Forall_impl; [|exact H]);
    intros e (amp & filled & -> & Hs & Hc & Hf & Hp); simpl; auto.
Qed.

Lemma on_exception_facts (k : nat) (msg : string) :
  (on_exception cancelled job k msg = [] \/
   on_exception cancelled job k msg = [errorRaised (request_id job) (path job) msg]).
Proof. unfold on_exception. destruct (cancelled k); auto. Qed.

Lemma run_has_shape (file : AudioFile) :
  exists x bins ch,
    run_shape job x bins ch (run cancelled monotonic job file) /\
    (forall info, af_info file = inl info -> 0 < frames info -> 0 < samplerate info ->
       x = linspace (inject_Z (frames info) / inject_Z (samplerate info))
             (bins_of (frames info) (bucket_of (frames info) (points job))) /\
       bins = bins_of (frames info) (bucket_of (frames info) (points job)) /\
       ch = Z.to_nat (Z.max 1 (channels info))).
Proof.
  unfold run. destruct (af_info file) as [info|msg] eqn:Einfo.
  - destruct ((frames info <=? 0) || (samplerate info <=? 0)) eqn:Edeg.
    + exists [0%Q], 1, (Z.to_nat (Z.max 1 (channels info))). split.
      * exists [], [resultReady (request_id job) (path job) [0%Q]
                      (zeros 1 (Z.to_nat (Z.max 1 (channels info))))].
        split; [reflexivity|]. split; [constructor|]. right. left.
        eexists. split; [reflexivity|]. repeat split.
        apply zeros_cells. apply zero_is_peak.
      * intros info' Hi HF HR. injection Hi as <-.
        apply orb_true_iff in Edeg. destruct Edeg as [E|E]; apply Z.leb_le in E; lia.
    + set (bucket := bucket_of (frames info) (points job)).
      set (bins := bins_of (frames info) bucket).
      set (x := linspace (inject_Z (frames info) / inject_Z (samplerate info)) bins).
      set (ch := Z.to_nat (Z.max 1 (channels info))).
      exists x, bins, ch. split; [|intros info' Hi _ _; injection Hi as <-; auto].
      assert (Hexc : forall k msg, run_shape job x bins ch (on_exception cancelled job k msg)).
      { intros k msg. exists [], (on_exception cancelled job k msg).
        split; [reflexivity|]. split; [constructor|].
        destruct (on_exception_facts k msg) as [-> | ->]; [left; reflexivity|].
        right. right. eexists. reflexivity. }
      destruct (points job =? 0); [apply Hexc|].
      destruct (af_open file); [apply Hexc|].
      assert (Hbucket : 1 <= bucket) by (unfold bucket, bucket_of; lia).
      assert (Hbins : 1 <= bins) by (unfold bins, bins_of; lia).
      destruct (stream_loop_signals x bucket bins ch (af_reads file) Hbucket Hbins
                  0%nat (zeros (Z.to_nat bins) ch) 0 0%Q) as [Hevs Hamp].
      { unfold shape0, zeros; simpl. apply repeat_length. }
      { reflexivity. }
      { lia. }
      { apply zeros_cells. apply zero_is_peak. }
      destruct (stream_loop cancelled monotonic job x bucket bins (af_reads file) 0
                  (zeros (Z.to_nat bins) ch) 0 0%Q) as [evs [[ex k] amp']].
      simpl in Hevs, Hamp. destruct Hamp as (Hs & Hc & Hp).
      assert (Hres : run_shape job x bins ch
                       (if cancelled (S k) then evs
                        else evs ++ [resultReady (request_id job) (path job) x amp'])).
      { destruct (cancelled (S k)).
        - exists evs, []. rewrite app_nil_r. auto.
        - exists evs, [resultReady (request_id job) (path job) x amp'].
          split; [reflexivity|]. split; [exact Hevs|]. right. left.
          exists amp'. auto. }
      destruct ex; try exact Hres.
      exists evs, (on_exception cancelled job (S k) msg).
      split; [reflexivity|]. split; [exact Hevs|].
      destruct (on_exception_facts (S k) msg) as [-> | ->]; [left; reflexivity|].
      right. right. eexists. reflexivity.
  - exists [], 0, 0%nat. split; [|intros info Hi; discriminate].
    exists [], (on_exception cancelled job 0 msg).
    split; [reflexivity|]. split; [constructor|].
    destruct (on_exception_facts 0 msg) as [-> | ->]; [left; reflexivity|].
    right. right. eexists. reflexivity.
Qed.

End Signals.

(** X1. Whatever the file, the cancellation flag and the clock, a job emits
    progress signals and then at most one closing signal, which is not a
    progress signal; and every signal carries the job's request id and path. *)
Theorem signals_are_progress_then_one_outcome
    (cancelled : nat -> bool) (monotonic : nat -> Q) (job : WaveformJob)
    (file : AudioFile) :
  exists ps final,
    run cancelled monotonic job file = ps ++ final /\
    Forall (fun e => is_progress e = true) ps /\
    (length final <= 1)%nat /\
    Forall (fun e => is_progress e = false) final /\
    Forall (fun e => event_origin e = (request_id job, path job))
      (run cancelled monotonic job file).
Proof.
  destruct (run_has_shape cancelled monotonic job file)
    as (x & bins & ch & (ps & final & Hrun & Hps & Hfinal) & _).
  destruct (good_progress_facts job x bins ch ps Hps) as (Hprog & Horig & _).
  exists ps, final. rewrite Hrun. repeat split; auto.
  - destruct Hfinal as [-> | [(amp & -> & _) | (msg & ->)]]; simpl; lia.
  - destruct Hfinal as [-> | [(amp & -> & _) | (msg & ->)]]; repeat constructor.
  - apply Forall_app. split; [exact Horig|].
    destruct Hfinal as [-> | [(amp & -> & _) | (msg & ->)]]; repeat constructor.
Qed.

(** X2. For a file with frames and a sample rate, every array a job emits
    fits the waveform: the time axis has [bins] points, every amplitude array
    has [bins] rows and [max(1, channels)] columns, and a progress signal
    reports [bins] as the total and a filled count between 0 and [bins]. *)
Theorem emitted_arrays_fit_the_bins
    (cancelled : nat -> bool) (monotonic : nat -> Q) (job : WaveformJob)
    (file : AudioFile) (info : StreamInfo) :
  af_info file = inl info -> 0 < frames info -> 0 < samplerate info ->
  let bins := bins_of (frames info) (bucket_of (frames info) (points job)) in
  let x := linspace (inject_Z (frames info) / inject_Z (samplerate info)) bins in
  length x = Z.to_nat bins /\
  Forall (aligned_signal x bins (Z.to_nat (Z.max 1 (channels info))))
    (run cancelled monotonic job file).
Proof.
  intros Hinfo HF HR bins x. split; [apply length_linspace|].
  destruct (run_has_shape cancelled monotonic job file)
    as (x' & bins' & ch & (ps & final & Hrun & Hps & Hfinal) & Hid).
  destruct (Hid info Hinfo HF HR) as (-> & -> & ->).
  rewrite Hrun. apply Forall_app. split.
  - apply (good_progress_facts job _ _ _ ps Hps).
  - destruct Hfinal as [-> | [(amp & -> & Hs & Hc & _) | (msg & ->)]];
      repeat constructor; auto.
Qed.

Lemma emitted_arrays_fit_the_bins_witness :
  Forall (aligned_signal (linspace (4 # 4) 2) 2 1)
    (run (fun _ => false) (fun _ => 1%Q) Examples.mono_job Examples.mono_file).
Proof.
  refine (proj2 (emitted_arrays_fit_the_bins (fun _ => false) (fun _ => 1%Q)
                   Examples.mono_job Examples.mono_file (mk_info 4 4 1) _ _ _));
    [reflexivity | simpl; lia | simpl; lia].
Defined.

(** X3. Every amplitude a job emits, in a progress signal or in the result,
    is a peak magnitude: it is not negative (or it is NaN, when the file
    holds a NaN sample). *)
Theorem emitted_peaks_are_not_negative
    (cancelled : nat -> bool) (monotonic : nat -> Q) (job : WaveformJob)
    (file : AudioFile) :
  Forall peaks_signal (run cancelled monotonic job file).
Proof.
  destruct (run_has_shape cancelled monotonic job file)
    as (x & bins & ch & (ps & final & Hrun & Hps & Hfinal) & _).
  rewrite Hrun. apply Forall_app. split.
  - apply (good_progress_facts job _ _ _ ps Hps).
  - destruct Hfinal as [-> | [(amp & -> & _ & _ & Hp) | (msg & ->)]];
      repeat constructor; auto.
Qed.

Section ReadError.

Variable cancelled : nat -> bool.
Variable monotonic : nat -> Q.
Variable job : WaveformJob.
Hypothesis never_cancelled : forall k, cancelled k = false.

Lemma stream_loop_raises (x : list Q) (bucket bins : Z) (good rest : list ReadResult)
    (msg : string) :
  1 <= bucket -> 1 <= bins -> Forall readable good ->
  forall (i : nat) (amp : ndarray2) (pos : Z) (last_emit : Q),
    wf amp -> Z.of_nat (shape0 amp) = bins -> 0 <= pos ->
    exists evs k amp',
      stream_loop cancelled monotonic job x bucket bins (good ++ ReadError msg :: rest)
        i amp pos last_emit = (evs, (ExitRaised msg, k, amp')) /\
      Forall (fun e => is_progress e = true) evs.
Proof.
  intros Hb Hn. induction 1 as [|rd good Hrd Hgood IH]; intros i amp pos last_emit Hwf Hs Hpos.
  - simpl. rewrite never_cancelled. eexists [], i, amp. split; [reflexivity | constructor].
  - simpl. rewrite never_cancelled.
    destruct rd as [chunk|m]; simpl in Hrd; [|contradiction].
    destruct Hrd as [Hwfc Hsize]. apply Nat.eqb_neq in Hsize. rewrite Hsize.
    destruct (process_chunk_spec bucket bins Hb Hn amp chunk pos Hwf Hwfc Hs Hpos)
      as (amp1 & -> & Hwf1 & Hn1 & Hs1 & _).
    match goal with |- context [stream_loop _ _ _ _ _ _ _ ?i' ?a' ?p' ?l'] =>
      destruct (IH i' a' p' l' Hwf1 ltac:(lia) ltac:(lia)) as (evs & k & amp' & -> & Hevs) end.
    eexists _, k, amp'. split; [reflexivity|].
    apply Forall_app. split; [|exact Hevs].
    destruct (emit_progress job && _); repeat constructor.
Qed.

(** X4. When a read raises in the middle of the stream and the job is not
    cancelled, the job closes with [errorRaised] carrying the text of the
    exception, after progress signals only: no result is emitted. *)
Theorem read_error_is_reported (file : AudioFile) (info : StreamInfo)
    (good rest : list ReadResult) (msg : string) :
  af_info file = inl info -> 0 < frames info -> 0 < samplerate info ->
  points job <> 0 -> af_open file = None ->
  af_reads file = good ++ ReadError msg :: rest -> Forall readable good ->
  exists ps,
    run cancelled monotonic job file
    = ps ++ [errorRaised (request_id job) (path job) msg] /\
    Forall (fun e => is_progress e = true) ps.
Proof.
  intros Hinfo HF HR HT Hopen Hreads Hgood. unfold run. rewrite Hinfo.
  replace (frames info <=? 0) with false by (symmetry; apply Z.leb_gt; lia).
  replace (samplerate info <=? 0) with false by (symmetry; apply Z.leb_gt; lia).
  replace (points job =? 0) with false by (symmetry; apply Z.eqb_neq; lia).
  simpl orb. cbv iota. rewrite Hopen, Hreads.
  set (bucket := bucket_of (frames info) (points job)).
  set (bins := bins_of (frames info) bucket).
  destruct (stream_loop_raises
              (linspace (inject_Z (frames info) / inject_Z (samplerate info)) bins)
              bucket bins good rest msg
              ltac:(unfold bucket, bucket_of; lia) ltac:(unfold bins, bins_of; lia) Hgood
              0%nat (zeros (Z.to_nat bins) (Z.to_nat (Z.max 1 (channels info)))) 0 0%Q)
    as (evs & k & amp' & -> & Hevs).
  { apply wf_zeros. }
  { unfold shape0, zeros; simpl. rewrite repeat_length. unfold bins, bins_of. lia. }
  { lia. }
  exists evs. unfold on_exception. rewrite never_cancelled. auto.
Qed.

End ReadError.

Lemma read_error_is_reported_witness :
  exists ps,
    run (fun _ => false) (fun _ => 1%Q) Examples.mono_job Examples.broken_file
    = ps ++ [errorRaised 1 "a.wav" "read failed"] /\
    Forall (fun e => is_progress e = true) ps.
Proof.
  apply (read_error_is_reported (fun _ => false) (fun _ => 1%Q) Examples.mono_job
           (fun _ => eq_refl) Examples.broken_file (mk_info 4 4 1)
           [ReadChunk (mk_ndarray2 1 [[Examples.half]; [Examples.minus_one]])] []
           "read failed"); try reflexivity; try (simpl; lia).
  repeat constructor. discriminate.
Defined.

(** X5. In a file of fewer than 2^53 frames, for a position inside the frame
    count of the header, the bin index is [pos / bucket] itself and lies below
    [bins]: the clamp to [bins - 1] only acts on frames beyond the announced
    length. *)
Theorem clamp_is_idle_inside_the_file (F T pos : Z) :
  0 < F -> F < 2 ^ 53 -> 1 <= T -> 0 <= pos < F ->
  let bucket := bucket_of F T in
  let bins := bins_of F bucket in
  bin_index bucket bins pos = pos / bucket /\ 0 <= pos / bucket < bins.
Proof.
  intros HF HF53 HT Hpos bucket bins.
  assert (Hbucket : 1 <= bucket) by (unfold bucket, bucket_of; lia).
  pose proof (WaveformFacts.bins_is_a_ceiling F bucket ltac:(lia) Hbucket) as Hn.
  fold bins in Hn.
  assert (Hq : 0 <= pos / bucket < bins).
  { split; [apply Z.div_pos; lia|]. apply Z.div_lt_upper_bound; nia. }
  split; [|exact Hq]. unfold bin_index.
  destruct (pos / bucket >=? bins) eqn:E; [lia | reflexivity].
Qed.

Lemma clamp_is_idle_inside_the_file_witness :
  bin_index (bucket_of 48000 100) (bins_of 48000 (bucket_of 48000 100)) 47999
  = 47999 / bucket_of 48000 100 /\
  0 <= 47999 / bucket_of 48000 100 < bins_of 48000 (bucket_of 48000 100).
Proof. apply (clamp_is_idle_inside_the_file 48000 100 47999); lia. Defined.

End WaveformExtras.

(** ** The waveform cache and the scheduler of the jobs *)

Module ControllerExtras.

Import Np Waveform Controller Scheduler Reference DictFacts ControllerFacts.

Section DictMore.
Context {V : Type}.
Implicit Types (d : list (string * V)) (k : string) (v : V).

Lemma get_set_same k v d : Dict.get k (Dict.set k v d) = Some v.
Proof.
  induction d as [|[k' v'] d IH]; simpl.
  - rewrite String.eqb_refl. reflexivity.
  - destruct (String.eqb k k') eqn:E; simpl; rewrite E; [reflexivity | exact IH].
Qed.

Lemma get_app k d1 d2 :
  Dict.get k (d1 ++ d2) =
  match Dict.get k d1 with Some v => Some v | None => Dict.get k d2 end.
Proof.
  induction d1 as [|[k' v'] d1 IH]; simpl; [reflexivity|].
  destruct (String.eqb k k'); [reflexivity | exact IH].
Qed.

Lemma get_tl_absent k d : Dict.get k d = None -> Dict.get k (tl d) = None.
Proof.
  destruct d as [|[k' v'] d]; simpl; [auto|].
  destruct (String.eqb k k'); [discriminate | auto].
Qed.

Lemma get_tl_appended k v d :
  Dict.get k d = None -> d <> [] -> Dict.get k (tl (d ++ [(k, v)])) = Some v.
Proof.
  intros Hg Hne. destruct d as [|e0 rest]; [congruence|].
  simpl tl. rewrite get_app.
  pose proof (get_tl_absent k (e0 :: rest) Hg) as Ht. simpl tl in Ht. rewrite Ht.
  simpl. rewrite String.eqb_refl. reflexivity.
Qed.

End DictMore.

Lemma cache_get_after_store (p signature other : string) (x : list Q)
    (amp : ndarray2) (h : Host) :
  (length (wave_cache h) <= 40)%nat ->
  _cache_get (_cache_store p signature x amp h) p signature = Some (signature, x, amp) /\
  (other <> signature -> _cache_get (_cache_store p signature x amp h) p other = None).
Proof.
  intros Hlen.
  assert (Hget : Dict.get p (wave_cache (_cache_store p signature x amp h))
                 = Some (signature, x, amp)).
  { rewrite cache_store_cache. cbv zeta.
    pose proof (set_length p (signature, x, amp) (wave_cache h)) as Hset.
    unfold CacheEntry in *.
    destruct (40 <? _)%nat eqn:E; [|apply get_set_same].
    apply Nat.ltb_lt in E.
    case_get Hset Eg; [lia|].
    rewrite (set_absent _ _ _ Eg).
    apply get_tl_appended; [exact Eg|].
    intros Hnil. rewrite Hnil in *. simpl in *. lia. }
  unfold _cache_get. unfold CacheEntry in *. rewrite Hget. split.
  - rewrite String.eqb_refl. reflexivity.
  - intros Hne. apply not_eq_sym in Hne. apply String.eqb_neq in Hne. rewrite Hne.
    reflexivity.
Qed.

(** X6. A stored waveform is found again under its path and signature, and is
    not found under any other signature: a changed file or a changed
    resolution misses the cache. *)
Theorem stored_waveform_is_found (p signature other : string) (x : list Q)
    (amp : ndarray2) (h : Host) :
  (length (wave_cache h) <= 40)%nat ->
  _cache_get (_cache_store p signature x amp h) p signature = Some (signature, x, amp) /\
  (other <> signature -> _cache_get (_cache_store p signature x amp h) p other = None).
Proof.
  exact (cache_get_after_store p signature other x amp h).
Qed.

Lemma stored_waveform_is_found_witness :
  _cache_get (_cache_store "t40" "s" [0%Q] Examples.silent_amp Examples.full_cache_host)
    "t40" "s" = Some ("s"%string, [0%Q], Examples.silent_amp).
Proof.
  refine (proj1 (stored_waveform_is_found "t40" "s" "s" [0%Q] Examples.silent_amp
                   Examples.full_cache_host _)).
  vm_compute. lia.
Defined.


(** *** What the slots leave alone *)

Lemma align_lengths (x : list Q) (amp : ndarray2) :
  length (fst (_align_wave_channels x amp)) = shape0 (snd (_align_wave_channels x amp)).
Proof.
  unfold _align_wave_channels.
  destruct ((length x =? 0)%nat || (size amp =? 0)%nat); [reflexivity|].
  unfold shape0, map2d; simpl. rewrite !length_map, !length_firstn.
  unfold shape0. lia.
Qed.

Lemma set_waveform_keeps (x : list Q) (amp : ndarray2) (h : Host) :
  let h' := _set_waveform_from_channels x amp h in
  wave_cache h' = wave_cache h /\ wave_partial h' = wave_partial h /\
  _preload_queue h' = _preload_queue h /\ _preload_set h' = _preload_set h /\
  _active_wave_thread h' = _active_wave_thread h /\
  _preload_thread h' = _preload_thread h /\ started h' = started h /\
  _active_wave_request_id h' = _active_wave_request_id h /\
  _active_wave_path h' = _active_wave_path h /\
  _active_wave_signature h' = _active_wave_signature h /\
  _active_wave_failed h' = _active_wave_failed h /\
  _waveform_points h' = _waveform_points h /\
  _current_track_path h' = _current_track_path h.
Proof.
  unfold _set_waveform_from_channels.
  destruct (_align_wave_channels x amp) as [xa aa].
  destruct ((length xa =? 0)%nat || (size aa =? 0)%nat); simpl; repeat split.
Qed.

Lemma render_partial_keeps (p signature : string) (h : Host) :
  let h' := snd (_render_partial_for_path p signature h) in
  wave_cache h' = wave_cache h /\ wave_partial h' = wave_partial h /\
  _preload_queue h' = _preload_queue h /\ _preload_set h' = _preload_set h /\
  _active_wave_thread h' = _active_wave_thread h /\
  _preload_thread h' = _preload_thread h /\ started h' = started h /\
  _active_wave_request_id h' = _active_wave_request_id h /\
  _active_wave_path h' = _active_wave_path h /\
  _active_wave_signature h' = _active_wave_signature h /\
  _active_wave_failed h' = _active_wave_failed h /\
  _waveform_points h' = _waveform_points h /\
  _current_track_path h' = _current_track_path h.
Proof.
  unfold _render_partial_for_path.
  destruct (Dict.get p (wave_partial h)) as [[[[[psig px] pamp] pf] pt]|];
    [|simpl; repeat split].
  destruct (negb (String.eqb psig signature)); [simpl; repeat split|].
  destruct (_align_wave_channels px pamp) as [x amp].
  match goal with |- context [if ?c then _clear_waveform_plot h else ?e] =>
    destruct c; [simpl; repeat split|] end.
  match goal with |- context [_set_waveform_from_channels ?a ?b h] =>
    pose proof (set_waveform_keeps a b h) as K end.
  simpl in *. exact K.
Qed.

(** X7. An accepted progress signal of the active job stores, under the
    job's path, the job's signature with the aligned arrays (time axis and
    amplitude rows of equal length) and a filled count between 0 and the
    total, the total being at least 1; the waveform cache is left alone. *)
Theorem accepted_progress_is_stored (suppressed : bool) (rid : Z) (p : string)
    (x : list Q) (amp : ndarray2) (filled total : Z) (h : Host) :
  rid = _active_wave_request_id h -> p = _active_wave_path h ->
  let h' := _on_active_wave_progress suppressed rid p x amp filled total h in
  wave_cache h' = wave_cache h /\
  exists f t,
    Dict.get p (wave_partial h')
    = Some (_active_wave_signature h, fst (_align_wave_channels x amp),
            snd (_align_wave_channels x amp), f, t) /\
    length (fst (_align_wave_channels x amp)) = shape0 (snd (_align_wave_channels x amp)) /\
    0 <= f <= t /\ 1 <= t.
Proof.
  intros Hrid Hp h'. unfold h', _on_active_wave_progress.
  rewrite <- Hrid, <- Hp. rewrite Z.eqb_refl, String.eqb_refl. simpl orb. cbv iota.
  destruct (_align_wave_channels x amp) as [xa aa] eqn:Ealign.
  set (t := if total <=? 0 then Z.max 1 (Z.of_nat (shape0 aa)) else total).
  set (f := Z.max 0 (Z.min filled t)).
  set (h1 := set_wave_partial _ h).
  assert (Ht : 1 <= t) by (unfold t; destruct (total <=? 0) eqn:E; lia).
  assert (Hget : Dict.get p (wave_partial h1)
                 = Some (_active_wave_signature h, xa, aa, f, t)).
  { unfold h1. simpl. apply get_set_same. }
  assert (Hlen : length xa = shape0 aa).
  { pose proof (align_lengths x amp) as H. rewrite Ealign in H. exact H. }
  assert (Hfinal : forall h2, wave_cache h2 = wave_cache h1 ->
                              wave_partial h2 = wave_partial h1 ->
            wave_cache h2 = wave_cache h /\
            exists f t, Dict.get p (wave_partial h2)
                        = Some (_active_wave_signature h, xa, aa, f, t) /\
                        length xa = shape0 aa /\ 0 <= f <= t /\ 1 <= t).
  { intros h2 Hc Hpart. split; [rewrite Hc; reflexivity|].
    exists f, t. rewrite Hpart. repeat split; auto; unfold f; lia. }
  destruct (String.eqb (_current_track_path h1) p); [|apply Hfinal; reflexivity].
  destruct suppressed; [apply Hfinal; reflexivity|].
  pose proof (render_partial_keeps p (_active_wave_signature h1) h1) as K.
  simpl in K. apply Hfinal; apply K.
Qed.

Lemma accepted_progress_is_stored_witness :
  let h' := _on_active_wave_progress false 0 "" [0%Q] Examples.silent_amp 5 2
              Examples.empty_host in
  wave_cache h' = [] /\
  exists f t,
    Dict.get ""%string (wave_partial h')
    = Some (""%string, fst (_align_wave_channels [0%Q] Examples.silent_amp),
            snd (_align_wave_channels [0%Q] Examples.silent_amp), f, t) /\
    length (fst (_align_wave_channels [0%Q] Examples.silent_amp))
    = shape0 (snd (_align_wave_channels [0%Q] Examples.silent_amp)) /\
    0 <= f <= t /\ 1 <= t.
Proof.
  apply (accepted_progress_is_stored false 0 "" [0%Q] Examples.silent_amp 5 2
           Examples.empty_host); reflexivity.
Defined.


Section Preload.

Variable stat : string -> option (Z * Z).

Lemma start_preload_worker_keeps (p signature : string) (emit : bool) (pts : Z) (h : Host) :
  let h' := _start_preload_wave_worker p signature emit pts h in
  wave_cache h' = wave_cache h /\ wave_partial h' = wave_partial h /\
  _preload_queue h' = _preload_queue h /\ _preload_set h' = _preload_set h /\
  _active_wave_thread h' = _active_wave_thread h /\
  _active_wave_request_id h' = _active_wave_request_id h /\
  _active_wave_path h' = _active_wave_path h /\
  _active_wave_signature h' = _active_wave_signature h /\
  _preload_thread h' = Some (mk_job (_preload_request_id h + 1) p pts emit (16 # 100)) /\
  started h' = started h ++ [mk_job (_preload_request_id h + 1) p pts emit (16 # 100)].
Proof. simpl. repeat split. Qed.

(** What [next_preload_loop] does to the fields it does not own, and what it
    starts. *)
Lemma next_preload_loop_frame (queue : list string) :
  forall h : Host,
    _preload_queue h = queue -> _preload_thread h = None ->
    let h' := next_preload_loop stat queue h in
    (wave_cache h' = wave_cache h /\ wave_partial h' = wave_partial h /\
     _active_wave_thread h' = _active_wave_thread h /\
     _active_wave_request_id h' = _active_wave_request_id h /\
     _active_wave_path h' = _active_wave_path h /\
     _active_wave_signature h' = _active_wave_signature h) /\
    ((_preload_thread h' = None /\ _preload_queue h' = [] /\ started h' = started h) \/
     exists j,
       _preload_thread h' = Some j /\ started h' = started h ++ [j] /\
       In (path j) queue /\ path j <> _active_wave_path h /\
       request_id j = _preload_request_id h + 1 /\
       emit_progress j = String.eqb (path j) (_current_track_path h) /\
       exists s, _file_signature stat (path j) (Some (_waveform_points h)) = Some s /\
                 _cache_get h (path j) s = None).
Proof.
  induction queue as [|p rest IH]; intros h Hq Ht.
  - simpl. split; [repeat split|]. left. auto.
  - cbn [next_preload_loop]. cbv zeta.
    set (h1 := set_preload_queue rest (set_preload_set _ h)).
    assert (Hrec :
      let h' := next_preload_loop stat rest h1 in
      (wave_cache h' = wave_cache h /\ wave_partial h' = wave_partial h /\
       _active_wave_thread h' = _active_wave_thread h /\
       _active_wave_request_id h' = _active_wave_request_id h /\
       _active_wave_path h' = _active_wave_path h /\
       _active_wave_signature h' = _active_wave_signature h) /\
      ((_preload_thread h' = None /\ _preload_queue h' = [] /\ started h' = started h) \/
       exists j,
         _preload_thread h' = Some j /\ started h' = started h ++ [j] /\
         In (path j) (p :: rest) /\ path j <> _active_wave_path h /\
         request_id j = _preload_request_id h + 1 /\
         emit_progress j = String.eqb (path j) (_current_track_path h) /\
         exists s, _file_signature stat (path j) (Some (_waveform_points h)) = Some s /\
                   _cache_get h (path j) s = None)).
    { destruct (IH h1 eq_refl Ht) as [Hframe Hout]. split; [exact Hframe|].
      destruct Hout as [Hidle | (j & A & B & C & D & E & F & G)]; [left; exact Hidle|].
      right. exists j. repeat split; auto. right. exact C. }
    destruct (String.eqb p (_active_wave_path h1)) eqn:Eact; [exact Hrec|].
    change (_waveform_points h1) with (_waveform_points h).
    destruct (_file_signature stat p (Some (_waveform_points h))) as [signature|] eqn:Esig;
      [|exact Hrec].
    destruct (_cache_get h1 p signature) eqn:Eget; [exact Hrec|].
    split; [repeat split|]. right.
    eexists. split; [reflexivity|]. split; [reflexivity|]. simpl.
    repeat split; auto.
    + apply String.eqb_neq. exact Eact.
    + exists signature. split; [exact Esig | exact Eget].
Qed.

(** X8. With no preload job running, [_start_next_preload] either finds
    nothing to do and leaves the queue empty, or starts exactly one job: for a
    queued path that is not the active path and has no cached waveform under
    its current signature, with the next preload request id, emitting progress
    exactly when its track is the displayed one.  The cache and the active
    job are left alone. *)
Theorem start_next_preload_outcome (h : Host) :
  _preload_thread h = None ->
  let h' := _start_next_preload stat h in
  wave_cache h' = wave_cache h /\
  _active_wave_thread h' = _active_wave_thread h /\
  ((_preload_thread h' = None /\ _preload_queue h' = [] /\ started h' = started h) \/
   exists j,
     _preload_thread h' = Some j /\ started h' = started h ++ [j] /\
     In (path j) (_preload_queue h) /\ path j <> _active_wave_path h /\
     request_id j = _preload_request_id h + 1 /\
     emit_progress j = String.eqb (path j) (_current_track_path h) /\
     exists s, _file_signature stat (path j) (Some (_waveform_points h)) = Some s /\
               _cache_get h (path j) s = None).
Proof.
  intros Et. unfold _start_next_preload. rewrite Et.
  destruct (next_preload_loop_frame (_preload_queue h) h eq_refl Et)
    as [(A & B & C & D & E & F) Hout].
  cbv zeta. split; [exact A|]. split; [exact C|]. exact Hout.
Qed.

Lemma remove_from_queue_keeps (p : string) (h : Host) :
  let h' := _remove_from_preload_queue p h in
  wave_cache h' = wave_cache h /\ wave_partial h' = wave_partial h /\
  _active_wave_thread h' = _active_wave_thread h /\
  _active_wave_request_id h' = _active_wave_request_id h /\
  _active_wave_path h' = _active_wave_path h /\
  _preload_thread h' = _preload_thread h /\
  _preload_request_id h' = _preload_request_id h /\
  _preload_path h' = _preload_path h /\
  started h' = started h /\ _waveform_points h' = _waveform_points h.
Proof.
  unfold _remove_from_preload_queue.
  destruct (in_list p (_preload_set h)); simpl; repeat split.
Qed.


Lemma jobs_of_eq (a b : Host) :
  jobs_of a = jobs_of b ->
  wave_cache a = wave_cache b /\
  _active_wave_thread a = _active_wave_thread b /\
  _active_wave_request_id a = _active_wave_request_id b /\
  _preload_thread a = _preload_thread b /\
  _preload_request_id a = _preload_request_id b /\
  started a = started b.
Proof.
  unfold jobs_of. intros H. injection H as A B C D E F. repeat split; assumption.
Qed.

Lemma set_waveform_jobs (x : list Q) (amp : ndarray2) (h : Host) :
  jobs_of (_set_waveform_from_channels x amp h) = jobs_of h.
Proof.
  unfold _set_waveform_from_channels, jobs_of.
  destruct (_align_wave_channels x amp) as [xa aa].
  destruct ((length xa =? 0)%nat || (size aa =? 0)%nat); reflexivity.
Qed.

Lemma render_partial_jobs (p signature : string) (h : Host) :
  jobs_of (snd (_render_partial_for_path p signature h)) = jobs_of h.
Proof.
  unfold _render_partial_for_path.
  destruct (Dict.get p (wave_partial h)) as [[[[[psig px] pamp] pf] pt]|]; [|reflexivity].
  destruct (negb (String.eqb psig signature)); [reflexivity|].
  destruct (_align_wave_channels px pamp) as [x amp].
  match goal with |- context [if ?c then _clear_waveform_plot h else ?e] =>
    destruct c; [reflexivity|] end.
  match goal with |- context [_set_waveform_from_channels ?a ?b h] =>
    pose proof (set_waveform_jobs a b h) as K end.
  unfold jobs_of in *. simpl in *. exact K.
Qed.

Lemma remove_from_queue_jobs (p : string) (h : Host) :
  jobs_of (_remove_from_preload_queue p h) = jobs_of h.
Proof.
  unfold _remove_from_preload_queue, jobs_of.
  destruct (in_list p (_preload_set h)); reflexivity.
Qed.

Lemma load_effect (p : string) (h : Host) :
  let h' := _load_waveform_for_track stat p h in
  wave_cache h' = wave_cache h /\
  (exists new, started h' = started h ++ new /\ (length new <= 1)%nat) /\
  (forall j, _active_wave_thread h = Some j ->
             _active_wave_thread h' = Some j /\
             _active_wave_request_id h' = _active_wave_request_id h) /\
  (forall j, _preload_thread h = Some j ->
             (_preload_thread h' = Some j \/
              _preload_thread h' = Some (set_thread_emit_progress j)) /\
             _preload_request_id h' = _preload_request_id h).
Proof.
  unfold _load_waveform_for_track. cbv zeta.
  pose proof (remove_from_queue_jobs p h) as J0.
  set (h0 := _remove_from_preload_queue p h) in *.
  set (signature := signature_or_empty stat p h).
  assert (Hshape : forall h1, jobs_of h1 = jobs_of h ->
    wave_cache h1 = wave_cache h /\
    (exists new, started h1 = started h ++ new /\ (length new <= 1)%nat) /\
    (forall j, _active_wave_thread h = Some j ->
               _active_wave_thread h1 = Some j /\
               _active_wave_request_id h1 = _active_wave_request_id h) /\
    (forall j, _preload_thread h = Some j ->
               (_preload_thread h1 = Some j \/
                _preload_thread h1 = Some (set_thread_emit_progress j)) /\
               _preload_request_id h1 = _preload_request_id h)).
  { intros h1 Hj. unfold jobs_of in Hj. injection Hj as A B C D E F.
    split; [exact A|]. split; [exists []; rewrite app_nil_r; auto|].
    split; intros j Hjob; [split; congruence | split; [left; congruence | congruence]]. }
  assert (Hloading : forall h1, jobs_of h1 = jobs_of h ->
    jobs_of (let '(ok, h2) := _render_partial_for_path p signature h1 in
             if ok then h2
             else set_wave_load_label (LabelText "Waveform laden...")
                    (_clear_waveform_plot h2)) = jobs_of h).
  { intros h1 Hj. pose proof (render_partial_jobs p signature h1) as K.
    destruct (_render_partial_for_path p signature h1) as [ok h2]. simpl in K.
    destruct ok; [congruence|]. rewrite <- Hj, <- K. reflexivity. }
  destruct (_cache_get h0 p signature) as [[[s cx] camp]|].
  - (* cache hit *)
    set (h1 := set_wave_load_label _ (_set_waveform_from_channels cx camp h0)).
    assert (J1 : jobs_of h1 = jobs_of h).
    { rewrite <- J0, <- (set_waveform_jobs cx camp h0). reflexivity. }
    destruct (jobs_of_eq _ _ J1) as (A & B & C & D & E & F).
    unfold _start_next_preload. destruct (_preload_thread h1) as [t|] eqn:Et.
    + apply Hshape. exact J1.
    + destruct (next_preload_loop_frame (_preload_queue h1) h1 eq_refl Et)
        as [(A' & _ & C' & D' & _) Hout].
      split; [congruence|]. split.
      * destruct Hout as [(_ & _ & S) | (j & _ & S & _)].
        -- exists []. rewrite app_nil_r. split; [congruence | auto].
        -- exists [j]. split; [congruence | auto].
      * split; intros j Hjob; [split; congruence | congruence].
  - (* cache miss *)
    destruct (String.eqb (_active_wave_path h0) p
              && match _active_wave_thread h0 with Some _ => true | None => false end).
    + apply Hshape. apply Hloading. exact J0.
    + destruct (if String.eqb (_preload_path h0) p then _preload_thread h0 else None)
        as [pt|] eqn:Ept.
      * assert (Hpt : _preload_thread h0 = Some pt).
        { destruct (String.eqb (_preload_path h0) p); [exact Ept | discriminate]. }
        match goal with |- context [_render_partial_for_path p signature ?hh] =>
          pose proof (render_partial_jobs p signature hh) as K;
          destruct (_render_partial_for_path p signature hh) as [ok h2] end.
        simpl in K.
        destruct (jobs_of_eq _ _ J0) as (A & B & C & D & E & F).
        destruct (jobs_of_eq _ _ K) as (A2 & B2 & C2 & D2 & E2 & F2).
        simpl in A2, B2, C2, D2, E2, F2.
        assert (Hfin : forall h3, jobs_of h3 = jobs_of h2 ->
          wave_cache h3 = wave_cache h /\
          (exists new, started h3 = started h ++ new /\ (length new <= 1)%nat) /\
          (forall j, _active_wave_thread h = Some j ->
                     _active_wave_thread h3 = Some j /\
                     _active_wave_request_id h3 = _active_wave_request_id h) /\
          (forall j, _preload_thread h = Some j ->
                     (_preload_thread h3 = Some j \/
                      _preload_thread h3 = Some (set_thread_emit_progress j)) /\
                     _preload_request_id h3 = _preload_request_id h)).
        { intros h3 H3. destruct (jobs_of_eq _ _ H3) as (A3 & B3 & C3 & D3 & E3 & F3).
          split; [congruence|]. split; [exists []; rewrite app_nil_r; split; [congruence|auto]|].
          split; intros j Hjob; [split; congruence|].
          split; [right|congruence]. rewrite D3, D2.
          assert (pt = j) by congruence. subst. reflexivity. }
        destruct ok; apply Hfin; reflexivity.
      * set (h1 := set_wave_load_label _ (_clear_waveform_plot h0)).
        assert (J1 : jobs_of h1 = jobs_of h) by (rewrite <- J0; reflexivity).
        destruct (jobs_of_eq _ _ J1) as (A & B & C & D & E & F).
        destruct (_active_wave_thread h1) as [at1|] eqn:Eat.
        -- destruct (_preload_thread h1) as [pt1|] eqn:Ept1.
           ++ match goal with |- context [set_wave_load_label ?l ?hh] =>
                assert (J2 : jobs_of (set_wave_load_label l hh) = jobs_of h1) end.
              { destruct (in_list p (_preload_set h1)); reflexivity. }
              apply Hshape. rewrite J2. exact J1.
           ++ subst h1. simpl in *. split; [congruence|]. split.
              ** eexists [_]. split; [rewrite F; reflexivity | auto].
              ** split; intros j Hjob; [split; congruence | congruence].
        -- subst h1. simpl in *. split; [congruence|]. split.
           ++ eexists [_]. split; [rewrite F; reflexivity | auto].
           ++ split; intros j Hjob; [congruence|].
              split; [left; congruence | congruence].
Qed.

(** X9. Loading the waveform of a track starts at most one job and never
    replaces a running one: a running active job stays the active job, a
    running preload job stays the preload job (at most its progress flag is
    switched on), the request ids of running jobs are kept, and the waveform
    cache is not written. *)
Theorem load_never_replaces_a_running_job (p : string) (h : Host) :
  let h' := _load_waveform_for_track stat p h in
  wave_cache h' = wave_cache h /\
  (exists new, started h' = started h ++ new /\ (length new <= 1)%nat) /\
  (forall j, _active_wave_thread h = Some j ->
             _active_wave_thread h' = Some j /\
             _active_wave_request_id h' = _active_wave_request_id h) /\
  (forall j, _preload_thread h = Some j ->
             (_preload_thread h' = Some j \/
              _preload_thread h' = Some (set_thread_emit_progress j)) /\
             _preload_request_id h' = _preload_request_id h).
Proof.
  exact (load_effect p h).
Qed.

End Preload.


(** *** The preload queue and the preload set *)


Lemma queue_in_step_eq (h h' : Host) :
  queue_of h' = queue_of h -> queue_in_step h -> queue_in_step h'.
Proof.
  unfold queue_of, queue_in_step. intros H. injection H as -> ->. auto.
Qed.

Lemma in_list_iff (p : string) (l : list string) : in_list p l = true <-> In p l.
Proof.
  unfold in_list. rewrite existsb_exists. split.
  - intros (x & Hx & He). apply String.eqb_eq in He. subst. exact Hx.
  - intros H. exists p. split; [exact H | apply String.eqb_refl].
Qed.

Lemma in_list_not (p : string) (l : list string) : in_list p l = false <-> ~ In p l.
Proof.
  rewrite <- in_list_iff. destruct (in_list p l); split; congruence.
Qed.

Lemma In_without (p q : string) (l : list string) :
  In q (filter (fun r => negb (String.eqb r p)) l) <-> In q l /\ q <> p.
Proof.
  rewrite filter_In, negb_true_iff, String.eqb_neq. reflexivity.
Qed.

Lemma queue_in_step_without (p : string) (queue set : list string) (h : Host) :
  _preload_queue h = filter (fun r => negb (String.eqb r p)) queue ->
  _preload_set h = filter (fun r => negb (String.eqb r p)) set ->
  NoDup queue -> NoDup set -> (forall q, In q queue <-> In q set) ->
  queue_in_step h.
Proof.
  intros Hq Hs Nq Ns Hin. unfold queue_in_step. rewrite Hq, Hs.
  split; [apply NoDup_filter; exact Nq|]. split; [apply NoDup_filter; exact Ns|].
  intros q. rewrite !In_without, Hin. reflexivity.
Qed.

Lemma queue_in_step_with (p : string) (queue set : list string) (h : Host) :
  (_preload_queue h = p :: queue \/ _preload_queue h = queue ++ [p]) ->
  _preload_set h = p :: set ->
  NoDup queue -> NoDup set -> (forall q, In q queue <-> In q set) -> ~ In p set ->
  queue_in_step h.
Proof.
  intros Hq Hs Nq Ns Hin Hp. unfold queue_in_step. rewrite Hs.
  assert (Hpq : ~ In p queue) by (rewrite Hin; exact Hp).
  destruct Hq as [-> | ->].
  - split; [constructor; assumption|]. split; [constructor; assumption|].
    intros q. simpl. rewrite Hin. reflexivity.
  - split.
    + apply NoDup_app; [exact Nq | repeat constructor; simpl; tauto |].
      intros a Ha [<-|[]]. contradiction.
    + split; [constructor; assumption|].
      intros q. rewrite in_app_iff. simpl. rewrite Hin. tauto.
Qed.

Lemma remove_keeps_queue_in_step (p : string) (h : Host) :
  queue_in_step h -> queue_in_step (_remove_from_preload_queue p h).
Proof.
  intros (Nq & Ns & Hin). unfold _remove_from_preload_queue.
  destruct (in_list p (_preload_set h)); [|repeat split; auto; apply Hin].
  apply (queue_in_step_without p (_preload_queue h) (_preload_set h));
    [reflexivity | reflexivity | auto ..].
Qed.

Lemma set_waveform_queue (x : list Q) (amp : ndarray2) (h : Host) :
  queue_of (_set_waveform_from_channels x amp h) = queue_of h.
Proof.
  unfold _set_waveform_from_channels, queue_of.
  destruct (_align_wave_channels x amp) as [xa aa].
  destruct ((length xa =? 0)%nat || (size aa =? 0)%nat); reflexivity.
Qed.

Lemma render_partial_queue (p signature : string) (h : Host) :
  queue_of (snd (_render_partial_for_path p signature h)) = queue_of h.
Proof.
  pose proof (render_partial_keeps p signature h) as (_ & _ & A & B & _).
  unfold queue_of. rewrite A, B. reflexivity.
Qed.

Lemma cache_store_queue (p signature : string) (x : list Q) (amp : ndarray2) (h : Host) :
  queue_of (_cache_store p signature x amp h) = queue_of h.
Proof. reflexivity. Qed.

(** *** The two job slots *)


Lemma slots_in_step_eq (h h' : Host) :
  slots_of h' = slots_of h -> slots_in_step h -> slots_in_step h'.
Proof.
  unfold slots_of, slots_in_step. intros H. injection H as -> -> -> -> -> ->. auto.
Qed.

Lemma set_waveform_slots (x : list Q) (amp : ndarray2) (h : Host) :
  slots_of (_set_waveform_from_channels x amp h) = slots_of h.
Proof.
  unfold _set_waveform_from_channels, slots_of.
  destruct (_align_wave_channels x amp) as [xa aa].
  destruct ((length xa =? 0)%nat || (size aa =? 0)%nat); reflexivity.
Qed.

Lemma render_partial_slots (p signature : string) (h : Host) :
  slots_of (snd (_render_partial_for_path p signature h)) = slots_of h.
Proof.
  unfold _render_partial_for_path.
  destruct (Dict.get p (wave_partial h)) as [[[[[psig px] pamp] pf] pt]|]; [|reflexivity].
  destruct (negb (String.eqb psig signature)); [reflexivity|].
  destruct (_align_wave_channels px pamp) as [x amp].
  match goal with |- context [if ?c then _clear_waveform_plot h else ?e] =>
    destruct c; [reflexivity|] end.
  match goal with |- context [_set_waveform_from_channels ?a ?b h] =>
    pose proof (set_waveform_slots a b h) as K end.
  unfold slots_of in *. simpl in *. exact K.
Qed.

Lemma remove_from_queue_slots (p : string) (h : Host) :
  slots_of (_remove_from_preload_queue p h) = slots_of h.
Proof.
  unfold _remove_from_preload_queue, slots_of.
  destruct (in_list p (_preload_set h)); reflexivity.
Qed.

Section Invariants.

Variable stat : string -> option (Z * Z).

Lemma next_preload_loop_queue (queue : list string) :
  forall h : Host,
    _preload_queue h = queue -> queue_in_step h ->
    queue_in_step (next_preload_loop stat queue h).
Proof.
  induction queue as [|p rest IH]; intros h Hq Hinv; [exact Hinv|].
  cbn [next_preload_loop]. cbv zeta.
  set (h1 := set_preload_queue rest (set_preload_set _ h)).
  assert (H1 : queue_in_step h1).
  { destruct Hinv as (Nq & Ns & Hin). rewrite Hq in Nq, Hin.
    apply NoDup_cons_iff in Nq. destruct Nq as [Hp Nrest].
    unfold queue_in_step, h1. simpl.
    split; [exact Nrest|]. split; [apply NoDup_filter; exact Ns|].
    intros q. rewrite In_without, <- Hin. simpl. split.
    - intros Hq'. split; [auto|]. intros ->. contradiction.
    - intros [[<-|Hq'] Hne]; [congruence | exact Hq']. }
  assert (Hrec : queue_in_step (next_preload_loop stat rest h1))
    by (apply IH; [reflexivity | exact H1]).
  destruct (String.eqb p (_active_wave_path h1)); [exact Hrec|].
  destruct (_file_signature stat p (Some (_waveform_points h1))); [|exact Hrec].
  destruct (_cache_get h1 p s); [exact Hrec|].
  eapply queue_in_step_eq; [|exact H1]. reflexivity.
Qed.

Lemma start_next_preload_queue (h : Host) :
  queue_in_step h -> queue_in_step (_start_next_preload stat h).
Proof.
  intros Hinv. unfold _start_next_preload.
  destruct (_preload_thread h); [exact Hinv|].
  apply next_preload_loop_queue; [reflexivity | exact Hinv].
Qed.

Lemma enqueue_one_queue (h : Host) (p : string) :
  queue_in_step h -> queue_in_step (enqueue_one stat h p).
Proof.
  intros Hinv. unfold enqueue_one.
  destruct (String.eqb p (_active_wave_path h) || String.eqb p (_preload_path h));
    [exact Hinv|].
  destruct (in_list p (_preload_set h)) eqn:Ein; [exact Hinv|].
  destruct (_file_signature stat p (Some (_waveform_points h))); [|exact Hinv].
  destruct (_cache_get h p s); [exact Hinv|].
  destruct Hinv as (Nq & Ns & Hin).
  eapply (queue_in_step_with p (_preload_queue h) (_preload_set h));
    [right; reflexivity | reflexivity | auto ..].
  apply in_list_not. exact Ein.
Qed.

Lemma enqueue_preload_queue (paths : list string) (h : Host) :
  queue_in_step h -> queue_in_step (_enqueue_preload stat paths h).
Proof.
  intros Hinv. unfold _enqueue_preload. apply start_next_preload_queue.
  revert h Hinv. induction paths as [|p paths IH]; intros h Hinv; [exact Hinv|].
  simpl. apply IH. apply enqueue_one_queue. exact Hinv.
Qed.

Lemma load_queue (p : string) (h : Host) :
  queue_in_step h -> queue_in_step (_load_waveform_for_track stat p h).
Proof.
  intros Hinv. apply (remove_keeps_queue_in_step p) in Hinv.
  unfold _load_waveform_for_track. cbv zeta.
  set (h0 := _remove_from_preload_queue p h) in *.
  set (signature := signature_or_empty stat p h).
  assert (Hloading : forall h1, queue_in_step h1 ->
    queue_in_step (let '(ok, h2) := _render_partial_for_path p signature h1 in
                   if ok then h2
                   else set_wave_load_label (LabelText "Waveform laden...")
                          (_clear_waveform_plot h2))).
  { intros h1 H1. pose proof (render_partial_queue p signature h1) as K.
    destruct (_render_partial_for_path p signature h1) as [ok h2]. simpl in K.
    destruct ok; (eapply queue_in_step_eq; [|exact H1]); [exact K|].
    rewrite <- K. reflexivity. }
  destruct (_cache_get h0 p signature) as [[[s cx] camp]|].
  - apply start_next_preload_queue.
    eapply queue_in_step_eq; [|exact Hinv].
    rewrite <- (set_waveform_queue cx camp h0). reflexivity.
  - destruct (String.eqb (_active_wave_path h0) p
              && match _active_wave_thread h0 with Some _ => true | None => false end).
    + apply Hloading. exact Hinv.
    + destruct (if String.eqb (_preload_path h0) p then _preload_thread h0 else None).
      * apply Hloading. eapply queue_in_step_eq; [|exact Hinv]. reflexivity.
      * set (h1 := set_wave_load_label _ (_clear_waveform_plot h0)).
        assert (H1 : queue_in_step h1)
          by (eapply queue_in_step_eq; [|exact Hinv]; reflexivity).
        destruct (_active_wave_thread h1);
          [|eapply queue_in_step_eq; [|exact H1]; reflexivity].
        destruct (_preload_thread h1);
          [|eapply queue_in_step_eq; [|exact H1]; reflexivity].
        destruct (in_list p (_preload_set h1)) eqn:Ein.
        -- eapply queue_in_step_eq; [|exact H1]. reflexivity.
        -- destruct H1 as (Nq & Ns & Hin).
           eapply (queue_in_step_with p (_preload_queue h1) (_preload_set h1));
             [left; reflexivity | reflexivity | auto ..].
           apply in_list_not. exact Ein.
Qed.

Lemma stop_preload_queue (requeue : bool) (h : Host) :
  queue_in_step h -> queue_in_step (fst (_stop_preload_worker requeue h)).
Proof.
  intros Hinv. unfold _stop_preload_worker. cbv zeta. simpl fst.
  set (p := if requeue then _preload_path h else ""%string).
  match goal with |- context [if ?c then set_preload_set _ _ else _] =>
    destruct c eqn:E end.
  - apply andb_true_iff in E. destruct E as [_ E]. apply negb_true_iff in E.
    simpl in E. apply in_list_not in E. destruct Hinv as (Nq & Ns & Hin).
    apply (queue_in_step_with p (_preload_queue h) (_preload_set h));
      [left; reflexivity | reflexivity | auto ..].
  - eapply queue_in_step_eq; [|exact Hinv]. reflexivity.
Qed.

Lemma active_thread_finished_queue (rid : Z) (h : Host) :
  queue_in_step h -> queue_in_step (_on_active_wave_thread_finished stat rid h).
Proof.
  intros Hinv. unfold _on_active_wave_thread_finished.
  destruct (negb (rid =? _active_wave_request_id h)); [exact Hinv|]. cbv zeta.
  match goal with |- context [if ?c then _ else _] => destruct c end.
  - eapply queue_in_step_eq; [|exact Hinv]. reflexivity.
  - apply start_next_preload_queue. eapply queue_in_step_eq; [|exact Hinv]. reflexivity.
Qed.

Lemma set_resolution_queue (points : Z) (save : bool) (h : Host) :
  queue_in_step h ->
  queue_in_step (fst (fst (_set_waveform_resolution stat points save h))).
Proof.
  intros Hinv. unfold _set_waveform_resolution. cbv zeta.
  destruct (_ =? _waveform_points h); [exact Hinv|].
  unfold _stop_active_wave_worker.
  match goal with |- context [_stop_preload_worker false ?hh] =>
    pose proof (stop_preload_queue false hh) as K;
    destruct (_stop_preload_worker false hh) as [h2 c2] end.
  simpl in K. simpl fst.
  assert (H2 : queue_in_step h2)
    by (apply K; eapply queue_in_step_eq; [|exact Hinv]; reflexivity).
  destruct (negb _); [|exact H2].
  apply enqueue_preload_queue, load_queue. exact H2.
Qed.

Lemma slot_queue (c : Call) (h : Host) :
  match c with
  | ActiveProgress _ _ _ _ _ _ _ | ActiveFinished _ _ _ _ | ActiveFailed _ _ _
  | PreloadProgress _ _ _ _ _ _ _ | PreloadFinished _ _ _ _ | PreloadFailed _ _
  | StopActive => queue_of (call stat c h) = queue_of h
  | _ => True
  end.
Proof.
  destruct c; try exact I; simpl.
  - reflexivity.
  - unfold _on_active_wave_progress.
    destruct (_ || _); [reflexivity|].
    destruct (_align_wave_channels x amp) as [xa aa]. cbv zeta.
    match goal with |- context [_render_partial_for_path ?a ?b ?hh] =>
      pose proof (render_partial_queue a b hh) as K end.
    destruct (String.eqb _ p); [|reflexivity].
    destruct suppressed; [reflexivity|]. rewrite K. reflexivity.
  - unfold _on_active_wave_finished.
    destruct (_ || _); [reflexivity|].
    destruct (_align_wave_channels x amp) as [xa aa]. cbv zeta.
    destruct (String.eqb _ p); [|reflexivity].
    match goal with |- context [_set_waveform_from_channels ?a ?b ?hh] =>
      pose proof (set_waveform_queue a b hh) as K end.
    unfold queue_of in *. simpl in *. rewrite K. reflexivity.
  - unfold _on_active_wave_failed.
    destruct (_ || _); [reflexivity|]. cbv zeta.
    destruct (String.eqb _ p); reflexivity.
  - unfold _on_preload_progress.
    destruct (_ || _); [reflexivity|].
    destruct (_align_wave_channels x amp) as [xa aa]. cbv zeta.
    match goal with |- context [_render_partial_for_path ?a ?b ?hh] =>
      pose proof (render_partial_queue a b hh) as K end.
    destruct (String.eqb _ p); [|reflexivity].
    destruct suppressed; [reflexivity|]. rewrite K. reflexivity.
  - unfold _on_preload_finished.
    destruct (_ || _); [reflexivity|].
    destruct (_align_wave_channels x amp) as [xa aa]. cbv zeta.
    destruct (String.eqb _ p); [|reflexivity].
    match goal with |- context [_set_waveform_from_channels ?a ?b ?hh] =>
      pose proof (set_waveform_queue a b hh) as K end.
    unfold queue_of in *. simpl in *. rewrite K. reflexivity.
  - unfold _on_preload_failed.
    destruct (_ || _); [reflexivity|]. cbv zeta.
    destruct (String.eqb _ p); reflexivity.
Qed.

(** X10. Every entry point of the waveform scheduler keeps the preload
    queue and the preload set in step: the queue holds no path twice and
    holds exactly the paths of the set. *)
Theorem queue_stays_in_step (c : Call) (h : Host) :
  queue_in_step h -> queue_in_step (call stat c h).
Proof.
  intros Hinv. pose proof (slot_queue c h) as K.
  destruct c; try (eapply queue_in_step_eq; [exact K | exact Hinv]); simpl.
  - apply load_queue; exact Hinv.
  - apply enqueue_preload_queue; exact Hinv.
  - apply remove_keeps_queue_in_step; exact Hinv.
  - apply set_resolution_queue; exact Hinv.
  - apply stop_preload_queue; exact Hinv.
  - apply active_thread_finished_queue; exact Hinv.
  - unfold _on_preload_wave_thread_finished.
    destruct (negb _); [exact Hinv|].
    apply start_next_preload_queue. eapply queue_in_step_eq; [|exact Hinv]. reflexivity.
Qed.

Lemma next_preload_loop_slots (queue : list string) :
  forall h : Host,
    slots_in_step h -> slots_in_step (next_preload_loop stat queue h).
Proof.
  induction queue as [|p rest IH]; intros h Hinv; [exact Hinv|].
  cbn [next_preload_loop]. cbv zeta.
  set (h1 := set_preload_queue rest (set_preload_set _ h)).
  assert (H1 : slots_in_step h1)
    by (eapply slots_in_step_eq; [|exact Hinv]; reflexivity).
  pose proof (IH h1 H1) as Hrec.
  destruct (String.eqb p (_active_wave_path h1)); [exact Hrec|].
  destruct (_file_signature stat p (Some (_waveform_points h1))); [|exact Hrec].
  destruct (_cache_get h1 p s); [exact Hrec|].
  destruct H1 as [Ha _]. split; [exact Ha|]. simpl. split; reflexivity.
Qed.

Lemma start_next_preload_slots (h : Host) :
  slots_in_step h -> slots_in_step (_start_next_preload stat h).
Proof.
  intros Hinv. unfold _start_next_preload.
  destruct (_preload_thread h); [exact Hinv|].
  apply next_preload_loop_slots. exact Hinv.
Qed.

Lemma enqueue_preload_slots (paths : list string) (h : Host) :
  slots_in_step h -> slots_in_step (_enqueue_preload stat paths h).
Proof.
  intros Hinv. unfold _enqueue_preload. apply start_next_preload_slots.
  revert h Hinv. induction paths as [|p paths IH]; intros h Hinv; [exact Hinv|].
  simpl. apply IH. eapply slots_in_step_eq; [|exact Hinv].
  unfold enqueue_one.
  destruct (_ || _); [reflexivity|].
  destruct (in_list p (_preload_set h)); [reflexivity|].
  destruct (_file_signature stat p (Some (_waveform_points h))); [|reflexivity].
  destruct (_cache_get h p s); reflexivity.
Qed.

Lemma load_slots (p : string) (h : Host) :
  slots_in_step h -> slots_in_step (_load_waveform_for_track stat p h).
Proof.
  intros Hinv.
  assert (H0 : slots_in_step (_remove_from_preload_queue p h))
    by (eapply slots_in_step_eq; [apply remove_from_queue_slots | exact Hinv]).
  clear Hinv. unfold _load_waveform_for_track. cbv zeta.
  set (h0 := _remove_from_preload_queue p h) in *.
  set (signature := signature_or_empty stat p h).
  assert (Hloading : forall h1, slots_in_step h1 ->
    slots_in_step (let '(ok, h2) := _render_partial_for_path p signature h1 in
                   if ok then h2
                   else set_wave_load_label (LabelText "Waveform laden...")
                          (_clear_waveform_plot h2))).
  { intros h1 H1. pose proof (render_partial_slots p signature h1) as K.
    destruct (_render_partial_for_path p signature h1) as [ok h2]. simpl in K.
    destruct ok; (eapply slots_in_step_eq; [|exact H1]); [exact K|].
    rewrite <- K. reflexivity. }
  destruct (_cache_get h0 p signature) as [[[s cx] camp]|].
  - apply start_next_preload_slots.
    eapply slots_in_step_eq; [|exact H0].
    rewrite <- (set_waveform_slots cx camp h0). reflexivity.
  - destruct (String.eqb (_active_wave_path h0) p
              && match _active_wave_thread h0 with Some _ => true | None => false end).
    + apply Hloading. exact H0.
    + destruct (if String.eqb (_preload_path h0) p then _preload_thread h0 else None)
        as [pt|] eqn:Ept.
      * apply Hloading.
        assert (Hpt : _preload_thread h0 = Some pt).
        { destruct (String.eqb (_preload_path h0) p); [exact Ept | discriminate]. }
        destruct H0 as [Ha Hp]. split; [exact Ha|].
        rewrite Hpt in Hp. exact Hp.
      * set (h1 := set_wave_load_label _ (_clear_waveform_plot h0)).
        assert (H1 : slots_in_step h1)
          by (eapply slots_in_step_eq; [|exact H0]; reflexivity).
        destruct (_active_wave_thread h1).
        -- destruct (_preload_thread h1).
           ++ eapply slots_in_step_eq; [|exact H1].
              destruct (in_list p (_preload_set h1)); reflexivity.
           ++ split; [exact (proj1 H1)|]. simpl. split; reflexivity.
        -- split; [simpl; split; reflexivity|]. exact (proj2 H1).
Qed.

Lemma stop_active_slots (h : Host) :
  slots_in_step h -> slots_in_step (fst (_stop_active_wave_worker h)).
Proof. intros [_ Hp]. split; [reflexivity | exact Hp]. Qed.

Lemma stop_preload_slots (requeue : bool) (h : Host) :
  slots_in_step h -> slots_in_step (fst (_stop_preload_worker requeue h)).
Proof.
  intros [Ha _]. unfold _stop_preload_worker. cbv zeta. simpl fst.
  match goal with |- context [if ?c then set_preload_set _ _ else _] => destruct c end;
    (split; [exact Ha | reflexivity]).
Qed.

Lemma active_thread_finished_slots (rid : Z) (h : Host) :
  slots_in_step h -> slots_in_step (_on_active_wave_thread_finished stat rid h).
Proof.
  intros Hinv. unfold _on_active_wave_thread_finished.
  destruct (negb (rid =? _active_wave_request_id h)); [exact Hinv|]. cbv zeta.
  destruct Hinv as [_ Hp].
  match goal with |- context [if ?c then _ else _] => destruct c end.
  - split; [simpl; split; reflexivity | exact Hp].
  - apply start_next_preload_slots. split; [reflexivity | exact Hp].
Qed.

Lemma set_resolution_slots (points : Z) (save : bool) (h : Host) :
  slots_in_step h ->
  slots_in_step (fst (fst (_set_waveform_resolution stat points save h))).
Proof.
  intros Hinv. unfold _set_waveform_resolution. cbv zeta.
  destruct (_ =? _waveform_points h); [exact Hinv|].
  match goal with |- context [_stop_active_wave_worker ?hh] =>
    pose proof (stop_active_slots hh) as Ka;
    destruct (_stop_active_wave_worker hh) as [h1 c1] end.
  pose proof (stop_preload_slots false h1) as Kp.
  destruct (_stop_preload_worker false h1) as [h2 c2].
  simpl in Ka, Kp. simpl fst.
  assert (H2 : slots_in_step h2)
    by (apply Kp, Ka; eapply slots_in_step_eq; [|exact Hinv]; reflexivity).
  destruct (negb _); [|exact H2].
  apply enqueue_preload_slots, load_slots. exact H2.
Qed.

Lemma signal_slots (c : Call) (h : Host) :
  match c with
  | ActiveProgress _ _ _ _ _ _ _ | ActiveFinished _ _ _ _ | ActiveFailed _ _ _
  | PreloadProgress _ _ _ _ _ _ _ | PreloadFinished _ _ _ _ | PreloadFailed _ _
  | RemoveFromQueue _ => slots_of (call stat c h) = slots_of h
  | _ => True
  end.
Proof.
  destruct c; try exact I; simpl.
  - apply remove_from_queue_slots.
  - unfold _on_active_wave_progress.
    destruct (_ || _); [reflexivity|].
    destruct (_align_wave_channels x amp) as [xa aa]. cbv zeta.
    match goal with |- context [_render_partial_for_path ?a ?b ?hh] =>
      pose proof (render_partial_slots a b hh) as K end.
    destruct (String.eqb _ p); [|reflexivity].
    destruct suppressed; [reflexivity|]. rewrite K. reflexivity.
  - unfold _on_active_wave_finished.
    destruct (_ || _); [reflexivity|].
    destruct (_align_wave_channels x amp) as [xa aa]. cbv zeta.
    destruct (String.eqb _ p); [|reflexivity].
    match goal with |- context [_set_waveform_from_channels ?a ?b ?hh] =>
      pose proof (set_waveform_slots a b hh) as K end.
    unfold slots_of in *. simpl in *. rewrite K. reflexivity.
  - unfold _on_active_wave_failed.
    destruct (_ || _); [reflexivity|]. cbv zeta.
    destruct (String.eqb _ p); reflexivity.
  - unfold _on_preload_progress.
    destruct (_ || _); [reflexivity|].
    destruct (_align_wave_channels x amp) as [xa aa]. cbv zeta.
    match goal with |- context [_render_partial_for_path ?a ?b ?hh] =>
      pose proof (render_partial_slots a b hh) as K end.
    destruct (String.eqb _ p); [|reflexivity].
    destruct suppressed; [reflexivity|]. rewrite K. reflexivity.
  - unfold _on_preload_finished.
    destruct (_ || _); [reflexivity|].
    destruct (_align_wave_channels x amp) as [xa aa]. cbv zeta.
    destruct (String.eqb _ p); [|reflexivity].
    match goal with |- context [_set_waveform_from_channels ?a ?b ?hh] =>
      pose proof (set_waveform_slots a b hh) as K end.
    unfold slots_of in *. simpl in *. rewrite K. reflexivity.
  - unfold _on_preload_failed.
    destruct (_ || _); [reflexivity|]. cbv zeta.
    destruct (String.eqb _ p); reflexivity.
Qed.

(** X11. Every entry point keeps the two job slots in step with their
    bookkeeping: a slot that holds a job records that job's path and request
    id, so the job's own signals pass the staleness test, and an empty slot
    records the empty path. *)
Theorem slots_stay_in_step (c : Call) (h : Host) :
  slots_in_step h -> slots_in_step (call stat c h).
Proof.
  intros Hinv. pose proof (signal_slots c h) as K.
  destruct c; try (eapply slots_in_step_eq; [exact K | exact Hinv]); simpl.
  - apply load_slots; exact Hinv.
  - apply enqueue_preload_slots; exact Hinv.
  - apply set_resolution_slots; exact Hinv.
  - apply stop_active_slots; exact Hinv.
  - apply stop_preload_slots; exact Hinv.
  - apply active_thread_finished_slots; exact Hinv.
  - unfold _on_preload_wave_thread_finished.
    destruct (negb _); [exact Hinv|].
    apply start_next_preload_slots. destruct Hinv as [Ha _].
    split; [exact Ha | reflexivity].
Qed.

Lemma start_next_preload_jobs_cache (h : Host) :
  wave_cache (_start_next_preload stat h) = wave_cache h /\
  wave_partial (_start_next_preload stat h) = wave_partial h.
Proof.
  unfold _start_next_preload. destruct (_preload_thread h) eqn:Et; [split; reflexivity|].
  destruct (next_preload_loop_frame stat (_preload_queue h) h eq_refl Et)
    as [(A & B & _) _].
  split; [exact A | exact B].
Qed.

Lemma enqueue_one_cache (h : Host) (p : string) :
  wave_cache (enqueue_one stat h p) = wave_cache h.
Proof.
  unfold enqueue_one.
  destruct (_ || _); [reflexivity|].
  destruct (in_list p (_preload_set h)); [reflexivity|].
  destruct (_file_signature stat p (Some (_waveform_points h))); [|reflexivity].
  destruct (_cache_get h p s); reflexivity.
Qed.

Lemma enqueue_preload_cache (paths : list string) (h : Host) :
  wave_cache (_enqueue_preload stat paths h) = wave_cache h.
Proof.
  unfold _enqueue_preload. rewrite (proj1 (start_next_preload_jobs_cache _)).
  revert h. induction paths as [|p paths IH]; intros h; [reflexivity|].
  simpl. rewrite IH. apply enqueue_one_cache.
Qed.

Lemma cache_store_bound (p signature : string) (x : list Q) (amp : ndarray2) (h : Host) :
  (length (wave_cache h) <= 40)%nat ->
  (length (wave_cache (_cache_store p signature x amp h)) <= 40)%nat.
Proof.
  intros Hlen. rewrite cache_store_cache. cbv zeta.
  pose proof (set_length p (signature, x, amp) (wave_cache h)) as Hset.
  unfold CacheEntry in *.
  destruct (40 <? _)%nat eqn:E.
  - destruct (Dict.set p (signature, x, amp) (wave_cache h)) as [|e l];
      simpl in *; [lia|].
    case_get Hset Eg; lia.
  - apply Nat.ltb_ge in E. exact E.
Qed.

Lemma quiet_call_cache (c : Call) (h : Host) :
  writes_cache c = false -> wave_cache (call stat c h) = wave_cache h.
Proof.
  destruct c; try discriminate; intros _; simpl.
  - apply load_effect.
  - apply enqueue_preload_cache.
  - apply (jobs_of_eq _ _ (remove_from_queue_jobs p h)).
  - reflexivity.
  - unfold _stop_preload_worker. cbv zeta. simpl fst.
    match goal with |- context [if ?c then set_preload_set _ _ else _] => destruct c end;
      reflexivity.
  - unfold _on_active_wave_progress.
    destruct (_ || _); [reflexivity|].
    destruct (_align_wave_channels x amp) as [xa aa]. cbv zeta.
    match goal with |- context [_render_partial_for_path ?a ?b ?hh] =>
      pose proof (jobs_of_eq _ _ (render_partial_jobs a b hh)) as (K & _) end.
    destruct (String.eqb _ p); [|reflexivity].
    destruct suppressed; [reflexivity|]. rewrite K. reflexivity.
  - unfold _on_active_wave_failed.
    destruct (_ || _); [reflexivity|]. cbv zeta.
    destruct (String.eqb _ p); reflexivity.
  - unfold _on_active_wave_thread_finished.
    destruct (negb _); [reflexivity|]. cbv zeta.
    match goal with |- context [if ?c then _ else _] => destruct c end; [reflexivity|].
    rewrite (proj1 (start_next_preload_jobs_cache _)). reflexivity.
  - unfold _on_preload_progress.
    destruct (_ || _); [reflexivity|].
    destruct (_align_wave_channels x amp) as [xa aa]. cbv zeta.
    match goal with |- context [_render_partial_for_path ?a ?b ?hh] =>
      pose proof (jobs_of_eq _ _ (render_partial_jobs a b hh)) as (K & _) end.
    destruct (String.eqb _ p); [|reflexivity].
    destruct suppressed; [reflexivity|]. rewrite K. reflexivity.
  - unfold _on_preload_failed.
    destruct (_ || _); [reflexivity|]. cbv zeta.
    destruct (String.eqb _ p); reflexivity.
  - unfold _on_preload_wave_thread_finished.
    destruct (negb _); [reflexivity|].
    rewrite (proj1 (start_next_preload_jobs_cache _)). reflexivity.
Qed.

Lemma store_then_show_bound (p signature : string) (xa : list Q) (aa : ndarray2)
    (h1 : Host) :
  (length (wave_cache h1) <= 40)%nat ->
  (length (wave_cache
     (let h2 := _cache_store p signature xa aa h1 in
      if String.eqb (_current_track_path h2) p then
        set_wave_load_label (LabelText "") (_set_waveform_from_channels xa aa h2)
      else h2)) <= 40)%nat.
Proof.
  intros Hlen. cbv zeta.
  pose proof (cache_store_bound p signature xa aa h1 Hlen) as K.
  set (h2 := _cache_store p signature xa aa h1) in *.
  destruct (String.eqb _ p); [|exact K].
  pose proof (jobs_of_eq _ _ (set_waveform_jobs xa aa h2)) as (K2 & _).
  simpl. rewrite K2. exact K.
Qed.

(** X12. Only the result signals of the two jobs and a change of resolution
    write the waveform cache; every other entry point leaves it as it is,
    and no entry point lets it grow beyond forty waveforms. *)
Theorem cache_is_written_by_results_only (c : Call) (h : Host) :
  (writes_cache c = false -> wave_cache (call stat c h) = wave_cache h) /\
  ((length (wave_cache h) <= 40)%nat ->
   (length (wave_cache (call stat c h)) <= 40)%nat).
Proof.
  split; [apply quiet_call_cache|]. intros Hlen.
  destruct (writes_cache c) eqn:Ew;
    [|rewrite (quiet_call_cache c h Ew); exact Hlen].
  destruct c; try discriminate; simpl.
  - unfold _set_waveform_resolution. cbv zeta.
    destruct (_ =? _waveform_points h); [exact Hlen|].
    unfold _stop_active_wave_worker.
    match goal with |- context [_stop_preload_worker false ?hh] =>
      pose proof (quiet_call_cache (StopPreload false) hh eq_refl) as K;
      unfold call in K; destruct (_stop_preload_worker false hh) as [h2 c2] end.
    simpl in K. simpl fst.
    destruct (negb _).
    + rewrite enqueue_preload_cache, (proj1 (load_effect stat _ h2)), K.
      simpl. lia.
    + rewrite K. simpl. lia.
  - unfold _on_active_wave_finished.
    destruct (_ || _); [exact Hlen|].
    destruct (_align_wave_channels x amp) as [xa aa]. cbv zeta.
    apply (store_then_show_bound p (_active_wave_signature h) xa aa). exact Hlen.
  - unfold _on_preload_finished.
    destruct (_ || _); [exact Hlen|].
    destruct (_align_wave_channels x amp) as [xa aa]. cbv zeta.
    apply (store_then_show_bound p (_preload_signature h) xa aa). exact Hlen.
Qed.

(** *** The end of an active job *)

Lemma get_pop_same {V : Type} (k : string) (d : list (string * V)) :
  NoDup (Dict.keys d) -> Dict.get k (Dict.pop k d) = None.
Proof.
  unfold Dict.keys. induction d as [|[k' v'] d IH]; simpl; intros Hnd; [reflexivity|].
  apply NoDup_cons_iff in Hnd. destruct Hnd as [Hk Hnd].
  destruct (String.eqb k k') eqn:E.
  - apply String.eqb_eq in E. subst k'.
    destruct (Dict.get k d) as [v|] eqn:G; [|reflexivity].
    exfalso. apply Hk. clear -G. induction d as [|[k2 v2] d IH]; [discriminate|].
    simpl in *. destruct (String.eqb k k2) eqn:E2.
    + left. apply String.eqb_eq in E2. auto.
    + right. apply IH. exact G.
  - simpl. rewrite E. apply IH. exact Hnd.
Qed.

Lemma finished_effect (rid : Z) (p : string) (x : list Q) (amp : ndarray2) (h : Host) :
  rid = _active_wave_request_id h -> p = _active_wave_path h ->
  let h1 := _on_active_wave_finished rid p x amp h in
  wave_cache h1
  = wave_cache (_cache_store p (_active_wave_signature h)
                  (fst (_align_wave_channels x amp)) (snd (_align_wave_channels x amp)) h) /\
  wave_partial h1 = Dict.pop p (wave_partial h) /\
  _active_wave_failed h1 = false /\
  _active_wave_path h1 = p /\ _active_wave_signature h1 = _active_wave_signature h /\
  _active_wave_request_id h1 = rid /\
  _current_track_path h1 = _current_track_path h.
Proof.
  intros Hrid Hp. unfold _on_active_wave_finished.
  rewrite <- Hrid, <- Hp, Z.eqb_refl, String.eqb_refl. simpl orb. cbv iota.
  destruct (_align_wave_channels x amp) as [xa aa]. cbv zeta.
  match goal with |- context [if ?c then _ else _] => destruct c end.
  - match goal with |- context [_set_waveform_from_channels ?a ?b ?hh] =>
      pose proof (set_waveform_keeps a b hh)
        as (A & B & _ & _ & _ & _ & _ & C & D & E & F & _ & G) end.
    simpl in *. rewrite A, B, C, D, E, F. repeat split; auto.
  - simpl. repeat split; auto.
Qed.

(** X13. When the result of the active job has been taken in and its thread
    then reports that it finished, the job is not started again: the active
    slot is empty, the request id is the one of the job, the aligned result
    is served by the cache under the job's signature, and no partial
    waveform of the path is left. *)
Theorem delivered_result_ends_the_job (rid : Z) (p : string) (x : list Q)
    (amp : ndarray2) (h : Host) :
  rid = _active_wave_request_id h -> p = _active_wave_path h ->
  (length (wave_cache h) <= 40)%nat -> NoDup (Dict.keys (wave_partial h)) ->
  let h' := _on_active_wave_thread_finished stat rid
              (_on_active_wave_finished rid p x amp h) in
  _cache_get h' p (_active_wave_signature h)
  = Some (_active_wave_signature h, fst (_align_wave_channels x amp),
          snd (_align_wave_channels x amp)) /\
  Dict.get p (wave_partial h') = None /\
  _active_wave_thread h' = None /\ _active_wave_path h' = ""%string /\
  _active_wave_request_id h' = rid.
Proof.
  intros Hrid Hp Hlen Hnd.
  destruct (finished_effect rid p x amp h Hrid Hp) as (A & B & C & D & E & F & G).
  set (h1 := _on_active_wave_finished rid p x amp h) in *.
  set (sig := _active_wave_signature h) in *.
  set (al := _align_wave_channels x amp) in *.
  assert (Hget1 : _cache_get h1 p sig = Some (sig, fst al, snd al)).
  { pose proof (proj1 (cache_get_after_store p sig sig (fst al) (snd al) h Hlen)) as K.
    unfold _cache_get in *. unfold CacheEntry in *. rewrite A. exact K. }
  cbv zeta. unfold _on_active_wave_thread_finished.
  rewrite F, Z.eqb_refl. simpl negb. cbv iota zeta.
  rewrite D, E, C, Hget1.
  replace (negb (String.eqb p "") && negb false && negb (negb (String.eqb p "") && true))
    with false by (destruct (String.eqb p ""); reflexivity).
  simpl andb. cbv iota.
  match goal with |- context [_start_next_preload stat ?hh] =>
    destruct (start_next_preload_jobs_cache hh) as [Kc Kp];
    pose proof (start_next_preload_slots hh) as _;
    set (h2 := hh) in * end.
  assert (Hframe : _active_wave_thread (_start_next_preload stat h2) = None /\
                   _active_wave_path (_start_next_preload stat h2) = ""%string /\
                   _active_wave_request_id (_start_next_preload stat h2) = rid).
  { unfold _start_next_preload. destruct (_preload_thread h2) eqn:Et.
    - repeat split. exact F.
    - destruct (next_preload_loop_frame stat (_preload_queue h2) h2 eq_refl Et)
        as [(_ & _ & T & R & P & _) _].
      rewrite T, R, P. repeat split. exact F. }
  destruct Hframe as (T & P & R).
  split.
  - unfold _cache_get in *. unfold CacheEntry in *. rewrite Kc. exact Hget1.
  - split; [|auto]. rewrite Kp. simpl. rewrite B. apply get_pop_same. exact Hnd.
Qed.

(** X14. When the thread of the active job reports that it finished, the job
    is started again, with the next request id and the same path and
    signature, exactly when it was not a failure, left no waveform in the
    cache, and is for the displayed track; otherwise the active slot stays
    empty and the request id is kept. *)
Theorem unfinished_job_is_restarted (rid : Z) (h : Host) :
  rid = _active_wave_request_id h ->
  let p := _active_wave_path h in
  let h' := _on_active_wave_thread_finished stat rid h in
  let restart :=
    p <> ""%string /\ _active_wave_failed h = false /\
    _cache_get h p (_active_wave_signature h) = None /\
    _current_track_path h = p in
  (restart ->
   let job := mk_job (rid + 1) p (_waveform_points h) true (12 # 100) in
   _active_wave_thread h' = Some job /\ started h' = started h ++ [job] /\
   _active_wave_request_id h' = rid + 1 /\ _active_wave_path h' = p /\
   _active_wave_signature h' = _active_wave_signature h) /\
  (~ restart ->
   _active_wave_thread h' = None /\ _active_wave_request_id h' = rid /\
   _active_wave_path h' = ""%string).
Proof.
  intros Hrid p h' restart. unfold h', _on_active_wave_thread_finished.
  rewrite <- Hrid, Z.eqb_refl. simpl negb. cbv iota zeta. fold p.
  replace (_current_track_path
             (set_active_wave_failed false
                (set_active_wave_signature ""
                   (set_active_wave_path "" (set_active_wave_thread None h)))))
    with (_current_track_path h) by reflexivity.
  assert (Hdec : restart <->
            negb (String.eqb p "") && negb (_active_wave_failed h)
            && negb (negb (String.eqb p "")
                     && match _cache_get h p (_active_wave_signature h) with
                        | Some _ => true | None => false end)
            && String.eqb (_current_track_path h) p = true).
  { unfold restart.
    destruct (String.eqb p "") eqn:E;
      [apply String.eqb_eq in E | apply String.eqb_neq in E]; simpl.
    - split; [intros (H & _); contradiction | discriminate].
    - destruct (_active_wave_failed h); simpl;
        [split; [intros (_ & H & _); discriminate | discriminate]|].
      destruct (_cache_get h p (_active_wave_signature h)); simpl;
        [split; [intros (_ & _ & H & _); discriminate | discriminate]|].
      rewrite String.eqb_eq. split; [intros (_ & _ & _ & H); exact H | auto]. }
  match type of Hdec with _ <-> ?c = true => destruct c eqn:Ec end.
  - split; [|intros Hn; exfalso; apply Hn, Hdec; reflexivity].
    intros _. simpl. rewrite Hrid. repeat split.
  - split; [intros Hr; apply Hdec in Hr; discriminate|]. intros _.
    match goal with |- context [_start_next_preload stat ?hh] => set (h2 := hh) end.
    unfold _start_next_preload. destruct (_preload_thread h2) eqn:Et.
    + repeat split. simpl. auto.
    + destruct (next_preload_loop_frame stat (_preload_queue h2) h2 eq_refl Et)
        as [(_ & _ & T & R & P & _) _].
      rewrite T, R, P. repeat split. simpl. auto.
Qed.

(** *** A change of resolution *)

Lemma jobs_at_resolution_eq (h h' : Host) :
  _active_wave_thread h' = _active_wave_thread h ->
  _preload_thread h' = _preload_thread h ->
  _waveform_points h' = _waveform_points h ->
  jobs_at_resolution h -> jobs_at_resolution h'.
Proof. unfold jobs_at_resolution. intros -> -> ->. auto. Qed.

Lemma next_preload_loop_view (queue : list string) :
  forall h : Host,
    view_of (next_preload_loop stat queue h) = view_of h /\
    (jobs_at_resolution h -> jobs_at_resolution (next_preload_loop stat queue h)).
Proof.
  induction queue as [|p rest IH]; intros h; [split; auto|].
  cbn [next_preload_loop]. cbv zeta.
  set (h1 := set_preload_queue rest (set_preload_set _ h)).
  assert (Hrec : view_of (next_preload_loop stat rest h1) = view_of h /\
                 (jobs_at_resolution h ->
                  jobs_at_resolution (next_preload_loop stat rest h1))).
  { destruct (IH h1) as [V J]. split; [rewrite V; reflexivity|].
    intros Hj. apply J. revert Hj. apply jobs_at_resolution_eq; reflexivity. }
  destruct (String.eqb p (_active_wave_path h1)); [exact Hrec|].
  destruct (_file_signature stat p (Some (_waveform_points h1))); [|exact Hrec].
  destruct (_cache_get h1 p s); [exact Hrec|].
  split; [reflexivity|].
  intros Hj job [Ha | Hp]; simpl in *.
  - apply Hj. left. exact Ha.
  - injection Hp as <-. reflexivity.
Qed.

Lemma start_next_preload_view (h : Host) :
  view_of (_start_next_preload stat h) = view_of h /\
  (jobs_at_resolution h -> jobs_at_resolution (_start_next_preload stat h)).
Proof.
  unfold _start_next_preload. destruct (_preload_thread h); [split; auto|].
  apply next_preload_loop_view.
Qed.

Lemma enqueue_preload_view (paths : list string) (h : Host) :
  view_of (_enqueue_preload stat paths h) = view_of h /\
  (jobs_at_resolution h -> jobs_at_resolution (_enqueue_preload stat paths h)).
Proof.
  unfold _enqueue_preload.
  assert (Hfold : forall h0,
            view_of (fold_left (enqueue_one stat) paths h0) = view_of h0 /\
            (jobs_at_resolution h0 ->
             jobs_at_resolution (fold_left (enqueue_one stat) paths h0))).
  { induction paths as [|p paths IH]; intros h0; [split; auto|].
    simpl. destruct (IH (enqueue_one stat h0 p)) as [V J].
    assert (H1 : view_of (enqueue_one stat h0 p) = view_of h0 /\
                 (jobs_at_resolution h0 -> jobs_at_resolution (enqueue_one stat h0 p))).
    { unfold enqueue_one.
      destruct (_ || _); [split; auto|].
      destruct (in_list p (_preload_set h0)); [split; auto|].
      destruct (_file_signature stat p (Some (_waveform_points h0))); [|split; auto].
      destruct (_cache_get h0 p s); [split; auto|].
      split; [reflexivity|]. apply jobs_at_resolution_eq; reflexivity. }
    destruct H1 as [V1 J1]. split; [rewrite V; exact V1 | auto]. }
  destruct (Hfold h) as [V J].
  destruct (start_next_preload_view (fold_left (enqueue_one stat) paths h)) as [V2 J2].
  split; [rewrite V2; exact V | auto].
Qed.

Lemma set_waveform_view (x : list Q) (amp : ndarray2) (h : Host) :
  view_of (_set_waveform_from_channels x amp h) = view_of h /\
  _active_wave_thread (_set_waveform_from_channels x amp h) = _active_wave_thread h /\
  _preload_thread (_set_waveform_from_channels x amp h) = _preload_thread h.
Proof.
  pose proof (set_waveform_keeps x amp h)
    as (A & B & _ & _ & C & D & _ & _ & _ & _ & _ & E & _).
  unfold view_of. cbv zeta in *. rewrite A, B, C, D, E. auto.
Qed.

Lemma render_partial_view (p signature : string) (h : Host) :
  view_of (snd (_render_partial_for_path p signature h)) = view_of h /\
  _active_wave_thread (snd (_render_partial_for_path p signature h))
  = _active_wave_thread h /\
  _preload_thread (snd (_render_partial_for_path p signature h)) = _preload_thread h.
Proof.
  pose proof (render_partial_keeps p signature h)
    as (A & B & _ & _ & C & D & _ & _ & _ & _ & _ & E & _).
  unfold view_of. cbv zeta in *. rewrite A, B, C, D, E. auto.
Qed.

Lemma load_view (p : string) (h : Host) :
  view_of (_load_waveform_for_track stat p h) = view_of h /\
  (jobs_at_resolution h -> jobs_at_resolution (_load_waveform_for_track stat p h)).
Proof.
  assert (H0 : view_of (_remove_from_preload_queue p h) = view_of h /\
               (jobs_at_resolution h ->
                jobs_at_resolution (_remove_from_preload_queue p h))).
  { unfold _remove_from_preload_queue.
    destruct (in_list p (_preload_set h)); [|split; auto].
    split; [reflexivity|]. apply jobs_at_resolution_eq; reflexivity. }
  unfold _load_waveform_for_track. cbv zeta.
  set (h0 := _remove_from_preload_queue p h) in *.
  set (signature := signature_or_empty stat p h).
  destruct H0 as [V0 J0].
  assert (Hloading : forall h1,
    view_of h1 = view_of h -> (jobs_at_resolution h -> jobs_at_resolution h1) ->
    let hr := (let '(ok, h2) := _render_partial_for_path p signature h1 in
               if ok then h2
               else set_wave_load_label (LabelText "Waveform laden...")
                      (_clear_waveform_plot h2)) in
    view_of hr = view_of h /\ (jobs_at_resolution h -> jobs_at_resolution hr)).
  { intros h1 V1 J1. pose proof (render_partial_view p signature h1) as (K & Ka & Kp).
    destruct (_render_partial_for_path p signature h1) as [ok h2]. simpl in K, Ka, Kp.
    assert (K3 : _waveform_points h2 = _waveform_points h1)
      by (unfold view_of in K; congruence).
    destruct ok; cbv zeta; (split; [|intros Hj; specialize (J1 Hj); revert J1;
      apply jobs_at_resolution_eq; assumption]).
    - rewrite K. exact V1.
    - rewrite <- V1, <- K. reflexivity. }
  destruct (_cache_get h0 p signature) as [[[s cx] camp]|].
  - destruct (set_waveform_view cx camp h0) as (K & Ka & Kp).
    assert (K3 : _waveform_points (_set_waveform_from_channels cx camp h0)
                 = _waveform_points h0) by (unfold view_of in K; congruence).
    match goal with |- context [_start_next_preload stat ?hh] =>
      destruct (start_next_preload_view hh) as [V2 J2] end.
    split.
    + rewrite V2. rewrite <- V0, <- K. reflexivity.
    + intros Hj. apply J2. specialize (J0 Hj). revert J0.
      apply jobs_at_resolution_eq; assumption.
  - destruct (String.eqb (_active_wave_path h0) p
              && match _active_wave_thread h0 with Some _ => true | None => false end).
    + apply Hloading; assumption.
    + destruct (if String.eqb (_preload_path h0) p then _preload_thread h0 else None)
        as [pt|] eqn:Ept.
      * assert (Hpt : _preload_thread h0 = Some pt).
        { destruct (String.eqb (_preload_path h0) p); [exact Ept | discriminate]. }
        apply Hloading; [rewrite <- V0; reflexivity|].
        intros Hj job [Ha | Hp]; simpl in *.
        -- apply (J0 Hj). left. exact Ha.
        -- injection Hp as <-. simpl. apply (J0 Hj). right. exact Hpt.
      * set (h1 := set_wave_load_label _ (_clear_waveform_plot h0)).
        assert (J1 : jobs_at_resolution h -> jobs_at_resolution h1).
        { intros Hj. specialize (J0 Hj). revert J0.
          apply jobs_at_resolution_eq; reflexivity. }
        assert (V1 : view_of h1 = view_of h) by (rewrite <- V0; reflexivity).
        destruct (_active_wave_thread h1) eqn:Eat.
        -- destruct (_preload_thread h1) eqn:Ept1.
           ++ split.
              ** rewrite <- V1. destruct (in_list p (_preload_set h1)); reflexivity.
              ** intros Hj. specialize (J1 Hj). revert J1.
                 apply jobs_at_resolution_eq;
                   destruct (in_list p (_preload_set h1)); reflexivity.
           ++ split; [rewrite <- V1; reflexivity|].
              intros Hj job [Ha | Hp].
              ** apply (J1 Hj). left. exact Ha.
              ** simpl in Hp. injection Hp as <-. reflexivity.
        -- split; [rewrite <- V1; reflexivity|].
           intros Hj job [Ha | Hp].
           ++ simpl in Ha. injection Ha as <-. reflexivity.
           ++ apply (J1 Hj). right. exact Hp.
Qed.

(** X15. [_set_waveform_resolution] clamps the resolution to 1200..24000
    and saves the preferences exactly when it is asked to.  When the clamped
    value is the one in use nothing else happens.  Otherwise both jobs are
    cancelled, and afterwards the waveform cache and the partial waveforms
    are empty and every job held by a slot was started with the new
    resolution. *)
Theorem resolution_change_starts_afresh (points : Z) (save : bool) (h : Host) :
  let target := Z.max 1200 (Z.min points 24000) in
  let result := _set_waveform_resolution stat points save h in
  let h' := fst (fst result) in
  1200 <= target <= 24000 /\ _waveform_points h' = target /\
  snd (fst result) = save /\
  (target = _waveform_points h -> h' = h /\ snd result = []) /\
  (target <> _waveform_points h ->
   wave_cache h' = [] /\ wave_partial h' = [] /\ jobs_at_resolution h' /\
   snd result = job_list (_active_wave_thread h) ++ job_list (_preload_thread h)).
Proof.
  intros target result h'. split; [unfold target; lia|].
  unfold h', result, _set_waveform_resolution. cbv zeta. fold target.
  destruct (target =? _waveform_points h) eqn:E.
  - apply Z.eqb_eq in E. simpl.
    split; [symmetry; exact E|]. split; [reflexivity|].
    split; [intros _; split; reflexivity|]. intros Hne. contradiction.
  - apply Z.eqb_neq in E.
    unfold _stop_active_wave_worker.
    match goal with |- context [_stop_preload_worker false ?hh] =>
      set (h1 := hh) end.
    unfold _stop_preload_worker. cbv zeta. simpl andb. cbv iota.
    match goal with |- context [_enqueue_preload stat ?a (_load_waveform_for_track stat ?b ?hh)] =>
      set (h2 := hh);
      destruct (load_view b h2) as [V1 J1];
      destruct (enqueue_preload_view a (_load_waveform_for_track stat b h2)) as [V2 J2]
    end.
    assert (Hj2 : jobs_at_resolution h2) by (intros job [H|H]; discriminate H).
    assert (Hv2 : view_of h2 = ([], [], target)) by reflexivity.
    match goal with |- context [if ?c then _ else _] => destruct c end; simpl fst; simpl snd.
    + rewrite V1, Hv2 in V2. unfold view_of in V2. injection V2 as A B C.
      split; [exact C|]. split; [reflexivity|].
      split; [intros Heq; contradiction|]. intros _.
      split; [exact A|]. split; [exact B|]. split; [auto|]. reflexivity.
    + split; [reflexivity|]. split; [reflexivity|].
      split; [intros Heq; contradiction|]. intros _.
      split; [reflexivity|]. split; [reflexivity|]. split; [exact Hj2|]. reflexivity.
Qed.

End Invariants.

Lemma start_next_preload_outcome_witness :
  let h := Examples.hit_host in
  let h' := _start_next_preload Examples.uniform_stat h in
  wave_cache h' = wave_cache h /\
  _active_wave_thread h' = _active_wave_thread h /\
  ((_preload_thread h' = None /\ _preload_queue h' = [] /\ started h' = started h) \/
   exists j,
     _preload_thread h' = Some j /\ started h' = started h ++ [j] /\
     In (path j) (_preload_queue h) /\ path j <> _active_wave_path h /\
     request_id j = _preload_request_id h + 1 /\
     emit_progress j = String.eqb (path j) (_current_track_path h) /\
     exists s, _file_signature Examples.uniform_stat (path j)
                 (Some (_waveform_points h)) = Some s /\
               _cache_get h (path j) s = None).
Proof.
  exact (start_next_preload_outcome Examples.uniform_stat Examples.hit_host eq_refl).
Defined.

Lemma load_never_replaces_a_running_job_witness :
  let h := set_active_wave_thread (Some Examples.mono_job) Examples.hit_host in
  let h' := _load_waveform_for_track Examples.uniform_stat "b.wav" h in
  _active_wave_thread h' = Some Examples.mono_job /\
  _active_wave_request_id h' = _active_wave_request_id h.
Proof.
  exact (proj1 (proj2 (proj2 (load_never_replaces_a_running_job Examples.uniform_stat
                                "b.wav"
                                (set_active_wave_thread (Some Examples.mono_job)
                                   Examples.hit_host))))
           Examples.mono_job eq_refl).
Defined.

Lemma queue_stays_in_step_witness :
  let busy := set_preload_thread (Some Examples.mono_job)
                (set_active_wave_thread (Some Examples.mono_job) Examples.hit_host) in
  queue_in_step busy /\
  queue_in_step (call Examples.uniform_stat (LoadTrack "c.wav") busy).
Proof.
  intros busy.
  assert (H : queue_in_step busy).
  { unfold queue_in_step, busy. simpl.
    split; [repeat constructor; simpl; tauto|].
    split; [repeat constructor; simpl; tauto|]. tauto. }
  split; [exact H|].
  exact (queue_stays_in_step Examples.uniform_stat (LoadTrack "c.wav") busy H).
Defined.

Lemma slots_stay_in_step_witness :
  slots_in_step Examples.hit_host /\
  slots_in_step (call Examples.uniform_stat (LoadTrack "c.wav") Examples.hit_host).
Proof.
  assert (H : slots_in_step Examples.hit_host) by (split; reflexivity).
  split; [exact H|].
  exact (slots_stay_in_step Examples.uniform_stat (LoadTrack "c.wav")
           Examples.hit_host H).
Defined.

Lemma cache_is_written_by_results_only_witness :
  wave_cache (call Examples.uniform_stat (LoadTrack "c.wav") Examples.hit_host)
  = wave_cache Examples.hit_host /\
  (length (wave_cache
     (call Examples.uniform_stat
        (PreloadFinished 0 "" [0%Q] Examples.silent_amp) Examples.full_cache_host))
   <= 40)%nat.
Proof.
  split.
  - exact (proj1 (cache_is_written_by_results_only Examples.uniform_stat
                    (LoadTrack "c.wav") Examples.hit_host) eq_refl).
  - refine (proj2 (cache_is_written_by_results_only Examples.uniform_stat
                     (PreloadFinished 0 "" [0%Q] Examples.silent_amp)
                     Examples.full_cache_host) _).
    vm_compute. lia.
Defined.

Lemma delivered_result_ends_the_job_witness :
  let h := _start_active_wave_worker "b.wav" "10:20|p1200" true 1200
             Examples.hit_host in
  let h' := _on_active_wave_thread_finished Examples.uniform_stat 1
              (_on_active_wave_finished 1 "b.wav" [0%Q] Examples.silent_amp h) in
  _cache_get h' "b.wav" (_active_wave_signature h)
  = Some (_active_wave_signature h,
          fst (_align_wave_channels [0%Q] Examples.silent_amp),
          snd (_align_wave_channels [0%Q] Examples.silent_amp)) /\
  Dict.get "b.wav" (wave_partial h') = None /\
  _active_wave_thread h' = None /\ _active_wave_path h' = ""%string /\
  _active_wave_request_id h' = 1.
Proof.
  refine (delivered_result_ends_the_job Examples.uniform_stat 1 "b.wav" [0%Q]
            Examples.silent_amp
            (_start_active_wave_worker "b.wav" "10:20|p1200" true 1200
               Examples.hit_host) eq_refl eq_refl _ _).
  - simpl. lia.
  - simpl. constructor.
Defined.

Lemma unfinished_job_is_restarted_witness :
  let h := _start_active_wave_worker "a.wav" "0:0|p1200" true 1200
             Examples.hit_host in
  _active_wave_request_id
    (_on_active_wave_thread_finished Examples.uniform_stat 1 h) = 2.
Proof.
  refine (proj1 (proj2 (proj2 (proj1
            (unfinished_job_is_restarted Examples.uniform_stat 1
               (_start_active_wave_worker "a.wav" "0:0|p1200" true 1200
                  Examples.hit_host) eq_refl) _)))).
  split; [discriminate|]. split; [reflexivity|]. split; reflexivity.
Defined.

Lemma resolution_change_starts_afresh_witness :
  let result := _set_waveform_resolution Examples.uniform_stat 50000 true
                  Examples.hit_host in
  let h' := fst (fst result) in
  wave_cache h' = [] /\ wave_partial h' = [] /\ jobs_at_resolution h' /\
  snd result = [].
Proof.
  refine (proj2 (proj2 (proj2 (proj2
            (resolution_change_starts_afresh Examples.uniform_stat 50000 true
               Examples.hit_host)))) _).
  simpl. lia.
Defined.

End ControllerExtras.

(** ** The routing matrix and the routed files *)

Module RoutingExtras.

Import Routing Settings Reference DictFacts RoutingFacts.

(** *** Writing the matrix and reading it back *)

Lemma split_no_bar (r : list ascii) :
  ~ In "|"%char r -> split_bar r = [r].
Proof.
  induction r as [|c r IH]; intros Hn; [reflexivity|].
  simpl. destruct (Ascii.eqb c "|") eqn:E.
  - apply Ascii.eqb_eq in E. exfalso. apply Hn. left. exact E.
  - rewrite IH; [reflexivity|]. intros H. apply Hn. right. exact H.
Qed.

Lemma split_app_bar (r s : list ascii) :
  ~ In "|"%char r -> split_bar (r ++ "|"%char :: s) = r :: split_bar s.
Proof.
  induction r as [|c r IH]; intros Hn; [reflexivity|].
  simpl. destruct (Ascii.eqb c "|") eqn:E.
  - apply Ascii.eqb_eq in E. exfalso. apply Hn. left. exact E.
  - rewrite IH; [reflexivity|]. intros H. apply Hn. right. exact H.
Qed.

Lemma split_join (rows : list (list ascii)) :
  rows <> [] -> Forall (fun r => ~ In "|"%char r) rows ->
  split_bar (join_rows rows) = rows.
Proof.
  induction rows as [|r rest IH]; intros Hne Hall; [congruence|].
  apply Forall_cons_iff in Hall. destruct Hall as [Hr Hrest].
  destruct rest as [|r2 rest'].
  - simpl. apply split_no_bar. exact Hr.
  - change (join_rows (r :: r2 :: rest')) with (r ++ "|"%char :: join_rows (r2 :: rest')).
    rewrite split_app_bar by exact Hr. f_equal. apply IH; [discriminate | exact Hrest].
Qed.

Lemma row_text_no_bar (row : list Z) : ~ In "|"%char (row_text row).
Proof.
  unfold row_text. intros H. apply in_map_iff in H. destruct H as (c & Hc & _).
  destruct (c =? 0); discriminate.
Qed.

Lemma nth_grid (f : nat -> nat -> Z) (r : nat) :
  (r < SIZE)%nat -> nth r (grid f) [] = map (f r) (seq 0 SIZE).
Proof.
  intros Hr. unfold grid.
  rewrite (nth_indep _ [] (map (f 0%nat) (seq 0 SIZE)))
    by (rewrite length_map, length_seq; exact Hr).
  rewrite (map_nth (fun r => map (f r) (seq 0 SIZE)) (seq 0 SIZE) 0%nat r).
  rewrite seq_nth by exact Hr. reflexivity.
Qed.

Lemma cell_grid (f : nat -> nat -> Z) (r c : nat) :
  (r < SIZE)%nat -> (c < SIZE)%nat -> cell (grid f) r c = f r c.
Proof.
  intros Hr Hc. unfold cell. rewrite nth_grid by exact Hr.
  rewrite (nth_indep _ 0 (f r 0%nat)) by (rewrite length_map, length_seq; exact Hc).
  rewrite (map_nth (f r) (seq 0 SIZE) 0%nat c).
  rewrite seq_nth by exact Hc. reflexivity.
Qed.

Lemma grid_ext (f g : nat -> nat -> Z) :
  (forall r c, (r < SIZE)%nat -> (c < SIZE)%nat -> f r c = g r c) -> grid f = grid g.
Proof.
  intros H. unfold grid. apply map_ext_in. intros r Hr. apply in_seq in Hr.
  apply map_ext_in. intros c Hc. apply in_seq in Hc. apply H; lia.
Qed.

Lemma parse_rows_of_grid (f : nat -> nat -> Z) :
  (forall r c, f r c = 0 \/ f r c = 1) ->
  let rows := map row_text (grid f) in
  grid (fun row_idx col_idx =>
          if (row_idx <? Nat.min SIZE (length rows))%nat
             && (col_idx <? Nat.min SIZE (length (nth row_idx rows [])))%nat
             && Ascii.eqb (nth col_idx (nth row_idx rows []) "0"%char) "1"
          then 1 else 0)
  = grid f.
Proof.
  intros Hbit rows. apply grid_ext. intros r c Hr Hc.
  assert (Hlen : length rows = SIZE).
  { unfold rows, grid. rewrite !length_map, length_seq. reflexivity. }
  assert (Hrow : nth r rows [] = row_text (map (f r) (seq 0 SIZE))).
  { unfold rows. rewrite <- (nth_grid f r Hr).
    change (@nil ascii) with (row_text []). apply map_nth. }
  assert (Hrl : length (row_text (map (f r) (seq 0 SIZE))) = SIZE).
  { unfold row_text. rewrite !length_map, length_seq. reflexivity. }
  assert (Hch : nth c (row_text (map (f r) (seq 0 SIZE))) "0"%char
                = if f r c =? 0 then "0"%char else "1"%char).
  { unfold row_text. rewrite map_map.
    rewrite (nth_indep _ "0"%char (if f r 0%nat =? 0 then "0"%char else "1"%char))
      by (rewrite length_map, length_seq; exact Hc).
    rewrite (map_nth (fun x => if f r x =? 0 then "0"%char else "1"%char)
               (seq 0 SIZE) 0%nat c).
    rewrite seq_nth by exact Hc. reflexivity. }
  rewrite Hlen, Hrow, Hrl, Hch, Nat.min_id.
  replace (r <? SIZE)%nat with true by (symmetry; apply Nat.ltb_lt; exact Hr).
  replace (c <? SIZE)%nat with true by (symmetry; apply Nat.ltb_lt; exact Hc).
  destruct (Hbit r c) as [-> | ->]; reflexivity.
Qed.

(** X16. A routing matrix written by [_serialize_routing_matrix] is read
    back by [_parse_routing_matrix] as the twelve by twelve grid of zeros and
    ones that [_clone_routing_matrix] makes of it, whatever the shape and the
    entries of the matrix that was written. *)
Theorem saved_matrix_is_read_back (m : BoolMatrix) :
  _parse_routing_matrix (_serialize_routing_matrix m) = _clone_routing_matrix m.
Proof.
  unfold _parse_routing_matrix, _serialize_routing_matrix.
  set (G := _clone_routing_matrix m).
  set (rows := map row_text G).
  assert (Hrows_len : length rows = SIZE).
  { unfold rows, G, _clone_routing_matrix, grid. rewrite !length_map, length_seq.
    reflexivity. }
  assert (Hrow_len : Forall (fun r => length r = SIZE) rows).
  { apply Forall_forall. intros r Hr. apply in_map_iff in Hr.
    destruct Hr as (z & <- & Hz). unfold row_text. rewrite length_map.
    destruct (clone_shape m) as [_ S]. rewrite Forall_forall in S. apply (S z Hz). }
  assert (Hne : is_empty (string_of_list_ascii (join_rows rows)) = false).
  { destruct rows as [|r rest]; [discriminate|].
    apply Forall_cons_iff in Hrow_len. destruct Hrow_len as [Hr _].
    destruct r as [|c r]; [discriminate|].
    destruct rest; reflexivity. }
  rewrite Hne, list_ascii_of_string_of_list_ascii.
  rewrite split_join.
  - assert (Hfilter : filter (fun segment => negb (length segment =? 0)%nat) rows = rows).
    { apply forallb_filter_id. apply forallb_forall. intros r Hr.
      rewrite Forall_forall in Hrow_len. rewrite (Hrow_len r Hr). reflexivity. }
    rewrite Hfilter. unfold rows, G, _clone_routing_matrix.
    apply parse_rows_of_grid. intros r c. destruct (_ && _); auto.
  - intros H. rewrite H in Hrows_len. discriminate.
  - apply Forall_forall. intros r Hr. apply in_map_iff in Hr.
    destruct Hr as (z & <- & _). apply row_text_no_bar.
Qed.

(** *** Presets *)

(** X17. The preset built for a target of [t] channels addresses exactly
    the first [t] output channels, for [t] from 1 to 12; a larger target
    counts as 12, and a target of zero or less gives the one-to-one matrix
    over all twelve channels. *)
Theorem preset_addresses_its_channels (t : Z) :
  _routing_matrix_target_channels (_routing_matrix_preset t)
  = if t <=? 0 then 12 else Z.min 12 t.
Proof.
  unfold _routing_matrix_preset. destruct (t <=? 0) eqn:E; [reflexivity|].
  apply Z.leb_gt in E. cbv zeta.
  assert (Hcases : t = 1 \/ t = 2 \/ t = 3 \/ t = 4 \/ t = 5 \/ t = 6 \/ t = 7 \/
                   t = 8 \/ t = 9 \/ t = 10 \/ t = 11 \/ 12 <= t) by lia.
  assert (Hbig : 12 <= t -> Z.max 1 (Z.min (Z.of_nat SIZE) t) = 12)
    by (intros H; change (Z.of_nat SIZE) with 12; lia).
  destruct Hcases as [->|[->|[->|[->|[->|[->|[->|[->|[->|[->|[->|H]]]]]]]]]]];
    try reflexivity.
  rewrite (Hbig H). replace (Z.min 12 t) with 12 by lia. reflexivity.
Qed.

(** *** The runtime gain matrix *)

Lemma set_nth_length {A : Type} (n : nat) (v : A) (l : list A) :
  length (set_nth n v l) = length l.
Proof.
  revert n. induction l as [|x l IH]; intros [|n]; simpl; auto.
Qed.

Lemma set_nth_Forall {A : Type} (P : A -> Prop) (n : nat) (v : A) (l : list A) :
  P v -> Forall P l -> Forall P (set_nth n v l).
Proof.
  intros Hv. revert n. induction l as [|x l IH]; intros [|n] Hl; simpl; auto;
    apply Forall_cons_iff in Hl; destruct Hl as [Hx Hl]; constructor; auto.
Qed.

Lemma set_nth_Exists_here {A : Type} (P : A -> Prop) (n : nat) (v : A) (l : list A) :
  (n < length l)%nat -> P v -> Exists P (set_nth n v l).
Proof.
  revert n. induction l as [|x l IH]; intros [|n] Hn Hv; simpl in *; try lia.
  - left. exact Hv.
  - right. apply IH; [lia | exact Hv].
Qed.

Lemma set_nth_Exists_keep {A : Type} (P : A -> Prop) (n : nat) (v d : A) (l : list A) :
  Exists P l -> (P (nth n l d) -> P v) -> Exists P (set_nth n v l).
Proof.
  revert n. induction l as [|x l IH]; intros [|n] He Hv; simpl in *;
    try (inversion He; fail).
  - apply Exists_cons in He. destruct He as [Hx | Hl]; [left; auto | right; exact Hl].
  - apply Exists_cons in He. destruct He as [Hx | Hl]; [left; exact Hx | right; auto].
Qed.

Lemma unit_gain_div (x s : Q) : unit_gain x -> (1 < s)%Q -> unit_gain (x / s).
Proof.
  intros [H0 H1] Hs.
  assert (Hpos : (0 < s)%Q) by (apply Qlt_trans with 1%Q; [reflexivity | exact Hs]).
  split.
  - apply Qle_shift_div_l; [exact Hpos|]. rewrite Qmult_0_l. exact H0.
  - apply Qle_shift_div_r; [exact Hpos|]. rewrite Qmult_1_l.
    apply Qle_trans with 1%Q; [exact H1 | apply Qlt_le_weak; exact Hs].
Qed.

Lemma positive_div (x s : Q) : (0 < x)%Q -> (1 < s)%Q -> (0 < x / s)%Q.
Proof.
  intros Hx Hs.
  assert (Hpos : (0 < s)%Q) by (apply Qlt_trans with 1%Q; [reflexivity | exact Hs]).
  apply Qlt_shift_div_l; [exact Hpos|]. rewrite Qmult_0_l. exact Hx.
Qed.

Lemma build_row_shape (cfg : Config) (base : BoolMatrix) (n i : nat) :
  length (build_row cfg base n i) = n /\ Forall unit_gain (build_row cfg base n i).
Proof.
  unfold build_row. cbv zeta.
  match goal with |- context [map ?f (seq 0 n)] => set (row := map f (seq 0 n)) end.
  assert (Hlen : length row = n) by (unfold row; rewrite length_map, length_seq; reflexivity).
  assert (Hall : Forall unit_gain row).
  { unfold row. apply Forall_forall. intros g Hg. apply in_map_iff in Hg.
    destruct Hg as (j & <- & _).
    match goal with |- context [if ?c then _ else _] => destruct c end;
      split; discriminate. }
  match goal with |- context [if ?c then _ else _] => destruct c end.
  - rewrite set_nth_length. split; [exact Hlen|].
    apply set_nth_Forall; [split; discriminate | exact Hall].
  - split; assumption.
Qed.

Lemma normalize_row_shape (row : list Q) :
  Forall unit_gain row ->
  length (normalize_row row) = length row /\ Forall unit_gain (normalize_row row).
Proof.
  intros Hall. unfold normalize_row. cbv zeta.
  destruct (qgt (row_sum row) 1) eqn:E; [|split; [reflexivity | exact Hall]].
  apply qgt_spec in E. rewrite length_map. split; [reflexivity|].
  apply Forall_forall. intros g Hg. apply in_map_iff in Hg.
  destruct Hg as (x & <- & Hx). rewrite Forall_forall in Hall.
  apply unit_gain_div; [apply Hall; exact Hx | exact E].
Qed.

Lemma normalize_col_shape (n j : nat) (m : Matrix) :
  Forall (fun row => length row = n /\ Forall unit_gain row) m ->
  Forall (fun row => length row = n /\ Forall unit_gain row) (normalize_col j m).
Proof.
  intros Hall. unfold normalize_col. cbv zeta.
  destruct (qgt (col_sum j m) 1) eqn:E; [|exact Hall].
  apply qgt_spec in E. apply Forall_forall. intros row Hrow.
  apply in_map_iff in Hrow. destruct Hrow as (r & <- & Hr).
  rewrite Forall_forall in Hall. destruct (Hall r Hr) as [Hlen Hg].
  destruct (j <? length r)%nat eqn:Ej; [|split; assumption].
  apply Nat.ltb_lt in Ej. rewrite set_nth_length. split; [exact Hlen|].
  apply set_nth_Forall; [|exact Hg].
  apply unit_gain_div; [|exact E].
  rewrite Forall_forall in Hg. apply Hg. apply nth_In. exact Ej.
Qed.

Lemma normalize_cols_shape (n k : nat) (m : Matrix) :
  Forall (fun row => length row = n /\ Forall unit_gain row) m ->
  Forall (fun row => length row = n /\ Forall unit_gain row) (normalize_cols k m) /\
  length (normalize_cols k m) = length m.
Proof.
  unfold normalize_cols. generalize (seq 0 k). intros js. revert m.
  induction js as [|j js IH]; intros m Hall; simpl; [split; auto|].
  destruct (IH (normalize_col j m) (normalize_col_shape n j m Hall)) as [A B].
  split; [exact A|]. rewrite B. unfold normalize_col. cbv zeta.
  destruct (qgt _ 1); [apply length_map | reflexivity].
Qed.

(** X18. The runtime routing matrix has one row for every source channel
    and one gain for every output channel in each row (both counts at least
    1), and every gain lies between 0 and 1 (gains in exact arithmetic). *)
Theorem runtime_matrix_is_well_shaped (cfg : Config) (source_channels output_channels : Z) :
  let m := _build_runtime_routing_matrix cfg source_channels output_channels in
  length m = Z.to_nat (Z.max 1 source_channels) /\
  Forall (fun row => length row = Z.to_nat (Z.max 1 output_channels) /\
                     Forall unit_gain row) m.
Proof.
  unfold _build_runtime_routing_matrix. cbv zeta.
  set (sc := Z.to_nat (Z.max 1 source_channels)).
  set (oc := Z.to_nat (Z.max 1 output_channels)).
  set (rows := map (build_row cfg (base_matrix cfg) oc) (seq 0 sc)).
  assert (Hlen : length rows = sc)
    by (unfold rows; rewrite length_map, length_seq; reflexivity).
  assert (Hall : Forall (fun row => length row = oc /\ Forall unit_gain row) rows).
  { unfold rows. apply Forall_forall. intros row Hrow. apply in_map_iff in Hrow.
    destruct Hrow as (i & <- & _). apply build_row_shape. }
  destruct (negb (_audio_matrix_enabled cfg)); [|split; assumption].
  assert (Hnorm : Forall (fun row => length row = oc /\ Forall unit_gain row)
                    (map normalize_row rows)).
  { apply Forall_forall. intros row Hrow. apply in_map_iff in Hrow.
    destruct Hrow as (r & <- & Hr). rewrite Forall_forall in Hall.
    destruct (Hall r Hr) as [Hl Hg].
    destruct (normalize_row_shape r Hg) as [Hl' Hg']. split; [congruence | exact Hg']. }
  destruct (normalize_cols_shape oc oc (map normalize_row rows) Hnorm) as [A B].
  split; [rewrite B, length_map; exact Hlen | exact A].
Qed.

Lemma build_row_has_gain (cfg : Config) (base : BoolMatrix) (n i : nat) :
  _audio_matrix_enabled cfg = false -> (1 <= n)%nat ->
  Exists (fun g => (0 < g)%Q) (build_row cfg base n i).
Proof.
  intros Hoff Hn. unfold build_row. cbv zeta. rewrite Hoff.
  match goal with |- context [existsb ?f (seq 0 n)] => set (hit := f) end.
  destruct (existsb hit (seq 0 n)) eqn:E; simpl.
  - apply existsb_exists in E. destruct E as (j & Hj & Hhit).
    apply Exists_exists. exists 1%Q. split; [|reflexivity].
    apply in_map_iff. exists j. split; [|exact Hj].
    change ((if hit j then 1%Q else 0%Q) = 1%Q). rewrite Hhit. reflexivity.
  - apply set_nth_Exists_here; [|reflexivity].
    rewrite length_map, length_seq. lia.
Qed.

Lemma normalize_row_has_gain (row : list Q) :
  Exists (fun g => (0 < g)%Q) row -> Exists (fun g => (0 < g)%Q) (normalize_row row).
Proof.
  intros He. unfold normalize_row. cbv zeta.
  destruct (qgt (row_sum row) 1) eqn:E; [|exact He].
  apply qgt_spec in E. apply Exists_exists in He. destruct He as (x & Hx & Hpos).
  apply Exists_exists. exists (x / row_sum row)%Q. split.
  - apply in_map_iff. exists x. auto.
  - apply positive_div; assumption.
Qed.

Lemma normalize_col_has_gain (j : nat) (m : Matrix) :
  Forall (Exists (fun g => (0 < g)%Q)) m ->
  Forall (Exists (fun g => (0 < g)%Q)) (normalize_col j m).
Proof.
  intros Hall. unfold normalize_col. cbv zeta.
  destruct (qgt (col_sum j m) 1) eqn:E; [|exact Hall].
  apply qgt_spec in E. apply Forall_forall. intros row Hrow.
  apply in_map_iff in Hrow. destruct Hrow as (r & <- & Hr).
  rewrite Forall_forall in Hall. specialize (Hall r Hr).
  destruct (j <? length r)%nat; [|exact Hall].
  apply (set_nth_Exists_keep _ j _ 0%Q); [exact Hall|].
  intros Hpos. apply positive_div; assumption.
Qed.

(** X19. With explicit matrix mode off, no source channel is dropped: every
    row of the runtime routing matrix holds a gain above zero, for every
    source and output channel count. *)
Theorem preset_routes_every_source (cfg : Config) (source_channels output_channels : Z) :
  _audio_matrix_enabled cfg = false ->
  Forall (Exists (fun g => (0 < g)%Q))
    (_build_runtime_routing_matrix cfg source_channels output_channels).
Proof.
  intros Hoff. unfold _build_runtime_routing_matrix. cbv zeta. rewrite Hoff. simpl negb.
  cbv iota. unfold normalize_cols.
  set (oc := Z.to_nat (Z.max 1 output_channels)).
  assert (Hoc : (1 <= oc)%nat) by (unfold oc; lia).
  match goal with |- context [map normalize_row ?rows] => set (m := map normalize_row rows) end.
  assert (Hm : Forall (Exists (fun g => (0 < g)%Q)) m).
  { unfold m. apply Forall_forall. intros row Hrow. apply in_map_iff in Hrow.
    destruct Hrow as (r & <- & Hr). apply normalize_row_has_gain.
    apply in_map_iff in Hr. destruct Hr as (i & <- & _).
    apply build_row_has_gain; assumption. }
  revert Hm. generalize m. generalize (seq 0 oc). intros js.
  induction js as [|j js IH]; intros m0 Hm0; simpl; [exact Hm0|].
  apply IH. apply normalize_col_has_gain. exact Hm0.
Qed.

Lemma preset_routes_every_source_witness :
  Forall (Exists (fun g => (0 < g)%Q))
    (_build_runtime_routing_matrix Examples.stereo_preset 6 2).
Proof.
  apply (preset_routes_every_source Examples.stereo_preset 6 2). reflexivity.
Defined.

(** *** Resolving the playback source *)

Lemma dict_get_set_same {V : Type} (k : string) (v : V) (d : list (string * V)) :
  Dict.get k (Dict.set k v d) = Some v.
Proof.
  induction d as [|[k' v'] d IH]; simpl.
  - rewrite String.eqb_refl. reflexivity.
  - destruct (String.eqb k k') eqn:E; simpl; rewrite E; [reflexivity | exact IH].
Qed.

Lemma routed_path_not_empty (dir key : string) :
  is_empty (routed_path_of dir key) = false.
Proof.
  unfold is_empty, routed_path_of. apply String.eqb_neq.
  destruct dir; discriminate.
Qed.

Section Resolving.

Variable abspath : string -> string.
Variable stat : string -> option (Z * Z).
Variable device_max_for : Z -> Z.

Lemma isfile_iff (p : string) (fs : list string) :
  isfile abspath p fs = true <-> In (abspath p) fs.
Proof. unfold isfile. apply in_list_spec. Qed.

Lemma isfile_created (p : string) (fs : list string) :
  isfile abspath p (fs_create abspath p fs) = true.
Proof.
  unfold fs_create. destruct (isfile abspath p fs) eqn:E; [exact E|].
  apply isfile_iff. left. reflexivity.
Qed.

Lemma In_fs_create (p q : string) (fs : list string) :
  In q (fs_create abspath p fs) <-> q = abspath p \/ In q fs.
Proof.
  unfold fs_create. destruct (isfile abspath p fs) eqn:E.
  - apply isfile_iff in E. split; [auto|]. intros [-> | H]; assumption.
  - simpl. split; intros [H | H]; auto.
Qed.

Lemma In_fs_remove (p q : string) (fs : list string) :
  In q (fs_remove abspath p fs) <-> In q fs /\ q <> abspath p.
Proof.
  unfold fs_remove. rewrite filter_In, negb_true_iff, String.eqb_neq. reflexivity.
Qed.

Lemma trim_is_idle (pl : Player) :
  (length (_routed_audio_cache pl) <= 16)%nat ->
  _trim_routed_audio_cache abspath 16 pl = pl.
Proof.
  intros Hlen. unfold _trim_routed_audio_cache. simpl Z.ltb. cbv iota zeta.
  destruct (length (_routed_audio_cache pl)) as [|n] eqn:E; [reflexivity|].
  simpl. rewrite E.
  replace (Z.of_nat (S n) >? 16) with false; [reflexivity|].
  symmetry. rewrite Z.gtb_ltb. apply Z.ltb_ge. lia.
Qed.

(** The test that stands between reading the header and the cache. *)
Lemma shortcut_is_off (cfg : Config) :
  _routing_requires_processing cfg = true ->
  negb (_audio_matrix_enabled cfg) && String.eqb (_audio_routing_mode cfg) "auto" = false.
Proof.
  unfold _routing_requires_processing.
  destruct (_audio_matrix_enabled cfg); [reflexivity|].
  destruct (String.eqb (_audio_routing_mode cfg) "auto"); [discriminate | reflexivity].
Qed.

(** X20. Once routing requires processing and the header of the source can
    be read, the playback source is always resolved through the routed-file
    cache: the test for an identity routing that follows can never hand the
    source back, because it asks for automatic mode with the matrix off,
    which is exactly when routing requires no processing. *)
Theorem identity_shortcut_is_never_taken (env : Env) (source_path : string) (pl : Player) :
  route_plan abspath stat device_max_for env source_path pl = Passthrough <->
  _routing_requires_processing (config pl) = false \/ info_channels env = None.
Proof.
  unfold route_plan. cbv zeta.
  destruct (_routing_requires_processing (config pl)) eqn:Ereq; simpl negb; cbv iota;
    [|split; auto].
  destruct (info_channels env) as [ch|]; [|split; auto].
  rewrite (shortcut_is_off _ Ereq). simpl andb. cbv iota.
  split; [|intros [H | H]; discriminate].
  destruct (_ && _); [discriminate|].
  destruct (isfile abspath _ (files pl)); discriminate.
Qed.

Lemma plan_of (env : Env) (source_path : string) (pl : Player) (ch : Z) :
  _routing_requires_processing (config pl) = true ->
  info_channels env = Some ch ->
  let sc := Z.max 1 ch in
  let key := cache_key stat (config pl) source_path sc
               (_effective_output_channels device_max_for (config pl) sc) in
  let cached_path := match Dict.get key (_routed_audio_cache pl) with
                     | Some p => p
                     | None => ""%string
                     end in
  let routed := routed_path_of (_routed_audio_dir pl) key in
  route_plan abspath stat device_max_for env source_path pl
  = if negb (is_empty cached_path) && isfile abspath cached_path (files pl)
    then Reuse cached_path
    else if isfile abspath routed (files pl) then Adopt key routed
         else Render key routed (tmp_path_of (_routed_audio_dir pl) key).
Proof.
  intros Hreq Hinfo. unfold route_plan. cbv zeta.
  rewrite Hreq, Hinfo. simpl negb. cbv iota.
  rewrite (shortcut_is_off _ Hreq). reflexivity.
Qed.

Lemma remembered (key routed : string) (pl : Player) :
  (length (_routed_audio_cache pl) < 16)%nat ->
  let pl' := remember abspath key routed pl in
  config pl' = config pl /\ _routed_audio_dir pl' = _routed_audio_dir pl /\
  files pl' = files pl /\
  Dict.get key (_routed_audio_cache pl') = Some routed /\
  In routed (_session_routed_files pl').
Proof.
  intros Hlen. unfold remember. rewrite trim_is_idle.
  - simpl. repeat split.
    + apply dict_get_set_same.
    + unfold set_add. destruct (Controller.in_list routed (_session_routed_files pl)) eqn:E.
      * apply in_list_spec. exact E.
      * left. reflexivity.
  - simpl. rewrite set_length. destruct (Dict.get key (_routed_audio_cache pl)); lia.
Qed.

(** X21. When a call of [_resolve_playback_source] hands back a routed file
    (found in the cache, found on disk, or rendered without an error) and
    the cache holds fewer than sixteen entries, the file is on disk and is
    tracked, and a second call for the same source with the same settings
    hands back the same path without rendering and changes nothing. *)
Theorem routed_file_is_reused (env : Env) (source_path : string) (pl : Player) (ch : Z) :
  _routing_requires_processing (config pl) = true ->
  info_channels env = Some ch ->
  (forall key routed tmp,
     route_plan abspath stat device_max_for env source_path pl = Render key routed tmp ->
     fst (render abspath env tmp routed (files pl)) = true) ->
  (length (_routed_audio_cache pl) < 16)%nat ->
  let result := _resolve_playback_source abspath stat device_max_for env source_path pl in
  isfile abspath (fst result) (files (snd result)) = true /\
  (exists key, Dict.get key (_routed_audio_cache (snd result)) = Some (fst result)) /\
  forall env2, info_channels env2 = info_channels env ->
    _resolve_playback_source abspath stat device_max_for env2 source_path (snd result)
    = result.
Proof.
  intros Hreq Hinfo Hrender Hlen result.
  pose proof (plan_of env source_path pl ch Hreq Hinfo) as Hplan. cbv zeta in Hplan.
  set (sc := Z.max 1 ch) in *.
  set (key := cache_key stat (config pl) source_path sc
                (_effective_output_channels device_max_for (config pl) sc)) in *.
  set (routed := routed_path_of (_routed_audio_dir pl) key) in *.
  assert (Hagain : forall pl1 p,
            config pl1 = config pl -> _routed_audio_dir pl1 = _routed_audio_dir pl ->
            Dict.get key (_routed_audio_cache pl1) = Some p ->
            is_empty p = false -> isfile abspath p (files pl1) = true ->
            forall env2, info_channels env2 = info_channels env ->
              _resolve_playback_source abspath stat device_max_for env2 source_path pl1
              = (p, pl1)).
  { intros pl1 p Hc Hd Hg He Hf env2 Hi2.
    assert (Hreq1 : _routing_requires_processing (config pl1) = true) by (rewrite Hc; exact Hreq).
    assert (Hinfo2 : info_channels env2 = Some ch) by (rewrite Hi2; exact Hinfo).
    pose proof (plan_of env2 source_path pl1 ch Hreq1 Hinfo2) as Hp2. cbv zeta in Hp2.
    rewrite Hc in Hp2. fold sc key in Hp2. rewrite Hg, He, Hf in Hp2. simpl in Hp2.
    unfold _resolve_playback_source. rewrite Hp2. reflexivity. }
  unfold result, _resolve_playback_source.
  destruct (Dict.get key (_routed_audio_cache pl)) as [cp|] eqn:Eget.
  - destruct (negb (is_empty cp) && isfile abspath cp (files pl)) eqn:Ecp.
    + rewrite Hplan. simpl. apply andb_true_iff in Ecp. destruct Ecp as [E1 E2].
      apply negb_true_iff in E1.
      split; [exact E2|]. split; [exists key; exact Eget|].
      apply Hagain; auto.
    + destruct (isfile abspath routed (files pl)) eqn:Er.
      * rewrite Hplan.
        destruct (remembered key routed pl Hlen) as (A & B & C & D & E).
        cbn [fst snd]. split; [rewrite C; exact Er|]. split; [exists key; exact D|].
        apply Hagain; auto; [apply routed_path_not_empty | rewrite C; exact Er].
      * specialize (Hrender _ _ _ Hplan). rewrite Hplan.
        destruct (render abspath env (tmp_path_of (_routed_audio_dir pl) key) routed
                    (files pl)) as [ok fs] eqn:Eren.
        simpl in Hrender. subst ok.
        assert (Hfs : isfile abspath routed fs = true).
        { unfold render in Eren.
          destruct (negb (src_opens env)); [discriminate|].
          destruct (negb (dst_opens env)); [discriminate|].
          destruct (route_loop _ _ _); [|discriminate].
          destruct (replace_ok env); [|discriminate].
          injection Eren as <-. apply isfile_created. }
        destruct (remembered key routed (set_files fs pl) Hlen) as (A & B & C & D & E).
        cbn [fst snd]. split; [rewrite C; exact Hfs|]. split; [exists key; exact D|].
        apply Hagain; auto; [apply routed_path_not_empty | rewrite C; exact Hfs].
  - simpl in Hplan.
    destruct (isfile abspath routed (files pl)) eqn:Er.
    + rewrite Hplan.
      destruct (remembered key routed pl Hlen) as (A & B & C & D & E).
      cbn [fst snd]. split; [rewrite C; exact Er|]. split; [exists key; exact D|].
      apply Hagain; auto; [apply routed_path_not_empty | rewrite C; exact Er].
    + specialize (Hrender _ _ _ Hplan). rewrite Hplan.
      destruct (render abspath env (tmp_path_of (_routed_audio_dir pl) key) routed
                  (files pl)) as [ok fs] eqn:Eren.
      simpl in Hrender. subst ok.
      assert (Hfs : isfile abspath routed fs = true).
      { unfold render in Eren.
        destruct (negb (src_opens env)); [discriminate|].
        destruct (negb (dst_opens env)); [discriminate|].
        destruct (route_loop _ _ _); [|discriminate].
        destruct (replace_ok env); [|discriminate].
        injection Eren as <-. apply isfile_created. }
      destruct (remembered key routed (set_files fs pl) Hlen) as (A & B & C & D & E).
      cbn [fst snd]. split; [rewrite C; exact Hfs|]. split; [exists key; exact D|].
      apply Hagain; auto; [apply routed_path_not_empty | rewrite C; exact Hfs].
Qed.

(** X22. A render that fails changes no file other than its temporary
    file: every other path is on disk afterwards exactly when it was
    before, so routed files of earlier calls are left alone. *)
Theorem failed_render_touches_only_its_temporary_file (env : Env)
    (source_path key routed tmp : string) (pl : Player) :
  route_plan abspath stat device_max_for env source_path pl = Render key routed tmp ->
  fst (render abspath env tmp routed (files pl)) = false ->
  let pl' := snd (_resolve_playback_source abspath stat device_max_for env source_path pl) in
  forall q, q <> abspath tmp -> (In q (files pl') <-> In q (files pl)).
Proof.
  intros Hplan Hfail pl' q Hq. unfold pl', _resolve_playback_source. rewrite Hplan.
  destruct (render abspath env tmp routed (files pl)) as [ok fs] eqn:Eren.
  simpl in Hfail. subst ok. cbn [snd]. simpl files.
  assert (Hfs : In q fs <-> In q (files pl)).
  { unfold render in Eren.
    destruct (negb (src_opens env)); [injection Eren as <-; reflexivity|].
    destruct (negb (dst_opens env)).
    - injection Eren as <-. destruct (dst_leftover env); [|reflexivity].
      rewrite In_fs_create. split; [intros [H | H]; [contradiction | exact H] | auto].
    - destruct (route_loop _ _ _); [destruct (replace_ok env); [discriminate|]|];
        injection Eren as <-; rewrite In_fs_create;
        (split; [intros [H | H]; [contradiction | exact H] | auto]). }
  destruct (isfile abspath tmp fs); [|exact Hfs].
  rewrite In_fs_remove, Hfs. split; [intros [H _]; exact H | auto].
Qed.

(** *** The end of the session *)

Lemma cleanup_loop (cur : string) (l : list string) :
  forall pl0 : Player,
    let pl' := fold_left (cleanup_one abspath cur) l pl0 in
    (forall p, In p (_session_routed_files pl') <->
               In p (_session_routed_files pl0) /\
               ~ (In p l /\ is_current abspath cur p = false)) /\
    (forall q, In q (files pl') <->
               In q (files pl0) /\
               ~ (exists p, In p l /\ p <> ""%string /\
                            is_current abspath cur p = false /\ abspath p = q)) /\
    _routed_audio_cache pl' = _routed_audio_cache pl0 /\ config pl' = config pl0.
Proof.
  induction l as [|a l IH]; intros pl0; simpl.
  - split; [intros p; tauto|]. split; [|auto].
    intros q. split; [intros H; split; [exact H | intros (p & [] & _)] | tauto].
  - destruct (IH (cleanup_one abspath cur pl0 a)) as (S & F & C & G).
    unfold cleanup_one in S, F, C, G |- *.
    destruct (is_current abspath cur a) eqn:Ecur.
    + split; [|split; [|auto]].
      * intros p. rewrite S. split.
        -- intros [Hin Hn]. split; [exact Hin|]. intros [[<- | Hl] Hc];
             [congruence | apply Hn; auto].
        -- intros [Hin Hn]. split; [exact Hin|]. intros [Hl Hc]. apply Hn; auto.
      * intros q. rewrite F. split.
        -- intros [Hin Hn]. split; [exact Hin|].
           intros (p & [<- | Hl] & Hne & Hc & Hq); [congruence|].
           apply Hn. exists p. auto.
        -- intros [Hin Hn]. split; [exact Hin|].
           intros (p & Hl & Hne & Hc & Hq). apply Hn. exists p. auto.
    + cbv zeta in S, F, C, G.
      assert (Hfiles : forall q,
                In q (files (if negb (is_empty a) && isfile abspath a (files pl0)
                             then set_files (fs_remove abspath a (files pl0)) pl0
                             else pl0)) <->
                In q (files pl0) /\ ~ (a <> ""%string /\ abspath a = q)).
      { intros q. destruct (is_empty a) eqn:Ea; unfold is_empty in Ea; simpl.
        - apply String.eqb_eq in Ea. split; [|tauto].
          intros H. split; [exact H|]. intros [Hne _]. contradiction.
        - apply String.eqb_neq in Ea.
          destruct (isfile abspath a (files pl0)) eqn:Ef; simpl.
          + rewrite In_fs_remove. split.
            * intros [H1 H2]. split; [exact H1|]. intros [_ H3]. congruence.
            * intros [H1 H2]. split; [exact H1|]. intros ->. apply H2. auto.
          + split; [|tauto]. intros H. split; [exact H|]. intros [_ <-].
            apply isfile_iff in H. congruence. }
      match type of S with context [set_session_routed_files ?v ?x] =>
        set (pl1 := x) in * end.
      assert (Hc1 : _routed_audio_cache pl1 = _routed_audio_cache pl0 /\
                    config pl1 = config pl0 /\
                    _session_routed_files pl1 = _session_routed_files pl0).
      { unfold pl1. destruct (_ && _); auto. }
      destruct Hc1 as (Hc1 & Hg1 & Hs1).
      simpl in S, F, C, G.
      split; [|split; [|split; congruence]].
      * intros p. rewrite S. unfold set_discard. rewrite filter_In, negb_true_iff,
          String.eqb_neq, Hs1. split.
        -- intros [[Hin Hne] Hn]. split; [exact Hin|].
           intros [[<- | Hl] Hc]; [congruence | apply Hn; auto].
        -- intros [Hin Hn]. split; [split; [exact Hin|]|].
           ++ intros ->. apply Hn. auto.
           ++ intros [Hl Hc]. apply Hn. auto.
      * intros q. rewrite F, Hfiles. split.
        -- intros [[Hin Ha] Hn]. split; [exact Hin|].
           intros (p & [<- | Hl] & Hne & Hc & Hq); [apply Ha; auto|].
           apply Hn. exists p. auto.
        -- intros [Hin Hn]. split; [split; [exact Hin|]|].
           ++ intros [Hne Hq]. apply Hn. exists a. auto.
           ++ intros (p & Hl & Hne & Hc & Hq). apply Hn. exists p. auto.
Qed.

(** X23. [_cleanup_session_routed_files] keeps tracking exactly the routed
    files that are the source loaded in the playback component, and takes
    from the disk exactly the files of the other tracked paths: a file that
    is the loaded source, or that was never tracked, stays.  The routed-file
    cache itself is not touched, so it may still name files that are gone. *)
Theorem session_cleanup_spares_the_playing_file (pl : Player) :
  let current := current_source_abs_of abspath pl in
  let pl' := _cleanup_session_routed_files abspath pl in
  (forall p, In p (_session_routed_files pl') <->
             In p (_session_routed_files pl) /\ is_current abspath current p = true) /\
  (forall q, In q (files pl') <->
             In q (files pl) /\
             ~ (exists p, In p (_session_routed_files pl) /\ p <> ""%string /\
                          is_current abspath current p = false /\ abspath p = q)) /\
  _routed_audio_cache pl' = _routed_audio_cache pl.
Proof.
  intros current pl'. unfold pl', _cleanup_session_routed_files. fold current.
  destruct (cleanup_loop current (_session_routed_files pl) pl) as (S & F & C & _).
  split; [|split; [exact F | exact C]].
  intros p. rewrite S. split.
  - intros [Hin Hn]. split; [exact Hin|].
    destruct (is_current abspath current p); [reflexivity|]. exfalso. apply Hn. auto.
  - intros [Hin Hc]. split; [exact Hin|]. intros [_ Hf]. congruence.
Qed.

End Resolving.

Lemma identity_shortcut_is_never_taken_witness :
  route_plan Examples.plain_abspath Examples.uniform_stat Examples.stereo_device
    Examples.sound_env "/m/a.wav"
    (Examples.idle_player (mk_config false "auto" _default_routing_matrix))
  = Passthrough.
Proof.
  apply (proj2 (identity_shortcut_is_never_taken Examples.plain_abspath
                  Examples.uniform_stat Examples.stereo_device Examples.sound_env
                  "/m/a.wav"
                  (Examples.idle_player (mk_config false "auto" _default_routing_matrix)))).
  left. reflexivity.
Defined.

Lemma routed_file_is_reused_witness :
  let result :=
    _resolve_playback_source Examples.plain_abspath Examples.uniform_stat
      Examples.stereo_device Examples.sound_env "/m/a.wav"
      (Examples.idle_player Examples.stereo_preset) in
  isfile Examples.plain_abspath (fst result) (files (snd result)) = true /\
  (exists key, Dict.get key (_routed_audio_cache (snd result)) = Some (fst result)) /\
  forall env2, info_channels env2 = info_channels Examples.sound_env ->
    _resolve_playback_source Examples.plain_abspath Examples.uniform_stat
      Examples.stereo_device env2 "/m/a.wav" (snd result)
    = result.
Proof.
  apply (routed_file_is_reused Examples.plain_abspath Examples.uniform_stat
           Examples.stereo_device Examples.sound_env "/m/a.wav"
           (Examples.idle_player Examples.stereo_preset) 2).
  - reflexivity.
  - reflexivity.
  - intros key routed tmp _. reflexivity.
  - simpl. lia.
Defined.

Lemma failed_render_touches_only_its_temporary_file_witness :
  exists key routed tmp,
    route_plan Examples.plain_abspath Examples.uniform_stat Examples.stereo_device
      Examples.failing_env "/m/a.wav" (Examples.idle_player Examples.stereo_preset)
    = Render key routed tmp /\
    forall q, q <> Examples.plain_abspath tmp ->
      (In q (files (snd (_resolve_playback_source Examples.plain_abspath
                           Examples.uniform_stat Examples.stereo_device
                           Examples.failing_env "/m/a.wav"
                           (Examples.idle_player Examples.stereo_preset)))) <->
       In q (files (Examples.idle_player Examples.stereo_preset))).
Proof.
  eexists _, _, _. split; [vm_compute; reflexivity|].
  eapply (failed_render_touches_only_its_temporary_file Examples.plain_abspath
            Examples.uniform_stat Examples.stereo_device Examples.failing_env
            "/m/a.wav").
  - vm_compute. reflexivity.
  - reflexivity.
Defined.


End RoutingExtras.

(** ** Preloading and automatic routing *)

Module PlaybackExtras.

Import Np Waveform Controller Scheduler Routing Settings Reference.
Import DictFacts ControllerFacts ControllerExtras.

Section Preloaded.

Variable stat : string -> option (Z * Z).

(** X24. Preloading pays off: once the result of the preload job has been
    taken in, loading that track, with the file and the resolution as they
    were when the job was started, shows the stored waveform at once, leaves
    the cache as it is and starts no job for the track. *)
Theorem preloaded_waveform_is_shown_at_once (rid : Z) (p : string) (x : list Q)
    (amp : ndarray2) (h : Host) :
  rid = _preload_request_id h -> p = _preload_path h ->
  _preload_signature h = signature_or_empty stat p h ->
  (length (wave_cache h) <= 40)%nat ->
  let stored := _align_wave_channels x amp in
  let h1 := _on_preload_finished rid p x amp h in
  let h2 := _load_waveform_for_track stat p h1 in
  plot h2 = plot (_set_waveform_from_channels (fst stored) (snd stored) h1) /\
  wave_cache h2 = wave_cache h1 /\
  exists new,
    started h2 = started h1 ++ new /\ (length new <= 1)%nat /\
    Forall (fun job => path job <> p) new.
Proof.
  intros Hrid Hp Hsig Hlen stored h1 h2.
  assert (H1 : wave_cache h1
               = wave_cache (_cache_store p (_preload_signature h)
                               (fst stored) (snd stored) h) /\
               _waveform_points h1 = _waveform_points h).
  { unfold h1, _on_preload_finished.
    rewrite <- Hrid, <- Hp, Z.eqb_refl, String.eqb_refl. simpl orb. cbv iota.
    unfold stored. destruct (_align_wave_channels x amp) as [xa aa]. cbv zeta.
    match goal with |- context [if ?c then _ else _] => destruct c end;
      [|split; reflexivity].
    match goal with |- context [_set_waveform_from_channels ?a ?b ?hh] =>
      pose proof (set_waveform_keeps a b hh)
        as (A & _ & _ & _ & _ & _ & _ & _ & _ & _ & _ & B & _) end.
    simpl in *. rewrite A, B. split; reflexivity. }
  destruct H1 as [Hc Hpts].
  assert (Hget : _cache_get h1 p (signature_or_empty stat p h1)
                 = Some (_preload_signature h, fst stored, snd stored)).
  { assert (Hs1 : signature_or_empty stat p h1 = _preload_signature h).
    { rewrite Hsig. unfold signature_or_empty. rewrite Hpts. reflexivity. }
    rewrite Hs1.
    pose proof (proj1 (cache_get_after_store p (_preload_signature h)
                         (_preload_signature h) (fst stored) (snd stored) h Hlen)) as K.
    unfold _cache_get in *. unfold CacheEntry in *. rewrite Hc. exact K. }
  destruct (cache_hit_spec stat p h1 _ _ _ Hget) as (A & B & _ & new & C & D & E).
  split; [exact A|]. split; [exact B|]. exists new. auto.
Qed.

End Preloaded.

Lemma preloaded_waveform_is_shown_at_once_witness :
  let h := _start_preload_wave_worker "b.wav" "10:20|p1200" false 1200
             Examples.hit_host in
  let stored := _align_wave_channels [0%Q] Examples.silent_amp in
  let h1 := _on_preload_finished 1 "b.wav" [0%Q] Examples.silent_amp h in
  let h2 := _load_waveform_for_track Examples.uniform_stat "b.wav" h1 in
  plot h2 = plot (_set_waveform_from_channels (fst stored) (snd stored) h1) /\
  wave_cache h2 = wave_cache h1 /\
  exists new,
    started h2 = started h1 ++ new /\ (length new <= 1)%nat /\
    Forall (fun job => path job <> "b.wav"%string) new.
Proof.
  refine (preloaded_waveform_is_shown_at_once Examples.uniform_stat 1 "b.wav" [0%Q]
            Examples.silent_amp
            (_start_preload_wave_worker "b.wav" "10:20|p1200" false 1200
               Examples.hit_host) eq_refl eq_refl eq_refl _).
  simpl. lia.
Defined.

Section Transparent.

Variable device_max_for : Z -> Z.

(** X25. Automatic mode is transparent: with the matrix off and the mode
    "auto", a source of 1 to 12 channels on a device with at least that many
    channels gets as many output channels as it has, and its runtime routing
    matrix is the identity. *)
Theorem automatic_mode_is_transparent (cfg : Config) (n : Z) :
  _audio_matrix_enabled cfg = false -> _audio_routing_mode cfg = "auto"%string ->
  1 <= n <= 12 -> n <= device_max_for 0 ->
  _effective_output_channels device_max_for cfg n = n /\
  _is_identity_routing (_build_runtime_routing_matrix cfg n n) = true.
Proof.
  intros Hoff Hmode Hn Hdev. split.
  - unfold _effective_output_channels, _routing_target_channels. cbv zeta.
    rewrite Hoff, Hmode. simpl. change (Z.of_nat SIZE) with 12. lia.
  - unfold _build_runtime_routing_matrix, base_matrix, build_row.
    rewrite Hoff, Hmode. simpl String.eqb. cbv iota zeta. simpl negb. cbv iota.
    assert (Hcases : n = 1 \/ n = 2 \/ n = 3 \/ n = 4 \/ n = 5 \/ n = 6 \/ n = 7 \/
                     n = 8 \/ n = 9 \/ n = 10 \/ n = 11 \/ n = 12) by lia.
    destruct Hcases as [->|[->|[->|[->|[->|[->|[->|[->|[->|[->|[->| ->]]]]]]]]]]];
      vm_compute; reflexivity.
Qed.

(** X26. The number of output channels that is opened is between 1 and 12;
    with the matrix off it never exceeds what the device offers, and with
    the matrix on it is at least 2 whatever the device offers. *)
Theorem output_channels_are_bounded (cfg : Config) (source_channels : Z) :
  let out := _effective_output_channels device_max_for cfg source_channels in
  let device_max :=
    Z.max 1 (device_max_for
               (_routing_target_channels cfg (_audio_routing_mode cfg)
                  (Some (_audio_matrix_enabled cfg)))) in
  1 <= out <= 12 /\
  (_audio_matrix_enabled cfg = false -> out <= device_max) /\
  (_audio_matrix_enabled cfg = true -> 2 <= out /\ (2 <= device_max -> out <= device_max)).
Proof.
  unfold _effective_output_channels. cbv zeta. change (Z.of_nat SIZE) with 12.
  destruct (_audio_matrix_enabled cfg).
  - split; [lia|]. split; [discriminate|]. intros _. lia.
  - destruct (_ <=? 0); (split; [lia|]); (split; [intros _; lia | discriminate]).
Qed.

End Transparent.

Lemma automatic_mode_is_transparent_witness :
  _effective_output_channels Examples.stereo_device
    (mk_config false "auto" _default_routing_matrix) 2 = 2 /\
  _is_identity_routing
    (_build_runtime_routing_matrix (mk_config false "auto" _default_routing_matrix) 2 2)
  = true.
Proof.
  apply (automatic_mode_is_transparent Examples.stereo_device
           (mk_config false "auto" _default_routing_matrix) 2);
    try reflexivity; simpl; lia.
Defined.

Lemma output_channels_are_bounded_witness :
  2 <= _effective_output_channels (fun _ => 1) Examples.patch_identity 1.
Proof.
  exact (proj1 (proj2 (proj2 (output_channels_are_bounded (fun _ => 1)
                                Examples.patch_identity 1)) eq_refl)).
Defined.

End PlaybackExtras.

(** ** Trimming with nothing loaded *)

Module TrimExtras.

Import Routing Settings Reference DictFacts RoutingFacts RoutingExtras.

Section Idle.

Variable abspath : string -> string.

Lemma trim_loop_idle (m : Z) (fuel : nat) :
  1 <= m ->
  forall pl : Player,
    (length (_routed_audio_cache pl) <= fuel)%nat ->
    let cache := _routed_audio_cache pl in
    let n := (length cache - Z.to_nat m)%nat in
    let pl' := trim_loop abspath fuel m "" pl in
    _routed_audio_cache pl' = skipn n cache /\
    (forall q, In q (files pl') <->
               In q (files pl) /\
               forall k p, In (k, p) (firstn n cache) -> p <> ""%string -> abspath p <> q) /\
    (forall s, In s (_session_routed_files pl') <->
               In s (_session_routed_files pl) /\
               forall k p, In (k, p) (firstn n cache) -> p <> s).
Proof.
  intros Hm. induction fuel as [|fuel IH]; intros pl Hlen; cbv zeta.
  - assert (Hnil : _routed_audio_cache pl = []).
    { destruct (_routed_audio_cache pl); [reflexivity | simpl in Hlen; lia]. }
    simpl. rewrite Hnil. simpl.
    split; [reflexivity|]. split; intros x; (split; [intros H; split; [exact H|] | tauto]);
      intros k p [].
  - cbn [trim_loop].
    destruct (Z.of_nat (length (_routed_audio_cache pl)) >? m) eqn:E.
    + rewrite Z.gtb_ltb in E. apply Z.ltb_lt in E.
      destruct (_routed_audio_cache pl) as [|[k0 p0] rest] eqn:Ec; [simpl in E; lia|].
      assert (Hcur : is_current abspath "" p0 = false) by reflexivity.
      cbn [find_victim]. rewrite Hcur. cbv zeta.
      assert (Hpop : Dict.pop k0 ((k0, p0) :: rest) = rest)
        by (simpl; rewrite String.eqb_refl; reflexivity).
      rewrite Hpop.
      match goal with |- context [trim_loop abspath fuel m "" ?x] => set (pl1 := x) end.
      assert (Hc1 : _routed_audio_cache pl1 = rest).
      { unfold pl1. simpl. destruct (_ && _); reflexivity. }
      assert (Hf1 : forall q, In q (files pl1) <->
                              In q (files pl) /\ (p0 <> ""%string -> abspath p0 <> q)).
      { intros q. unfold pl1. simpl.
        destruct (is_empty p0) eqn:Ee; unfold is_empty in Ee; simpl.
        - apply String.eqb_eq in Ee. tauto.
        - apply String.eqb_neq in Ee.
          destruct (isfile abspath p0 (files pl)) eqn:Ef; simpl.
          + unfold fs_remove. rewrite filter_In, negb_true_iff, String.eqb_neq.
            split; [intros [H1 H2]; split; [exact H1 | intros _; congruence]|].
            intros [H1 H2]. split; [exact H1|]. intros ->. apply (H2 Ee). reflexivity.
          + split; [|tauto]. intros H. split; [exact H|]. intros _ <-.
            apply (isfile_iff abspath) in H. congruence. }
      assert (Hs1 : forall s, In s (_session_routed_files pl1) <->
                              In s (_session_routed_files pl) /\ p0 <> s).
      { intros s. unfold pl1. simpl.
        destruct (_ && _); simpl; unfold set_discard;
          rewrite filter_In, negb_true_iff, String.eqb_neq;
          (split; intros [H1 H2]; split; auto). }
      assert (Hlen1 : (length (_routed_audio_cache pl1) <= fuel)%nat)
        by (rewrite Hc1; simpl in Hlen; lia).
      destruct (IH pl1 Hlen1) as (C & F & T). cbv zeta in C, F, T.
      rewrite Hc1 in C, F, T.
      assert (Hn : (length ((k0, p0) :: rest) - Z.to_nat m
                    = S (length rest - Z.to_nat m))%nat).
      { simpl length in *. lia. }
      rewrite Hn. cbn [skipn firstn].
      split; [exact C|]. split.
      * intros q. rewrite F, Hf1. split.
        -- intros [[H1 H2] H3]. split; [exact H1|].
           intros k p [Heq | Hin] Hne; [injection Heq as <- <-; auto | eauto].
        -- intros [H1 H2]. split; [split; [exact H1|]|].
           ++ intros Hne. apply (H2 k0 p0); [left; reflexivity | exact Hne].
           ++ intros k p Hin Hne. apply (H2 k p); [right; exact Hin | exact Hne].
      * intros s. rewrite T, Hs1. split.
        -- intros [[H1 H2] H3]. split; [exact H1|].
           intros k p [Heq | Hin]; [injection Heq as <- <-; auto | eauto].
        -- intros [H1 H2]. split; [split; [exact H1|]|].
           ++ apply (H2 k0 p0). left. reflexivity.
           ++ intros k p Hin. apply (H2 k p). right. exact Hin.
    + rewrite Z.gtb_ltb in E. apply Z.ltb_ge in E.
      replace (length (_routed_audio_cache pl) - Z.to_nat m)%nat with 0%nat by lia.
      simpl. split; [reflexivity|].
      split; intros x; (split; [intros H; split; [exact H|] | tauto]); intros k p [].
Qed.

(** X27. With no source loaded in the playback component, trimming the
    routed-file cache cuts it to its newest entries, as many as the limit
    (a limit below 1 counts as 1); the files of the entries cut off are
    removed from the disk and are no longer tracked, and every other file
    and every other tracked path stays. *)
Theorem idle_trim_keeps_the_newest (max_entries : Z) (pl : Player) :
  player_source pl = ""%string ->
  let cache := _routed_audio_cache pl in
  let n := (length cache - Z.to_nat (Z.max 1 max_entries))%nat in
  let pl' := _trim_routed_audio_cache abspath max_entries pl in
  _routed_audio_cache pl' = skipn n cache /\
  (Z.of_nat (length (_routed_audio_cache pl')) <= Z.max 1 max_entries) /\
  (forall q, In q (files pl') <->
             In q (files pl) /\
             forall k p, In (k, p) (firstn n cache) -> p <> ""%string -> abspath p <> q) /\
  (forall s, In s (_session_routed_files pl') <->
             In s (_session_routed_files pl) /\
             forall k p, In (k, p) (firstn n cache) -> p <> s).
Proof.
  intros Hsrc cache n pl'. unfold pl', _trim_routed_audio_cache.
  assert (Hcur : current_source_abs_of abspath pl = ""%string).
  { unfold current_source_abs_of. rewrite Hsrc. reflexivity. }
  rewrite Hcur. cbv zeta.
  assert (Hm : (if max_entries <? 1 then 1 else max_entries) = Z.max 1 max_entries).
  { destruct (max_entries <? 1) eqn:E; lia. }
  rewrite Hm.
  destruct (trim_loop_idle (Z.max 1 max_entries) (length (_routed_audio_cache pl))
              ltac:(lia) pl (le_n _)) as (C & F & T).
  cbv zeta in C, F, T. fold cache in C, F, T. fold n in C, F, T.
  split; [exact C|]. split; [|split; [exact F | exact T]].
  fold cache. rewrite C, length_skipn. unfold n. lia.
Qed.

End Idle.

Lemma idle_trim_keeps_the_newest_witness :
  _routed_audio_cache
    (_trim_routed_audio_cache Examples.plain_abspath 2
       (mk_player Examples.stereo_preset
          [("k1", "/r/k1.wav"); ("k2", "/r/k2.wav"); ("k3", "/r/k3.wav")]%string
          ["/r/k1.wav"; "/r/k2.wav"; "/r/k3.wav"]%string "/r" ""
          ["/r/k1.wav"; "/r/k2.wav"; "/r/k3.wav"; "/m/a.wav"]%string))
  = [("k2", "/r/k2.wav"); ("k3", "/r/k3.wav")]%string.
Proof.
  exact (proj1 (idle_trim_keeps_the_newest Examples.plain_abspath 2
                  (mk_player Examples.stereo_preset
                     [("k1", "/r/k1.wav"); ("k2", "/r/k2.wav"); ("k3", "/r/k3.wav")]%string
                     ["/r/k1.wav"; "/r/k2.wav"; "/r/k3.wav"]%string "/r" ""
                     ["/r/k1.wav"; "/r/k2.wav"; "/r/k3.wav"; "/m/a.wav"]%string)
                  eq_refl)).
Defined.

End TrimExtras.
